(** * Kelp UI custom bundle: table-of-contents builder, ID assigner and lifecycle guards

    A shallow embedding of [assets/js/kelp-tecnologiahumanista.0.10.js].

    - JavaScript strings are modelled as [string]; a character stands for
      the code unit of the same number (0..255).
    - The document is a store of elements that is threaded through every
      operation: the builder mutates the [id] of the very elements it was
      handed, so no element is ever copied.
    - [#createList] is embedded twice: [createList] returns the markup as a
      tree, [createList_html] builds the HTML string as the source does;
      [createList_html_tree] shows that the string is the serialisation of
      the tree.
    - The two unbounded loops of the source (the identifier probing and the
      recursive list builder) take fuel; [probe_total] and
      [createList_total] show that they end. *)

From Stdlib Require Import Ascii Arith Lia Bool.
From Stdlib Require String.
From stdpp Require Import base option list gmap strings pretty.

(** ** JavaScript string helpers *)

(** A string is truthy when it is not empty. *)
Definition truthy (s : string) : bool :=
  match s with
  | EmptyString => false
  | String _ _ => true
  end.

(** [s.slice(1)]. *)
Definition slice1 (s : string) : string :=
  match s with
  | EmptyString => EmptyString
  | String _ tl => tl
  end.

(** [a < b] and [a > b] on two strings: code-unit lexicographic order. *)
Definition js_lt (a b : string) : bool := String.ltb a b.
Definition js_gt (a b : string) : bool := String.ltb b a.

(** The double quote character, as a one-character string. *)
Definition dq : string := String (ascii_of_nat 34) EmptyString.

(** *** The two regular-expression replacements of [setTextAsID] *)

Definition in_range (lo hi : nat) (c : ascii) : bool :=
  (lo <=? nat_of_ascii c) && (nat_of_ascii c <=? hi).

(** [\s] restricted to code units below 256: TAB, LF, VT, FF, CR, space
    and the no-break space. *)
Definition is_space (c : ascii) : bool :=
  in_range 9 13 c || (nat_of_ascii c =? 32) || (nat_of_ascii c =? 160).

Definition is_dash (c : ascii) : bool := nat_of_ascii c =? 45.

(** The class [a-zA-Z0-9-_\u00A0-\uFFEF\s-]. *)
Definition id_char (c : ascii) : bool :=
  in_range 97 122 c || in_range 65 90 c || in_range 48 57 c
  || is_dash c || (nat_of_ascii c =? 95) || (160 <=? nat_of_ascii c)
  || is_space c.

(** [.replace(/[^a-zA-Z0-9-_\u00A0-\uFFEF\s-]/g, '-')] *)
Fixpoint replace_invalid (s : string) : string :=
  match s with
  | EmptyString => EmptyString
  | String c tl =>
      String (if id_char c then c else "-"%char) (replace_invalid tl)
  end.

(** [.replace(/[\s-]+/g, '-')]; [in_run] tells that the previous character
    belonged to the run being collapsed. *)
Fixpoint collapse_runs (in_run : bool) (s : string) : string :=
  match s with
  | EmptyString => EmptyString
  | String c tl =>
      if is_space c || is_dash c
      then (if in_run then collapse_runs true tl
            else String "-"%char (collapse_runs true tl))
      else String c (collapse_runs false tl)
  end.

Definition text_to_id (text : string) : string :=
  collapse_runs false (replace_invalid text).

(** ** Elements and the document *)

Record Element := mkElement {
  tagName : string;
  id : string;
  textContent : string
}.

Definition set_id (e : Element) (new_id : string) : Element :=
  {| tagName := tagName e; id := new_id; textContent := textContent e |}.

(** The document, seen from the table of contents: [headings] are the
    elements matched by the selector, in document order (the node list
    handed to the builder); [others] are all the other elements. *)
Record Document := mkDocument {
  headings : list Element;
  others : list Element
}.

Definition set_headings (d : Document) (hs : list Element) : Document :=
  {| headings := hs; others := others d |}.

Definition all_ids (d : Document) : list string :=
  map id (headings d ++ others d).

(** [document.querySelector('#' + name)] as a boolean: is there an element
    whose id is [name]? *)
Definition querySelector_id (d : Document) (name : string) : bool :=
  bool_decide (name ∈ all_ids d).

(** The candidate identifier probed for a given suffix:
    [kelp_${id}] for suffix 0 and [kelp_${id}_${suffix}] otherwise. *)
Definition candidate (base : string) (suffix : nat) : string :=
  "kelp_" +:+ base +:+
  (match suffix with
   | 0 => EmptyString
   | S _ => "_" +:+ pretty suffix
   end).

(** The [while (existing)] loop: the first suffix at or after [suffix]
    whose candidate is free. *)
Fixpoint probe (fuel : nat) (d : Document) (base : string) (suffix : nat)
  : option nat :=
  match fuel with
  | 0 => None
  | S fuel' =>
      if querySelector_id d (candidate base suffix)
      then probe fuel' d base (S suffix)
      else Some suffix
  end.

(** [setTextAsID(headings[i])].  [None] only when the fuel runs out. *)
Definition setTextAsID (fuel : nat) (d : Document) (i : nat)
  : option Document :=
  match headings d !! i with
  | None => Some d
  | Some elem =>
      if truthy (id elem) then Some d
      else
        let new_id := text_to_id (textContent elem) in
        if negb (truthy new_id) then Some d
        else
          match probe fuel d new_id 0 with
          | None => None
          | Some suffix =>
              Some (set_headings d
                      (<[i := set_id elem (candidate new_id suffix)]>
                         (headings d)))
          end
  end.

(** ** The table-of-contents builder *)

(** The private settings read by [init]. *)
Record Config := mkConfig {
  nested : bool;
  level : string;
  heading : option string;
  headingType : string;
  target : string;
  listClass : option string;
  listType : string
}.

(** Truthiness of a [String | null] setting. *)
Definition truthy_opt (o : option string) : bool :=
  match o with
  | Some s => truthy s
  | None => false
  end.

(** The markup returned by [#createList], kept as a tree.  An [Li] is one
    generated entry, with the nested list when one was opened; a
    [CaptionLi] is the caption rendered as a list item.  A [Markup] is the
    optional standalone caption element (tag and text) followed by the list
    element (tag, optional class, items). *)
Inductive Item : Type :=
| Li (href text : string) (sub : option Markup)
| CaptionLi (caption : string)
with Markup : Type :=
| MkMarkup (standalone : option (string * string))
           (list_tag : string) (list_class : option string)
           (items : list Item).

Definition list_tag_of (m : Markup) : string :=
  match m with MkMarkup _ t _ _ => t end.
Definition list_class_of (m : Markup) : option string :=
  match m with MkMarkup _ _ c _ => c end.
Definition items_of (m : Markup) : list Item :=
  match m with MkMarkup _ _ _ its => its end.

(** The builder's mutable state: the document and [this.#index]. *)
Record St := mkSt {
  doc : Document;
  index : nat
}.

Definition set_index (s : St) (i : nat) : St :=
  {| doc := doc s; index := i |}.

(** [headings[i].tagName.slice(1)] *)
Definition level_of (e : Element) : string := slice1 (tagName e).

(** [headings[i]?.tagName.slice(1) || currentLevel] *)
Definition next_level (hs : list Element) (i : nat) (currentLevel : string)
  : string :=
  match hs !! i with
  | Some e => if truthy (level_of e) then level_of e else currentLevel
  | None => currentLevel
  end.

Section Builder.

Variable cfg : Config.

(** The return statement of [#createList]. *)
Definition wrap_list (isFirst : bool) (items : list Item) : Markup :=
  let renderHeading := isFirst && truthy_opt (heading cfg) in
  let is_li := bool_decide (headingType cfg = "li") in
  MkMarkup
    (if renderHeading && negb is_li
     then Some (headingType cfg, default EmptyString (heading cfg))
     else None)
    (listType cfg)
    (if truthy_opt (listClass cfg) then listClass cfg else None)
    ((if renderHeading && is_li
      then [CaptionLi (default EmptyString (heading cfg))]
      else []) ++ items).

(** The [for] loop of [#createList], from the loop test on; [items] is the
    markup accumulated so far.  A recursive [#createList(headings)] call
    is the index update [this.#index + 1], a fresh loop with an empty
    list, and [wrap_list false].  An iteration ends with the [break] test
    or with [this.#index++] and the next iteration.  [None] only when the
    fuel runs out. *)
Fixpoint for_loop (fuel : nat) (isFirst : bool) (items : list Item) (s : St)
  : option (list Item * St) :=
  match fuel with
  | 0 => None
  | S fuel' =>
      if index s <? length (headings (doc s)) then
        match setTextAsID fuel' (doc s) (index s) with
        | None => None
        | Some d1 =>
            match headings d1 !! index s with
            | None => None
            | Some h =>
                let currentLevel := level_of h in
                let s1 := {| doc := d1; index := index s |} in
                let child :=
                  if nested cfg &&
                     js_gt (next_level (headings d1) (index s + 1)
                              currentLevel) currentLevel
                  then
                    match for_loop fuel' false [] (set_index s1 (index s + 1)) with
                    | None => None
                    | Some (l, s2) => Some (Some (wrap_list false l), s2)
                    end
                  else Some (None, s1)
                in
                match child with
                | None => None
                | Some (sub, s2) =>
                    let items' := items ++ [Li (id h) (textContent h) sub] in
                    if negb isFirst &&
                       js_lt (next_level (headings (doc s2)) (index s2 + 1)
                                currentLevel) currentLevel
                    then Some (items', s2)
                    else for_loop fuel' isFirst items'
                           (set_index s2 (index s2 + 1))
                end
            end
        end
      else Some (items, s)
  end.

(** [#createList(headings, isFirst)] *)
Definition createList (fuel : nat) (isFirst : bool) (s : St)
  : option (Markup * St) :=
  let s0 := set_index s (if isFirst then 0 else index s + 1) in
  match for_loop fuel isFirst [] s0 with
  | None => None
  | Some (items, s') => Some (wrap_list isFirst items, s')
  end.

End Builder.

(** ** Serialising the markup

    The two template literals of [#createList], with their line breaks and
    tabs. *)

Definition nl_tabs (n : nat) : string :=
  String (ascii_of_nat 10)
    (String.concat EmptyString
       (replicate n (String (ascii_of_nat 9) EmptyString))).

Definition caption_html (caption : string) : string :=
  "<li><strong>" +:+ caption +:+ "</strong></li>".

Fixpoint item_html (it : Item) : string :=
  match it with
  | Li href text sub =>
      "<li>" +:+ nl_tabs 5 +:+
      "<a class=" +:+ dq +:+ "link-subtle" +:+ dq +:+ " href=" +:+ dq +:+ "#"
        +:+ href +:+ dq +:+ ">" +:+ text +:+ "</a>" +:+ nl_tabs 5 +:+
      match sub with
      | Some m => to_html m
      | None => EmptyString
      end +:+ nl_tabs 4 +:+ "</li>"
  | CaptionLi caption => caption_html caption
  end
with to_html (m : Markup) : string :=
  match m with
  | MkMarkup standalone tag class items =>
      let entries :=
        foldr (λ it acc, item_html it +:+ acc) EmptyString in
      nl_tabs 3 +:+
      match standalone with
      | Some (t, c) => "<" +:+ t +:+ ">" +:+ c +:+ "</" +:+ t +:+ ">"
      | None => EmptyString
      end +:+ nl_tabs 3 +:+
      "<" +:+ tag +:+ " " +:+
      match class with
      | Some c => "class=" +:+ dq +:+ c +:+ dq
      | None => EmptyString
      end +:+ ">" +:+ nl_tabs 4 +:+
      match items with
      | CaptionLi c :: tl => caption_html c +:+ nl_tabs 4 +:+ entries tl
      | _ => nl_tabs 4 +:+ entries items
      end +:+
      nl_tabs 3 +:+ "</" +:+ tag +:+ ">"
  end.

(** ** The builder as written: on strings

    [for_loop_html] and [createList_html] follow [#createList] to the
    letter, concatenating the template literals into the HTML string.  They
    are shown below to return the serialisation of the tree that
    [createList] returns. *)

Section BuilderHtml.

Variable cfg : Config.

(** The [return] template of [#createList]. *)
Definition wrap_html (isFirst : bool) (list : string) : string :=
  let renderHeading := isFirst && truthy_opt (heading cfg) in
  let is_li := bool_decide (headingType cfg = "li") in
  nl_tabs 3 +:+
  (if renderHeading && negb is_li
   then "<" +:+ headingType cfg +:+ ">" +:+ default EmptyString (heading cfg)
          +:+ "</" +:+ headingType cfg +:+ ">"
   else EmptyString) +:+ nl_tabs 3 +:+
  "<" +:+ listType cfg +:+ " " +:+
  (if truthy_opt (listClass cfg)
   then "class=" +:+ dq +:+ default EmptyString (listClass cfg) +:+ dq
   else EmptyString) +:+ ">" +:+ nl_tabs 4 +:+
  (if renderHeading && is_li
   then "<li><strong>" +:+ default EmptyString (heading cfg) +:+ "</strong></li>"
   else EmptyString) +:+ nl_tabs 4 +:+
  list +:+
  nl_tabs 3 +:+ "</" +:+ listType cfg +:+ ">".

Fixpoint for_loop_html (fuel : nat) (isFirst : bool) (list : string) (s : St)
  : option (string * St) :=
  match fuel with
  | 0 => None
  | S fuel' =>
      if index s <? length (headings (doc s)) then
        match setTextAsID fuel' (doc s) (index s) with
        | None => None
        | Some d1 =>
            match headings d1 !! index s with
            | None => None
            | Some h =>
                let currentLevel := level_of h in
                let s1 := {| doc := d1; index := index s |} in
                let child :=
                  if nested cfg &&
                     js_gt (next_level (headings d1) (index s + 1)
                              currentLevel) currentLevel
                  then
                    match for_loop_html fuel' false EmptyString
                            (set_index s1 (index s + 1)) with
                    | None => None
                    | Some (l, s2) => Some (wrap_html false l, s2)
                    end
                  else Some (EmptyString, s1)
                in
                match child with
                | None => None
                | Some (sub, s2) =>
                    let list' :=
                      list +:+
                      ("<li>" +:+ nl_tabs 5 +:+
                       "<a class=" +:+ dq +:+ "link-subtle" +:+ dq +:+
                       " href=" +:+ dq +:+ "#" +:+ id h +:+ dq +:+ ">" +:+
                       textContent h +:+ "</a>" +:+ nl_tabs 5 +:+
                       sub +:+ nl_tabs 4 +:+ "</li>") in
                    if negb isFirst &&
                       js_lt (next_level (headings (doc s2)) (index s2 + 1)
                                currentLevel) currentLevel
                    then Some (list', s2)
                    else for_loop_html fuel' isFirst list'
                           (set_index s2 (index s2 + 1))
                end
            end
        end
      else Some (list, s)
  end.

Definition createList_html (fuel : nat) (isFirst : bool) (s : St)
  : option (string * St) :=
  let s0 := set_index s (if isFirst then 0 else index s + 1) in
  match for_loop_html fuel isFirst EmptyString s0 with
  | None => None
  | Some (list, s') => Some (wrap_html isFirst list, s')
  end.

End BuilderHtml.

(** The concatenation of the items' markup. *)
Definition items_html (items : list Item) : string :=
  foldr (λ it acc, item_html it +:+ acc) EmptyString items.

(** ** Events and attributes *)

(** A dispatched [CustomEvent]. *)
Record Event := mkEvent {
  ev_type : string;
  bubbles : bool;
  cancelable : bool;
  detail : option string
}.

(** [debug(elem, detail)] and [emit(elem, component, id)], as the event
    that is dispatched. *)
Definition debug_event (reason : string) : Event :=
  {| ev_type := "kelp:debug"; bubbles := true; cancelable := false;
     detail := Some reason |}.

Definition emit_event (component ident : string) : Event :=
  {| ev_type := "kelp-" +:+ component +:+ ":" +:+ ident; bubbles := true;
     cancelable := false; detail := None |}.

Definition hasAttribute (attrs : gmap string string) (name : string) : bool :=
  bool_decide (is_Some (attrs !! name)).

(** [this.getAttribute(name) || fallback] *)
Definition getAttribute_or (attrs : gmap string string) (name fallback : string)
  : string :=
  match attrs !! name with
  | Some v => if truthy v then v else fallback
  | None => fallback
  end.

(** ** The [kelp-toc] component *)

(** The custom element: its attributes, its content, its private settings
    (unset before the first [init]) and [#index]; with it the document it
    lives in and the events dispatched so far, oldest first. *)
Record Toc := mkToc {
  toc_attrs : gmap string string;
  innerHTML : string;
  settings : option Config;
  toc_index : nat;
  toc_document : Document;
  toc_events : list Event
}.

(** The "Get settings" block of [init]. *)
Definition read_settings (attrs : gmap string string) : Config :=
  let nested := hasAttribute attrs "nested" in
  {| nested := nested;
     level := getAttribute_or attrs "level"
                (if nested then "h2, h3, h4, h5, h6" else "h2");
     heading := attrs !! "heading";
     headingType := getAttribute_or attrs "heading-type"
                      (if nested then "h2" else "li");
     target := getAttribute_or attrs "target" EmptyString;
     listClass := match attrs !! "list-class" with
                  | Some v => if truthy v then Some v
                              else if nested then None else Some "list-inline"
                  | None => if nested then None else Some "list-inline"
                  end;
     listType := getAttribute_or attrs "list-type" "ul" |}.

(** [render()]: the boolean tells whether it returned [true]. *)
Definition render (fuel : nat) (cfg : Config) (t : Toc) : option (bool * Toc) :=
  match headings (toc_document t) with
  | [] => Some (false, t)
  | _ :: _ =>
      match createList_html cfg fuel true
              {| doc := toc_document t; index := toc_index t |} with
      | None => None
      | Some (html, s) =>
          Some (true,
                {| toc_attrs := toc_attrs t;
                   innerHTML := html;
                   settings := settings t;
                   toc_index := index s;
                   toc_document := doc s;
                   toc_events := toc_events t |})
      end
  end.

Definition toc_dispatch (t : Toc) (e : Event) : Toc :=
  {| toc_attrs := toc_attrs t; innerHTML := innerHTML t;
     settings := settings t; toc_index := toc_index t;
     toc_document := toc_document t;
     toc_events := toc_events t ++ [e] |}.

Definition toc_setAttribute (t : Toc) (name value : string) : Toc :=
  {| toc_attrs := <[name := value]> (toc_attrs t); innerHTML := innerHTML t;
     settings := settings t; toc_index := toc_index t;
     toc_document := toc_document t; toc_events := toc_events t |}.

(** [init()] of [kelp-toc]. *)
Definition toc_init (fuel : nat) (t : Toc) : option Toc :=
  if hasAttribute (toc_attrs t) "is-ready" then Some t
  else
    let cfg := read_settings (toc_attrs t) in
    let t1 := {| toc_attrs := toc_attrs t; innerHTML := innerHTML t;
                 settings := Some cfg; toc_index := 0;
                 toc_document := toc_document t;
                 toc_events := toc_events t |} in
    match render fuel cfg t1 with
    | None => None
    | Some (false, t2) =>
        Some (toc_dispatch t2 (debug_event "No matching headings were found"))
    | Some (true, t2) =>
        Some (toc_setAttribute (toc_dispatch t2 (emit_event "toc" "ready"))
                "is-ready" EmptyString)
    end.

(** ** The [kelp-subnav] component *)

(** The custom element: its attributes, whether it contains a [details]
    element, the event types for which it is registered as a listener on
    the document, and the events dispatched so far. *)
Record Subnav := mkSubnav {
  sub_attrs : gmap string string;
  has_details : bool;
  listening : gset string;
  sub_events : list Event
}.

Definition sub_set_attrs (n : Subnav) (a : gmap string string) : Subnav :=
  {| sub_attrs := a; has_details := has_details n;
     listening := listening n; sub_events := sub_events n |}.

Definition sub_set_listening (n : Subnav) (l : gset string) : Subnav :=
  {| sub_attrs := sub_attrs n; has_details := has_details n;
     listening := l; sub_events := sub_events n |}.

Definition sub_dispatch (n : Subnav) (e : Event) : Subnav :=
  {| sub_attrs := sub_attrs n; has_details := has_details n;
     listening := listening n; sub_events := sub_events n ++ [e] |}.

(** [#listen()]: registering the same listener twice has no effect. *)
Definition listen (n : Subnav) : Subnav :=
  sub_set_listening n ({["click"]} ∪ ({["keydown"]} ∪ listening n)).

(** [disconnectedCallback()] *)
Definition disconnectedCallback (n : Subnav) : Subnav :=
  sub_set_attrs
    (sub_set_listening n (listening n ∖ {["click"]} ∖ {["keydown"]}))
    (<["is-paused" := EmptyString]> (sub_attrs n)).

(** [reinit(instance, callback)]; [callback] is [None] when the argument is
    not a function. *)
Definition reinit (n : Subnav) (callback : option (Subnav → Subnav))
  : bool * Subnav :=
  if negb (hasAttribute (sub_attrs n) "is-ready") then (false, n)
  else
    match callback with
    | Some f =>
        if negb (hasAttribute (sub_attrs n) "is-paused") then (true, n)
        else
          let n1 := f n in
          (true, sub_set_attrs n1 (delete "is-paused" (sub_attrs n1)))
    | None => (true, n)
    end.

(** [init()] of [kelp-subnav]. *)
Definition subnav_init (n : Subnav) : Subnav :=
  let '(isInit, n1) := reinit n (Some listen) in
  if isInit then n1
  else if negb (has_details n1)
       then sub_dispatch n1 (debug_event "No subnav was found")
       else
         let n2 := listen n1 in
         let n3 := sub_dispatch n2 (emit_event "subnav" "ready") in
         sub_set_attrs n3 (<["is-ready" := EmptyString]> (sub_attrs n3)).

(** ** The [kelp-heading-anchors] component

    Only its lifecycle is modelled.  What [render] does to the headings it
    finds (a class, an identifier, the anchor link as their new content) is
    kept abstract: [anchors_render icon levels before content] is the new
    content, or [None] when no heading matches. *)

Record Anchors (Content : Type) := mkAnchors {
  anc_attrs : gmap string string;
  anc_content : Content;
  anc_settings : option (string * string * bool);
  anc_events : list Event
}.

Arguments mkAnchors {Content}.
Arguments anc_attrs {Content}.
Arguments anc_content {Content}.
Arguments anc_settings {Content}.
Arguments anc_events {Content}.

Section HeadingAnchors.

Context {Content : Type}.
Variable anchors_render : string → string → bool → Content → option Content.

(** [init()] of [kelp-heading-anchors]. *)
Definition anchors_init (a : Anchors Content) : Anchors Content :=
  if hasAttribute (anc_attrs a) "is-ready" then a
  else
    let icon := getAttribute_or (anc_attrs a) "icon" "#" in
    let levels := getAttribute_or (anc_attrs a) "levels" "h2, h3, h4, h5, h6" in
    let before := hasAttribute (anc_attrs a) "before" in
    match anchors_render icon levels before (anc_content a) with
    | None =>
        {| anc_attrs := anc_attrs a; anc_content := anc_content a;
           anc_settings := Some (icon, levels, before);
           anc_events := anc_events a ++
                         [debug_event "No matching headings were found"] |}
    | Some content =>
        {| anc_attrs := <["is-ready" := EmptyString]> (anc_attrs a);
           anc_content := content;
           anc_settings := Some (icon, levels, before);
           anc_events := anc_events a ++
                         [emit_event "heading-anchors" "ready"] |}
    end.

End HeadingAnchors.

(** ** Reading the produced tree *)

(** The generated entries in document (pre-order) position, each as the
    pair of the identifier it links to and its text. *)
Fixpoint item_entries (it : Item) : list (string * string) :=
  match it with
  | Li href text sub =>
      (href, text) ::
      match sub with
      | Some m => markup_entries m
      | None => []
      end
  | CaptionLi _ => []
  end
with markup_entries (m : Markup) : list (string * string) :=
  match m with
  | MkMarkup _ _ _ items => flat_map item_entries items
  end.

(** The nesting depth of every generated entry, in the same order; the
    items of a list at depth [d] have the items of their nested lists at
    depth [S d]. *)
Fixpoint item_depths (d : nat) (it : Item) : list nat :=
  match it with
  | Li _ _ sub =>
      d ::
      match sub with
      | Some m => markup_depths (S d) m
      | None => []
      end
  | CaptionLi _ => []
  end
with markup_depths (d : nat) (m : Markup) : list nat :=
  match m with
  | MkMarkup _ _ _ items => flat_map (item_depths d) items
  end.

(** The depth of the deepest list: 1 for a list without nested lists. *)
Fixpoint item_nesting (it : Item) : nat :=
  match it with
  | Li _ _ (Some m) => nesting_depth m
  | _ => 0
  end
with nesting_depth (m : Markup) : nat :=
  match m with
  | MkMarkup _ _ _ items => S (foldr (λ it acc, item_nesting it `max` acc) 0 items)
  end.

Definition has_sublist (it : Item) : bool :=
  match it with
  | Li _ _ (Some _) => true
  | _ => false
  end.

Definition is_caption (it : Item) : bool :=
  match it with
  | CaptionLi _ => true
  | Li _ _ _ => false
  end.

(** Number of renderings of the caption in a markup, not counting its
    nested lists; and in the nested lists only. *)
Definition markup_captions_here (m : Markup) : nat :=
  match m with
  | MkMarkup standalone _ _ items =>
      (if standalone is Some _ then 1 else 0) +
      length (List.filter is_caption items)
  end.

Fixpoint item_nested_captions (it : Item) : nat :=
  match it with
  | Li _ _ (Some m) => markup_captions_here m + markup_nested_captions m
  | _ => 0
  end
with markup_nested_captions (m : Markup) : nat :=
  match m with
  | MkMarkup _ _ _ items => foldr (λ it acc, item_nested_captions it + acc) 0 items
  end.

(** What an entry shows of a heading. *)
Definition entry_of (e : Element) : string * string := (id e, textContent e).

(** ** The loop as a relation

    [runs cfg isFirst items s items' s'] holds when the loop of
    [#createList], entered in state [s] with [items] accumulated, returns
    in state [s'] with [items'].  One constructor per path through an
    iteration: the loop test fails; the item has no nested list and the
    loop breaks or goes on; the item has a nested list and the loop breaks
    or goes on. *)

Definition opens_child (cfg : Config) (hs : list Element) (i : nat)
    (currentLevel : string) : bool :=
  nested cfg && js_gt (next_level hs (i + 1) currentLevel) currentLevel.

Definition stops_here (isFirst : bool) (hs : list Element) (i : nat)
    (currentLevel : string) : bool :=
  negb isFirst && js_lt (next_level hs (i + 1) currentLevel) currentLevel.

Inductive runs (cfg : Config)
  : bool → list Item → St → list Item → St → Prop :=
| runs_exit isFirst items s :
    ¬ index s < length (headings (doc s)) →
    runs cfg isFirst items s items s
| runs_leaf_break isFirst items s fuel d1 h :
    index s < length (headings (doc s)) →
    setTextAsID fuel (doc s) (index s) = Some d1 →
    headings d1 !! index s = Some h →
    opens_child cfg (headings d1) (index s) (level_of h) = false →
    stops_here isFirst (headings d1) (index s) (level_of h) = true →
    runs cfg isFirst items s
      (items ++ [Li (id h) (textContent h) None]) (mkSt d1 (index s))
| runs_leaf_next isFirst items s fuel d1 h items' s' :
    index s < length (headings (doc s)) →
    setTextAsID fuel (doc s) (index s) = Some d1 →
    headings d1 !! index s = Some h →
    opens_child cfg (headings d1) (index s) (level_of h) = false →
    stops_here isFirst (headings d1) (index s) (level_of h) = false →
    runs cfg isFirst (items ++ [Li (id h) (textContent h) None])
      (mkSt d1 (index s + 1)) items' s' →
    runs cfg isFirst items s items' s'
| runs_child_break isFirst items s fuel d1 h l s2 :
    index s < length (headings (doc s)) →
    setTextAsID fuel (doc s) (index s) = Some d1 →
    headings d1 !! index s = Some h →
    opens_child cfg (headings d1) (index s) (level_of h) = true →
    runs cfg false [] (mkSt d1 (index s + 1)) l s2 →
    stops_here isFirst (headings (doc s2)) (index s2) (level_of h) = true →
    runs cfg isFirst items s
      (items ++ [Li (id h) (textContent h) (Some (wrap_list cfg false l))]) s2
| runs_child_next isFirst items s fuel d1 h l s2 items' s' :
    index s < length (headings (doc s)) →
    setTextAsID fuel (doc s) (index s) = Some d1 →
    headings d1 !! index s = Some h →
    opens_child cfg (headings d1) (index s) (level_of h) = true →
    runs cfg false [] (mkSt d1 (index s + 1)) l s2 →
    stops_here isFirst (headings (doc s2)) (index s2) (level_of h) = false →
    runs cfg isFirst
      (items ++ [Li (id h) (textContent h) (Some (wrap_list cfg false l))])
      (set_index s2 (index s2 + 1)) items' s' →
    runs cfg isFirst items s items' s'.

(** Fuel that lets every loop of the builder run to its end: one unit per
    heading and per probed identifier, and a margin. *)
Definition enough_fuel (d : Document) : nat :=
  length (headings d) + length (all_ids d) + 3.

(** ** Ranks and the outline of a heading sequence *)

(** An [h1] .. [h6] element and its rank. *)
Definition is_heading (e : Element) : bool :=
  bool_decide (tagName e ∈ ["H1"; "H2"; "H3"; "H4"; "H5"; "H6"]).

Definition rank_of (e : Element) : nat :=
  match level_of e with
  | String c _ => nat_of_ascii c - 48
  | EmptyString => 0
  end.

(** The outline depth named by the specification's data model, written
    from its words: the parent of a heading is the nearest preceding
    heading of strictly smaller rank (every heading in between has a rank
    at least as great), and a heading lies one level below its parent; a
    heading without such a predecessor is at depth 1.  [before] holds the
    ranks of the preceding headings, nearest first. *)
Fixpoint outline_depth (r : nat) (before : list nat) : nat :=
  match before with
  | [] => 1
  | r' :: tl => if r' <? r then S (outline_depth r' tl) else outline_depth r tl
  end.

Definition outline_depths (ranks : list nat) : list nat :=
  imap (λ j r, outline_depth r (reverse (take j ranks))) ranks.

(** Ranks never rise by more than one level from a heading to the next. *)
Fixpoint no_skipped_level (ranks : list nat) : bool :=
  match ranks with
  | r :: ((r' :: _) as tl) => (r' <=? S r) && no_skipped_level tl
  | _ => true
  end.

(** The rank of the nearest preceding heading that is not deeper than rank
    [r]; [before] holds the ranks of the preceding headings, nearest
    first. *)
Fixpoint nearest_not_deeper (r : nat) (before : list nat) : option nat :=
  match before with
  | [] => None
  | r' :: tl => if r' <=? r then Some r' else nearest_not_deeper r tl
  end.

(** ** What the builder may change in the document *)

(** An element keeps its tag and text, and keeps its identifier when it
    has one. *)
Definition keeps (e e' : Element) : Prop :=
  tagName e' = tagName e ∧ textContent e' = textContent e ∧
  (id e ≠ EmptyString → id e' = id e).

Definition evolves (d d' : Document) : Prop :=
  others d' = others d ∧ Forall2 keeps (headings d) (headings d').

(** A heading on which [setTextAsID] has nothing to do: it has an
    identifier, or its text gives an empty one. *)
Definition settled (e : Element) : bool :=
  truthy (id e) || negb (truthy (text_to_id (textContent e))).

(** The rank sequence of a document's headings, the rank at a position (0
    past the end) and the outline depth of the heading at a position. *)
Definition ranks (d : Document) : list nat := rank_of <$> headings d.

Definition rank_at (R : list nat) (j : nat) : nat := default 0 (R !! j).

Definition depth_at (R : list nat) (j : nat) : nat :=
  outline_depth (rank_at R j) (reverse (take j R)).

(** Every heading that is shallower than its predecessor returns to an
    open level: the nearest earlier heading that is not deeper than it, if
    there is one, has exactly its rank. *)
Definition returns_to_open_level (R : list nat) : bool :=
  forallb
    (λ j, if rank_at R (S j) <? rank_at R j
          then match nearest_not_deeper (rank_at R (S j))
                       (reverse (take (S j) R)) with
               | Some r => r =? rank_at R (S j)
               | None => true
               end
          else true)
    (seq 0 (length R - 1)).

(** ** Sample documents and components *)

Definition h_elem (tag text : string) : Element :=
  {| tagName := tag; id := EmptyString; textContent := text |}.

(** Headings of ranks 2, 3, 4, 3, 2 without identifiers, and one other
    element that already uses the identifier the first heading would get. *)
Definition doc_23432 : Document :=
  {| headings := [h_elem "H2" "Intro"; h_elem "H3" "Setup";
                  h_elem "H4" "Details"; h_elem "H3" "Usage";
                  h_elem "H2" "Notes"];
     others := [{| tagName := "DIV"; id := "kelp_Intro";
                  textContent := EmptyString |}] |}.

(** Headings of ranks 2, 4, 3. *)
Definition doc_243 : Document :=
  {| headings := [h_elem "H2" "One"; h_elem "H4" "Two"; h_elem "H3" "Three"];
     others := [] |}.

Definition doc_empty : Document := {| headings := []; others := [] |}.

Definition cfg_nested : Config := read_settings {["nested" := EmptyString]}.

Definition cfg_flat : Config := read_settings ∅.

Definition cfg_caption_li : Config :=
  read_settings {["heading" := "On this page"]}.

Definition cfg_caption_h2 : Config :=
  read_settings (<["heading" := "On this page"]> {["nested" := EmptyString]}).

Definition toc_of (attrs : gmap string string) (d : Document) : Toc :=
  {| toc_attrs := attrs; innerHTML := "<p>Loading</p>"; settings := None;
     toc_index := 0; toc_document := d; toc_events := [] |}.

Definition subnav_ready_paused : Subnav :=
  {| sub_attrs := <["is-paused" := EmptyString]> {["is-ready" := EmptyString]};
     has_details := true; listening := ∅;
     sub_events := [emit_event "subnav" "ready"] |}.


(** A document of headings of the given ranks, the nesting depths the
    nested builder gives them, and all rank sequences of a given length
    over the ranks 1 to 4. *)
Definition doc_of_ranks (rs : list nat) : Document :=
  {| headings := (λ r, h_elem ("H" +:+ pretty r) "t") <$> rs; others := [] |}.

Definition builder_depths (rs : list nat) : option (list nat) :=
  (λ r, markup_depths 1 r.1) <$>
  createList cfg_nested (enough_fuel (doc_of_ranks rs)) true
    (mkSt (doc_of_ranks rs) 0).

Fixpoint rank_sequences (n : nat) : list (list nat) :=
  match n with
  | 0 => [[]]
  | S n' => l ← rank_sequences n'; r ← [1; 2; 3; 4]; [r :: l]
  end.


(** * Further definitions *)

(** ** Shape of a generated identifier *)






(** ** Identifiers in use *)

(** The identifiers that are set in the document (the empty identifier of
    an element without one left out). *)
Definition assigned_ids (d : Document) : list string :=
  filter (λ s, s ≠ EmptyString) (all_ids d).

(** What the builder does to a heading: nothing, or, when the heading has
    no identifier and some text, it sets one of the candidates of its
    text. *)
Definition gets_id (e e' : Element) : Prop :=
  e' = e ∨
  (id e = EmptyString ∧ textContent e ≠ EmptyString ∧
   ∃ k, e' = set_id e (candidate (text_to_id (textContent e)) k)).


(** ** Shape of the nested lists *)



(** ** Lifecycles *)

(** How often an event of a given type was dispatched. *)
Definition dispatched (name : string) (events : list Event) : nat :=
  length (filter (λ e, ev_type e = name) events).

(** A life of the [kelp-toc] element: it is connected, which runs [init]
    (the document being loaded), or the document around it changes. *)
Inductive toc_step : Toc → Toc → Prop :=
| toc_connected fuel t t' :
    toc_init fuel t = Some t' → toc_step t t'
| toc_document_changed t d :
    toc_step t
      {| toc_attrs := toc_attrs t; innerHTML := innerHTML t;
         settings := settings t; toc_index := toc_index t;
         toc_document := d; toc_events := toc_events t |}.

(** A life of the [kelp-subnav] element: it is connected, which runs
    [init], it is disconnected, or its content changes. *)
Inductive subnav_step : Subnav → Subnav → Prop :=
| subnav_connected n : subnav_step n (subnav_init n)
| subnav_disconnected n : subnav_step n (disconnectedCallback n)
| subnav_content_changed n b :
    subnav_step n
      {| sub_attrs := sub_attrs n; has_details := b;
         listening := listening n; sub_events := sub_events n |}.

(** A sub-navigation before its first connection, and after a connection,
    a disconnection and a new connection. *)
Definition subnav_fresh : Subnav :=
  {| sub_attrs := ∅; has_details := true; listening := ∅; sub_events := [] |}.

Definition subnav_reconnected : Subnav :=
  subnav_init (disconnectedCallback (subnav_init subnav_fresh)).


(** ** Depths in nested mode, heading by heading *)

(** How the depth [d'] of an entry relates to the depth [d] of the entry
    before it, given the ranks [r] and [r'] of their headings. *)
Definition depth_step (r d r' d' : nat) : Prop :=
  (r < r' → d' = S d) ∧ (r' = r → d' = d) ∧ (r' < r → d' ≤ d).


(** ** The [kelp-subnav] component: closing sub-navigations

    The [details] elements inside the component, in document order, none
    nested in another; each is open or not and holds a [summary] or not.
    The focus is outside of them all, on one of them, on the first
    [summary] of one of them, or on another of its descendants.
    [summary.focus()] is taken to move the focus to the summary. *)

Record Details := mkDetails {
  open : bool;
  has_summary : bool
}.

Inductive Focus : Type :=
| focus_outside
| focus_on (i : nat)
| focus_summary (i : nat)
| focus_inside (i : nat).

Record NavDom := mkNavDom {
  details : list Details;
  focus : Focus
}.

(** The events the document passes to [handleEvent]: an instance of
    [KeyboardEvent], with its type and key, or another event. *)
Inductive DomEvent : Type :=
| KeyboardEvent (type key : string)
| OtherEvent (type : string).

Definition event_type (e : DomEvent) : string :=
  match e with
  | KeyboardEvent type _ => type
  | OtherEvent type => type
  end.

(** [nav.matches(':focus-within')] and [nav.matches(':has(:focus)')] for
    the [i]-th [details] element. *)
Definition focus_within (f : Focus) (i : nat) : bool :=
  match f with
  | focus_outside => false
  | focus_on k | focus_summary k | focus_inside k => bool_decide (k = i)
  end.

Definition has_focus (f : Focus) (i : nat) : bool :=
  match f with
  | focus_outside | focus_on _ => false
  | focus_summary k | focus_inside k => bool_decide (k = i)
  end.

(** [this.querySelectorAll(...)]: the positions of the matching [details]
    elements, in document order; the list is not live. *)
Definition querySelectorAll (sel : nat → Details → bool) (dom : NavDom)
  : list nat :=
  filter (λ i, from_option (sel i) false (details dom !! i) = true)
    (seq 0 (length (details dom))).

Definition close (dt : Details) : Details :=
  {| open := false; has_summary := has_summary dt |}.

(** [nav.removeAttribute('open')] *)
Definition removeAttribute_open (dom : NavDom) (i : nat) : NavDom :=
  {| details := alter close i (details dom); focus := focus dom |}.

(** [#onClick()] *)
Definition onClick (dom : NavDom) : NavDom :=
  let navs :=
    querySelectorAll (λ i dt, open dt && negb (focus_within (focus dom) i))
      dom in
  foldl removeAttribute_open dom navs.

(** The body of the loop of [#onKeydown]. *)
Definition close_and_refocus (dom : NavDom) (i : nat) : NavDom :=
  let hasFocus := has_focus (focus dom) i in
  let dom1 := removeAttribute_open dom i in
  if hasFocus then
    match details dom1 !! i with
    | Some dt =>
        if has_summary dt
        then {| details := details dom1; focus := focus_summary i |}
        else dom1
    | None => dom1
    end
  else dom1.

(** [#onKeydown(event)] *)
Definition onKeydown (event : DomEvent) (dom : NavDom) : NavDom :=
  match event with
  | OtherEvent _ => dom
  | KeyboardEvent _ key =>
      if bool_decide (key ≠ "Escape") then dom
      else foldl close_and_refocus dom (querySelectorAll (λ _ dt, open dt) dom)
  end.

(** [handleEvent(event)] *)
Definition handleEvent (event : DomEvent) (dom : NavDom) : NavDom :=
  if bool_decide (event_type event = "click") then onClick dom
  else onKeydown event dom.

(** Where the focus is after the Escape key: on the summary of the open
    [details] element that held it, when there is one. *)
Definition focus_after_escape (dom : NavDom) : Focus :=
  match focus dom with
  | focus_summary i | focus_inside i =>
      match details dom !! i with
      | Some dt => if open dt && has_summary dt then focus_summary i
                   else focus dom
      | None => focus dom
      end
  | f => f
  end.

(** A sub-navigation with three [details] elements, the first and the
    second open, and the focus on a link inside the second. *)
Definition nav_sample : NavDom :=
  {| details := [mkDetails true true; mkDetails true true;
                 mkDetails false true];
     focus := focus_inside 1 |}.


(** ** Attributes of the [kelp-toc] element *)




(** A life of a table of contents: connected while the document has no
    heading, then, after headings have appeared, connected twice. *)
Definition toc_with_document (t : Toc) (d : Document) : Toc :=
  {| toc_attrs := toc_attrs t; innerHTML := innerHTML t;
     settings := settings t; toc_index := toc_index t;
     toc_document := d; toc_events := toc_events t |}.

Definition toc_sample_life : Toc :=
  default (toc_of ∅ doc_empty)
    (t1 ← toc_init 1 (toc_of ∅ doc_empty);
     t2 ← toc_init (enough_fuel doc_23432) (toc_with_document t1 doc_23432);
     toc_init 1 t2).

(** A table of contents after a successful [init]. *)
Definition toc_sample_ready : Toc :=
  default (toc_of ∅ doc_23432)
    (toc_init (enough_fuel doc_23432) (toc_of ∅ doc_23432)).


(** ** Running the builder again *)

(** [fixes d d']: the headings of [d'] have the tags of those of [d], and
    every heading of [d] that is settled is the same in [d']. *)
Definition fixes (d d' : Document) : Prop :=
  Forall2 (λ e e', tagName e' = tagName e ∧ (settled e = true → e' = e))
    (headings d) (headings d').


(** * Properties *)

(** ** Sample evaluations *)

Example text_to_id_sample :
  text_to_id "  Hello,  World! -- x_y  " = "-Hello-World-x_y-".
Proof. reflexivity. Qed.

Example candidate_samples :
  candidate "Intro" 0 = "kelp_Intro" ∧ candidate "Intro" 12 = "kelp_Intro_12".
Proof. split; reflexivity. Qed.

Example setTextAsID_probes_past_collision :
  headings <$> setTextAsID 3 doc_23432 0 =
  Some [{| tagName := "H2"; id := "kelp_Intro_1"; textContent := "Intro" |};
        h_elem "H3" "Setup"; h_elem "H4" "Details"; h_elem "H3" "Usage";
        h_elem "H2" "Notes"].
Proof. reflexivity. Qed.

Example builder_on_ranks_2_4_3 :
  fst <$> createList cfg_nested (enough_fuel doc_243) true (mkSt doc_243 0) =
  Some (MkMarkup None "ul" None
          [Li "kelp_One" "One"
             (Some (MkMarkup None "ul" None [Li "kelp_Two" "Two" None]));
           Li "kelp_Three" "Three" None]).
Proof. vm_compute. reflexivity. Qed.

Example subnav_reconnect :
  subnav_init (disconnectedCallback
                 (subnav_init {| sub_attrs := ∅; has_details := true;
                                 listening := ∅; sub_events := [] |})) =
  {| sub_attrs := {["is-ready" := EmptyString]}; has_details := true;
     listening := {["click"; "keydown"]};
     sub_events := [emit_event "subnav" "ready"] |}.
Proof. vm_compute. reflexivity. Qed.

(** ** The ID assigner *)

Lemma truthy_false (s : string) : truthy s = false ↔ s = EmptyString.
Proof. destruct s; simpl; split; congruence. Qed.

Lemma candidate_inj (base : string) : Inj (=) (=) (candidate base).
Proof.
  intros j k. unfold candidate. intros H.
  do 2 apply (inj (String.app _)) in H.
  destruct j, k; try done.
  apply (inj (String.app _)) in H. by apply (inj pretty) in H.
Qed.

Lemma candidate_truthy (base : string) (k : nat) :
  truthy (candidate base k) = true.
Proof. reflexivity. Qed.

Lemma probe_more_fuel (fuel fuel' : nat) (d : Document) (base : string)
    (k r : nat) :
  probe fuel d base k = Some r → fuel ≤ fuel' → probe fuel' d base k = Some r.
Proof.
  revert fuel' k. induction fuel as [|fuel IH]; intros fuel' k; [done|].
  destruct fuel' as [|fuel']; [lia|]. simpl.
  destruct (querySelector_id d (candidate base k)); [|done].
  intros H ?. apply IH; [done|lia].
Qed.

Lemma probe_free (fuel : nat) (d : Document) (base : string) (k r : nat) :
  probe fuel d base k = Some r →
  k ≤ r ∧ (candidate base r ∉ all_ids d) ∧
  ∀ j, k ≤ j < r → candidate base j ∈ all_ids d.
Proof.
  revert k. induction fuel as [|fuel IH]; intros k; [done|]. simpl.
  unfold querySelector_id. case_bool_decide as Hin.
  - intros H. destruct (IH _ H) as (? & ? & Hlt).
    split; [lia|]. split; [done|]. intros j ?.
    destruct (decide (j = k)) as [->|]; [done|]. apply Hlt. lia.
  - intros [= <-]. split; [lia|]. split; [done|]. intros; lia.
Qed.

Lemma probe_none (fuel : nat) (d : Document) (base : string) (k : nat) :
  probe fuel d base k = None →
  ∀ j, k ≤ j < k + fuel → candidate base j ∈ all_ids d.
Proof.
  revert k. induction fuel as [|fuel IH]; intros k; [intros; lia|]. simpl.
  unfold querySelector_id. case_bool_decide as Hin; [|done].
  intros H j ?. destruct (decide (j = k)) as [->|]; [done|].
  apply (IH _ H). lia.
Qed.

(** The probing loop ends: a document holds finitely many identifiers. *)
Lemma probe_total (fuel : nat) (d : Document) (base : string) :
  length (all_ids d) < fuel → is_Some (probe fuel d base 0).
Proof.
  intros Hlen. destruct (probe fuel d base 0) eqn:Hp; [by eexists|].
  exfalso.
  pose proof (candidate_inj base).
  assert ((candidate base <$> seq 0 fuel) ⊆+ all_ids d) as Hsub.
  { apply NoDup_submseteq.
    - apply (NoDup_fmap_2 _), NoDup_seq.
    - intros x (j & -> & Hj%elem_of_seq)%list_elem_of_fmap.
      apply (probe_none _ _ _ _ Hp). lia. }
  apply submseteq_length in Hsub.
  rewrite length_fmap, length_seq in Hsub. lia.
Qed.

Lemma setTextAsID_more_fuel (fuel fuel' : nat) (d d' : Document) (i : nat) :
  setTextAsID fuel d i = Some d' → fuel ≤ fuel' →
  setTextAsID fuel' d i = Some d'.
Proof.
  unfold setTextAsID. intros H ?.
  destruct (headings d !! i) as [e|]; [|done].
  destruct (truthy (id e)); [done|].
  destruct (negb _); [done|].
  destruct (probe fuel d _ 0) as [r|] eqn:Hp; [|done].
  by rewrite (probe_more_fuel _ fuel' _ _ _ _ Hp).
Qed.

Lemma setTextAsID_total (fuel : nat) (d : Document) (i : nat) :
  length (all_ids d) < fuel → is_Some (setTextAsID fuel d i).
Proof.
  intros Hlen. unfold setTextAsID.
  destruct (headings d !! i) as [e|]; [|by eexists].
  destruct (truthy (id e)); [by eexists|].
  destruct (negb _); [by eexists|].
  destruct (probe_total fuel d (text_to_id (textContent e)) Hlen) as [r ->].
  by eexists.
Qed.

(** What [setTextAsID] does to the document: either nothing, or it gives
    the element that had no identifier a fresh one. *)
Lemma setTextAsID_cases (fuel : nat) (d d' : Document) (i : nat) :
  setTextAsID fuel d i = Some d' →
  d' = d ∨
  ∃ e k, headings d !! i = Some e ∧ id e = EmptyString ∧
         text_to_id (textContent e) ≠ EmptyString ∧
         (candidate (text_to_id (textContent e)) k ∉ all_ids d) ∧
         d' = set_headings d
                (<[i := set_id e (candidate (text_to_id (textContent e)) k)]>
                   (headings d)).
Proof.
  unfold setTextAsID. intros H.
  destruct (headings d !! i) as [e|] eqn:He; [|left; congruence].
  destruct (truthy (id e)) eqn:Hid; [left; congruence|].
  destruct (truthy (text_to_id (textContent e))) eqn:Ht; simpl in H;
    [|left; congruence].
  destruct (probe fuel d _ 0) as [k|] eqn:Hp; [|done].
  right. exists e, k. apply truthy_false in Hid.
  destruct (probe_free _ _ _ _ _ Hp) as (_ & ? & _).
  repeat split; try done; [|congruence].
  intros Hn. by rewrite Hn in Ht.
Qed.

(** ** The loop function and the loop relation agree *)

Lemma for_loop_runs (cfg : Config) (fuel : nat) (isFirst : bool)
    (items : list Item) (s : St) (items' : list Item) (s' : St) :
  for_loop cfg fuel isFirst items s = Some (items', s') →
  runs cfg isFirst items s items' s'.
Proof.
  revert isFirst items s items' s'.
  induction fuel as [|fuel IH]; intros isFirst items s items' s'; [done|].
  simpl. destruct (index s <? length (headings (doc s))) eqn:Hlt.
  2:{ intros [= <- <-]. apply runs_exit. by apply Nat.ltb_nlt. }
  apply Nat.ltb_lt in Hlt.
  destruct (setTextAsID fuel (doc s) (index s)) as [d1|] eqn:Hset; [|done].
  destruct (headings d1 !! index s) as [h|] eqn:Hh; [|done].
  fold (opens_child cfg (headings d1) (index s) (level_of h)).
  destruct (opens_child cfg (headings d1) (index s) (level_of h)) eqn:Hopen.
  - destruct (for_loop cfg fuel false [] _) as [[l s2]|] eqn:Hchild; [|done].
    apply IH in Hchild. simpl in Hchild.
    fold (stops_here isFirst (headings (doc s2)) (index s2) (level_of h)).
    destruct (stops_here isFirst (headings (doc s2)) (index s2) (level_of h))
      eqn:Hstop.
    + intros [= <- <-]. by eapply runs_child_break.
    + intros Hrest%IH. by eapply runs_child_next.
  - simpl.
    fold (stops_here isFirst (headings d1) (index s) (level_of h)).
    destruct (stops_here isFirst (headings d1) (index s) (level_of h))
      eqn:Hstop.
    + intros [= <- <-]. by eapply runs_leaf_break.
    + intros Hrest%IH. by eapply runs_leaf_next.
Qed.

(** ** Frame properties of the ID assigner *)

Lemma keeps_refl (e : Element) : keeps e e.
Proof. by repeat split. Qed.

Lemma keeps_trans (e1 e2 e3 : Element) : keeps e1 e2 → keeps e2 e3 → keeps e1 e3.
Proof.
  intros (? & ? & H12) (? & ? & H23). repeat split; try congruence.
  intros Hne. rewrite <- (H12 Hne). apply H23. by rewrite (H12 Hne).
Qed.

Lemma evolves_refl (d : Document) : evolves d d.
Proof. split; [done|]. apply Forall2_same_length_lookup. split; [done|].
  intros i x y ? ?. assert (x = y) as -> by congruence. apply keeps_refl. Qed.

Lemma evolves_trans (d1 d2 d3 : Document) :
  evolves d1 d2 → evolves d2 d3 → evolves d1 d3.
Proof.
  intros [? H12] [? H23]. split; [congruence|].
  apply Forall2_same_length_lookup. split.
  - apply Forall2_length in H12, H23. congruence.
  - intros i x z Hx Hz.
    destruct (Forall2_lookup_l _ _ _ _ _ H12 Hx) as (y & Hy & ?).
    destruct (Forall2_lookup_l _ _ _ _ _ H23 Hy) as (z' & Hz' & ?).
    assert (z' = z) as -> by congruence. by eapply keeps_trans.
Qed.

Lemma evolves_length (d d' : Document) :
  evolves d d' → length (headings d') = length (headings d).
Proof. intros [_ H%Forall2_length]. done. Qed.

Lemma evolves_ids_length (d d' : Document) :
  evolves d d' → length (all_ids d') = length (all_ids d).
Proof.
  intros [Ho H%Forall2_length]. unfold all_ids.
  rewrite !length_map, !length_app. congruence.
Qed.

Lemma evolves_lookup (d d' : Document) (i : nat) (e : Element) :
  evolves d d' → headings d !! i = Some e →
  ∃ e', headings d' !! i = Some e' ∧ keeps e e'.
Proof. intros [_ H] He. by eapply Forall2_lookup_l. Qed.

Lemma setTextAsID_evolves (fuel : nat) (d d' : Document) (i : nat) :
  setTextAsID fuel d i = Some d' → evolves d d'.
Proof.
  intros [->|(e & k & He & Hid & _ & _ & ->)]%setTextAsID_cases;
    [apply evolves_refl|].
  split; [done|]. simpl.
  apply Forall2_same_length_lookup. split; [by rewrite length_insert|].
  intros j x y Hx Hy. destruct (decide (i = j)) as [<-|Hne].
  - rewrite list_lookup_insert_eq in Hy by (by eapply lookup_lt_Some).
    assert (x = e) as -> by congruence. injection Hy as <-.
    by repeat split.
  - rewrite list_lookup_insert_ne in Hy by done.
    assert (x = y) as -> by congruence. apply keeps_refl.
Qed.

Lemma setTextAsID_elsewhere (fuel : nat) (d d' : Document) (i j : nat) :
  setTextAsID fuel d i = Some d' → i ≠ j →
  headings d' !! j = headings d !! j.
Proof.
  intros [->|(e & k & _ & _ & _ & _ & ->)]%setTextAsID_cases ?; [done|].
  simpl. by rewrite list_lookup_insert_ne.
Qed.

Lemma setTextAsID_settles (fuel : nat) (d d' : Document) (i : nat) (h : Element) :
  setTextAsID fuel d i = Some d' → headings d' !! i = Some h →
  settled h = true.
Proof.
  unfold setTextAsID, settled. intros H Hh.
  destruct (headings d !! i) as [e|] eqn:He.
  2:{ injection H as <-. congruence. }
  destruct (truthy (id e)) eqn:Hid.
  { injection H as <-. assert (h = e) as -> by congruence. by rewrite Hid. }
  destruct (truthy (text_to_id (textContent e))) eqn:Ht; simpl in H.
  2:{ injection H as <-. assert (h = e) as -> by congruence.
      by rewrite Ht, orb_true_r. }
  destruct (probe fuel d _ 0) as [k|]; [|done]. injection H as <-.
  simpl in Hh.
  rewrite list_lookup_insert_eq in Hh by (by eapply lookup_lt_Some).
  by injection Hh as <-.
Qed.

Lemma setTextAsID_settled (fuel : nat) (d : Document) (i : nat) (e : Element) :
  headings d !! i = Some e → settled e = true →
  setTextAsID fuel d i = Some d.
Proof.
  unfold setTextAsID, settled. intros -> H.
  destruct (truthy (id e)); [done|]. simpl in H. by rewrite H.
Qed.

Lemma keeps_settled (e e' : Element) :
  keeps e e' → settled e = true → settled e' = true.
Proof.
  unfold settled. intros (_ & Ht & Hid) H. rewrite Ht.
  destruct (truthy (id e)) eqn:He; [|simpl in H; by rewrite H, orb_true_r].
  rewrite Hid, He; [done|]. intros Hn. by rewrite Hn in He.
Qed.

(** ** List segments *)

Lemma take_agree {A} (n : nat) (l l' : list A) :
  length l = length l' → (∀ j, j < n → l !! j = l' !! j) →
  take n l = take n l'.
Proof.
  intros Hlen H. apply list_eq. intros j.
  destruct (decide (j < n)).
  - rewrite !lookup_take_lt by done. by apply H.
  - rewrite !lookup_take_ge by lia. done.
Qed.

Lemma take_take_agree {A} (n m : nat) (l l' : list A) :
  n ≤ m → take m l = take m l' → take n l = take n l'.
Proof.
  intros ? H.
  replace n with (n `min` m) by lia. rewrite <- !take_take. by rewrite H.
Qed.

Lemma segment_split {A} (a b c : nat) (l : list A) :
  a ≤ b ≤ c →
  drop a (take c l) = drop a (take b l) ++ drop b (take c l).
Proof.
  intros ?. replace (take b l) with (take b (take c l)).
  - symmetry. apply drop_take_drop. lia.
  - rewrite take_take. f_equal. lia.
Qed.

Lemma segment_one {A} (i : nat) (l : list A) (x : A) :
  l !! i = Some x → drop i (take (S i) l) = [x].
Proof.
  intros H. rewrite (take_S_r _ _ _ H).
  rewrite drop_app_length'; [done|].
  rewrite length_take. apply lookup_lt_Some in H. lia.
Qed.

Lemma segment_empty {A} (a b : nat) (l : list A) :
  length l ≤ a → drop a (take b l) = [].
Proof. intros ?. apply drop_ge. rewrite length_take. lia. Qed.

(** ** What a run of the loop leaves behind *)

Lemma setTextAsID_before (fuel : nat) (d d' : Document) (i : nat) :
  setTextAsID fuel d i = Some d' →
  take i (headings d') = take i (headings d).
Proof.
  intros H. apply take_agree.
  - by apply setTextAsID_evolves, evolves_length in H.
  - intros j ?. eapply setTextAsID_elsewhere; [done|lia].
Qed.

(** The cursor never moves back, the document only gains identifiers, and
    the headings before the cursor are not touched. *)
Lemma runs_frame (cfg : Config) (isFirst : bool) (items : list Item) (s : St)
    (items' : list Item) (s' : St) :
  runs cfg isFirst items s items' s' →
  index s ≤ index s' ∧ evolves (doc s) (doc s') ∧
  take (index s) (headings (doc s')) = take (index s) (headings (doc s)).
Proof.
  induction 1 as
    [ isFirst items s Hge
    | isFirst items s fuel d1 h Hlt Hset Hh Hopen Hstop
    | isFirst items s fuel d1 h items' s' Hlt Hset Hh Hopen Hstop Hrest IH
    | isFirst items s fuel d1 h l s2 Hlt Hset Hh Hopen Hchild IHc Hstop
    | isFirst items s fuel d1 h l s2 items' s' Hlt Hset Hh Hopen Hchild IHc
        Hstop Hrest IH ]; simpl in *.
  - split; [done|]. split; [apply evolves_refl|done].
  - split; [done|]. split; [by eapply setTextAsID_evolves|].
    by eapply setTextAsID_before.
  - destruct IH as (? & ? & Htake). split; [lia|]. split.
    + eapply evolves_trans; [by eapply setTextAsID_evolves|done].
    + rewrite <- (setTextAsID_before _ _ _ _ Hset).
      eapply take_take_agree; [|done]. lia.
  - destruct IHc as (? & ? & Htake). split; [lia|]. split.
    + eapply evolves_trans; [by eapply setTextAsID_evolves|done].
    + rewrite <- (setTextAsID_before _ _ _ _ Hset).
      eapply take_take_agree; [|done]. lia.
  - destruct IHc as (? & ? & Htake). destruct IH as (? & ? & Htake').
    split; [lia|]. split.
    + eapply evolves_trans; [by eapply setTextAsID_evolves|].
      by eapply evolves_trans.
    + rewrite <- (setTextAsID_before _ _ _ _ Hset).
      transitivity (take (index s) (headings (doc s2))).
      * eapply take_take_agree; [|done]. lia.
      * eapply take_take_agree; [|done]. lia.
Qed.

(** At the top level the loop never breaks: it returns once the cursor has
    passed the last heading. *)
Lemma runs_first_exhausts (cfg : Config) (items : list Item) (s : St)
    (items' : list Item) (s' : St) :
  runs cfg true items s items' s' →
  length (headings (doc s')) ≤ index s'.
Proof.
  remember true as isFirst eqn:HF.
  induction 1 as
    [ isFirst items s Hge
    | isFirst items s fuel d1 h Hlt Hset Hh Hopen Hstop
    | isFirst items s fuel d1 h items' s' Hlt Hset Hh Hopen Hstop Hrest IH
    | isFirst items s fuel d1 h l s2 Hlt Hset Hh Hopen Hchild IHc Hstop
    | isFirst items s fuel d1 h l s2 items' s' Hlt Hset Hh Hopen Hchild IHc
        Hstop Hrest IH ]; subst isFirst; simpl in *; try done; try by auto.
  lia.
Qed.

(** The entries appended by a run are those of the headings from the
    cursor's first position to its last, in order, each once. *)
Lemma runs_entries (cfg : Config) (isFirst : bool) (items : list Item) (s : St)
    (items' : list Item) (s' : St) :
  runs cfg isFirst items s items' s' →
  ∃ new, items' = items ++ new ∧
    flat_map item_entries new =
    entry_of <$> drop (index s) (take (S (index s')) (headings (doc s'))).
Proof.
  induction 1 as
    [ isFirst items s Hge
    | isFirst items s fuel d1 h Hlt Hset Hh Hopen Hstop
    | isFirst items s fuel d1 h items' s' Hlt Hset Hh Hopen Hstop Hrest IH
    | isFirst items s fuel d1 h l s2 Hlt Hset Hh Hopen Hchild IHc Hstop
    | isFirst items s fuel d1 h l s2 items' s' Hlt Hset Hh Hopen Hchild IHc
        Hstop Hrest IH ]; simpl in *.
  - exists []. rewrite app_nil_r. split; [done|].
    rewrite segment_empty by lia. done.
  - eexists. split; [done|]. simpl. by rewrite (segment_one _ _ _ Hh).
  - destruct IH as (new & -> & Hnew).
    apply runs_frame in Hrest as (Hle & _ & Htake). simpl in *.
    eexists. split; [by rewrite <- app_assoc|]. simpl. rewrite Hnew.
    rewrite (segment_split (index s) (index s + 1) (S (index s'))) by lia.
    rewrite Htake. replace (index s + 1) with (S (index s)) by lia.
    by rewrite (segment_one _ _ _ Hh).
  - destruct IHc as (new & Hl & Hnew). simpl in Hl. subst l.
    apply runs_frame in Hchild as (Hle & _ & Htake). simpl in *.
    eexists. split; [done|]. simpl. rewrite app_nil_r, Hnew.
    rewrite (segment_split (index s) (index s + 1) (S (index s2))) by lia.
    rewrite Htake. replace (index s + 1) with (S (index s)) by lia.
    by rewrite (segment_one _ _ _ Hh).
  - destruct IHc as (new & Hl & Hnew). simpl in Hl. subst l.
    destruct IH as (new' & -> & Hnew').
    apply runs_frame in Hchild as (Hle & _ & Htake).
    apply runs_frame in Hrest as (Hle' & _ & Htake'). simpl in *.
    eexists. split; [by rewrite <- app_assoc|]. simpl.
    rewrite Hnew, Hnew'.
    rewrite (segment_split (index s) (index s + 1) (S (index s'))) by lia.
    rewrite (segment_split (index s + 1) (index s2 + 1) (S (index s'))) by lia.
    rewrite !fmap_app, Htake'.
    assert (take (index s + 1) (headings (doc s')) =
            take (index s + 1) (headings d1)) as ->.
    { rewrite <- Htake. eapply take_take_agree; [|done]. lia. }
    replace (index s + 1) with (S (index s)) by lia.
    replace (index s2 + 1) with (S (index s2)) by lia.
    by rewrite (segment_one _ _ _ Hh).
Qed.

(** ** Termination *)

Lemma for_loop_more_fuel (cfg : Config) (fuel fuel' : nat) (isFirst : bool)
    (items : list Item) (s : St) (r : list Item * St) :
  for_loop cfg fuel isFirst items s = Some r → fuel ≤ fuel' →
  for_loop cfg fuel' isFirst items s = Some r.
Proof.
  revert fuel' isFirst items s r.
  induction fuel as [|fuel IH]; intros fuel' isFirst items s r; [done|].
  destruct fuel' as [|fuel']; [lia|]. intros H Hle.
  assert (fuel ≤ fuel') as Hle' by lia. simpl in *.
  destruct (index s <? length (headings (doc s))); [|done].
  destruct (setTextAsID fuel (doc s) (index s)) as [d1|] eqn:Hset; [|done].
  rewrite (setTextAsID_more_fuel _ _ _ _ _ Hset Hle').
  destruct (headings d1 !! index s) as [h|]; [|done].
  destruct (nested cfg && _).
  - destruct (for_loop cfg fuel false [] _) as [[l s2]|] eqn:Hchild; [|done].
    rewrite (IH _ _ _ _ _ Hchild Hle').
    destruct (negb isFirst && _); [done|]. by apply IH.
  - destruct (negb isFirst && _); [done|]. by apply IH.
Qed.

Lemma for_loop_total (cfg : Config) (fuel : nat) (isFirst : bool)
    (items : list Item) (s : St) :
  length (headings (doc s)) - index s + length (all_ids (doc s)) + 2 ≤ fuel →
  is_Some (for_loop cfg fuel isFirst items s).
Proof.
  revert isFirst items s.
  induction fuel as [|fuel IH]; intros isFirst items s Hfuel; [lia|].
  simpl. destruct (index s <? length (headings (doc s))) eqn:Hlt;
    [|by eexists].
  apply Nat.ltb_lt in Hlt.
  destruct (setTextAsID_total fuel (doc s) (index s)) as [d1 Hset]; [lia|].
  rewrite Hset.
  pose proof (setTextAsID_evolves _ _ _ _ Hset) as Hev.
  pose proof (evolves_length _ _ Hev) as Hlen.
  pose proof (evolves_ids_length _ _ Hev) as Hids.
  destruct (lookup_lt_is_Some_2 (headings d1) (index s)) as [h ->]; [lia|].
  destruct (nested cfg && _).
  - destruct (IH false [] (set_index (mkSt d1 (index s)) (index s + 1)))
      as [[l s2] Hchild]; [simpl; lia|].
    rewrite Hchild.
    apply for_loop_runs, runs_frame in Hchild as (Hle & Hev2 & _).
    simpl in *.
    pose proof (evolves_length _ _ Hev2). pose proof (evolves_ids_length _ _ Hev2).
    destruct (negb isFirst && _); [by eexists|].
    apply IH. simpl. lia.
  - destruct (negb isFirst && _); [by eexists|].
    apply IH. simpl. lia.
Qed.

Lemma createList_total (cfg : Config) (isFirst : bool) (s : St) (k : nat) :
  is_Some (createList cfg (enough_fuel (doc s) + k) isFirst s).
Proof.
  unfold createList.
  destruct (for_loop_total cfg (enough_fuel (doc s) + k) isFirst []
              (set_index s (if isFirst then 0 else index s + 1)))
    as [[l s'] ->]; [|by eexists].
  unfold enough_fuel. simpl. lia.
Qed.

(** ** The outline of a rank sequence *)

Lemma outline_depth_skip (r : nat) (mid rest : list nat) :
  Forall (λ x, r ≤ x) mid →
  outline_depth r (mid ++ rest) = outline_depth r rest.
Proof.
  induction 1 as [|x mid Hx _ IH]; [done|]. simpl.
  destruct (x <? r) eqn:Hlt; [|done]. apply Nat.ltb_lt in Hlt. lia.
Qed.

Lemma take_S_rank (R : list nat) (j : nat) :
  j < length R → take (S j) R = take j R ++ [rank_at R j].
Proof.
  intros Hj. destruct (lookup_lt_is_Some_2 R j Hj) as [x Hx].
  unfold rank_at. rewrite Hx. by apply take_S_r.
Qed.

Lemma depth_at_deeper (R : list nat) (j : nat) :
  S j < length R → rank_at R j < rank_at R (S j) →
  depth_at R (S j) = S (depth_at R j).
Proof.
  intros Hj Hlt. unfold depth_at.
  rewrite take_S_rank, reverse_app by lia. simpl.
  by apply Nat.ltb_lt in Hlt as ->.
Qed.

Lemma depth_at_top (R : list nat) (b : nat) :
  (∀ j, j < b → rank_at R b ≤ rank_at R j) → depth_at R b = 1.
Proof.
  intros H. unfold depth_at.
  rewrite <- (app_nil_r (reverse _)), outline_depth_skip; [done|].
  apply Forall_reverse, Forall_forall. intros x [j Hj]%list_elem_of_lookup.
  apply lookup_take_Some in Hj as [Hx Hj]. specialize (H j Hj).
  unfold rank_at in H at 2. by rewrite Hx in H.
Qed.

Lemma depth_at_sibling (R : list nat) (a b : nat) :
  a < b → b < length R → rank_at R b = rank_at R a →
  (∀ j, a < j < b → rank_at R a ≤ rank_at R j) →
  depth_at R b = depth_at R a.
Proof.
  intros Hab Hb Heq Hmid. unfold depth_at.
  rewrite <- (take_drop (S a) (take b R)).
  rewrite take_take, (Nat.min_l (S a) b) by lia.
  rewrite take_S_rank by lia.
  rewrite !reverse_app. simpl.
  rewrite outline_depth_skip.
  - rewrite Heq. simpl. by rewrite Nat.ltb_irrefl.
  - apply Forall_reverse, Forall_forall. intros x [j Hj]%list_elem_of_lookup.
    rewrite lookup_drop in Hj. apply lookup_take_Some in Hj as [Hx Hj].
    specialize (Hmid (S a + j)). unfold rank_at in Hmid at 2.
    rewrite Hx in Hmid. simpl in Hmid. rewrite Heq. apply Hmid. lia.
Qed.

Lemma outline_depths_seq (R : list nat) :
  outline_depths R = depth_at R <$> seq 0 (length R).
Proof.
  apply list_eq. intros j. unfold outline_depths.
  rewrite list_lookup_imap, list_lookup_fmap.
  destruct (R !! j) as [x|] eqn:Hx; simpl.
  - rewrite lookup_seq_lt by (by eapply lookup_lt_Some). simpl.
    unfold depth_at, rank_at. by rewrite Hx.
  - rewrite lookup_seq_ge; [done|]. by apply lookup_ge_None.
Qed.

Lemma no_skipped_level_step (R : list nat) (j : nat) :
  no_skipped_level R = true → S j < length R →
  rank_at R (S j) ≤ S (rank_at R j).
Proof.
  revert j. induction R as [|r [|r' tl] IH]; intros j H Hj; simpl in *;
    try lia.
  apply andb_prop in H as [Hr Htl]. apply Nat.leb_le in Hr.
  destruct j as [|j]; [done|]. apply (IH j Htl). lia.
Qed.

Lemma nearest_not_deeper_skip (r : nat) (mid rest : list nat) :
  Forall (λ x, r < x) mid →
  nearest_not_deeper r (mid ++ rest) = nearest_not_deeper r rest.
Proof.
  induction 1 as [|x mid Hx _ IH]; [done|]. simpl.
  destruct (x <=? r) eqn:Hle; [|done]. apply Nat.leb_le in Hle. lia.
Qed.

Lemma returns_to_open_level_step (R : list nat) (j r : nat) :
  returns_to_open_level R = true → S j < length R →
  rank_at R (S j) < rank_at R j →
  nearest_not_deeper (rank_at R (S j)) (reverse (take (S j) R)) = Some r →
  r = rank_at R (S j).
Proof.
  unfold returns_to_open_level. rewrite forallb_forall.
  intros Hall Hj Hdrop Hnear. specialize (Hall j).
  apply Nat.ltb_lt in Hdrop. rewrite Hdrop, Hnear in Hall.
  apply Nat.eqb_eq, Hall, list_elem_of_In, elem_of_seq. lia.
Qed.

(** A heading [b] that follows a run of strictly deeper headings after [a]
    and is not shallower than [a] has the rank of [a]. *)
Lemma returns_to_open_level_sibling (R : list nat) (a b : nat) :
  returns_to_open_level R = true →
  S a < b → b < length R →
  (∀ j, a < j < b → rank_at R b < rank_at R j) →
  rank_at R a ≤ rank_at R b →
  rank_at R b = rank_at R a.
Proof.
  intros Hopen Hab Hb Hmid Hle. destruct b as [|j]; [lia|].
  symmetry. apply (returns_to_open_level_step R j); [done|done|apply Hmid; lia|].
  rewrite <- (take_drop (S a) (take (S j) R)).
  rewrite take_take, (Nat.min_l (S a) (S j)) by lia.
  rewrite take_S_rank by lia.
  rewrite !reverse_app. simpl.
  rewrite nearest_not_deeper_skip.
  - simpl. by apply Nat.leb_le in Hle as ->.
  - apply Forall_reverse, Forall_forall. intros x [i Hi]%list_elem_of_lookup.
    rewrite lookup_drop in Hi. apply lookup_take_Some in Hi as [Hx Hi].
    specialize (Hmid (S a + i)). unfold rank_at in Hmid at 2.
    rewrite Hx in Hmid. simpl in Hmid. apply Hmid. lia.
Qed.

Lemma nearest_not_deeper_Some (r r' : nat) (l : list nat) :
  nearest_not_deeper r l = Some r' →
  ∃ i, l !! i = Some r' ∧ r' ≤ r ∧ ∀ i' x, i' < i → l !! i' = Some x → r < x.
Proof.
  induction l as [|y l IH]; [done|]. simpl.
  destruct (y <=? r) eqn:Hy.
  - intros [= <-]. exists 0. apply Nat.leb_le in Hy.
    split; [done|]. split; [done|]. intros; lia.
  - intros (i & Hi & Hle & Hlt)%IH. exists (S i). apply Nat.leb_gt in Hy.
    split; [done|]. split; [done|]. intros [|i'] x ? Hx.
    + by injection Hx as <-.
    + eapply Hlt; [|done]. lia.
Qed.

(** Ranks that never rise by more than one level always return to an open
    level. *)
Lemma no_skipped_level_returns (R : list nat) :
  no_skipped_level R = true → returns_to_open_level R = true.
Proof.
  intros Hskip. unfold returns_to_open_level. apply forallb_forall.
  intros j [_ Hj]%list_elem_of_In%elem_of_seq.
  destruct (rank_at R (S j) <? rank_at R j) eqn:Hdrop; [|done].
  apply Nat.ltb_lt in Hdrop.
  destruct (nearest_not_deeper _ _) as [r|] eqn:Hnear; [|done].
  apply Nat.eqb_eq.
  apply nearest_not_deeper_Some in Hnear as (i & Hi & Hle & Hlt).
  assert (length (take (S j) R) = S j) as Hlen by (rewrite length_take; lia).
  assert (i < S j) as Hi'.
  { apply lookup_lt_Some in Hi. by rewrite length_reverse, Hlen in Hi. }
  rewrite reverse_lookup, Hlen, lookup_take_lt in Hi by lia.
  destruct i as [|i].
  { replace (S j - 1) with j in Hi by lia. unfold rank_at in Hdrop at 2.
    rewrite Hi in Hdrop. simpl in Hdrop. lia. }
  assert (rank_at R (S j) < rank_at R (S (j - S i))) as Hdeeper.
  { destruct (lookup_lt_is_Some_2 R (S (j - S i))) as [x Hx]; [lia|].
    unfold rank_at at 2. rewrite Hx. simpl. apply (Hlt i); [lia|].
    rewrite reverse_lookup, Hlen, lookup_take_lt by lia.
    rewrite <- Hx. f_equal. lia. }
  pose proof (no_skipped_level_step R (j - S i) Hskip ltac:(lia)) as Hstep.
  replace (S j - S (S i)) with (j - S i) in Hi by lia.
  unfold rank_at in Hstep at 2. rewrite Hi in Hstep. simpl in Hstep. lia.
Qed.

(** ** Heading elements: string comparison of levels is comparison of ranks *)

Lemma is_heading_tag (e : Element) :
  is_heading e = true →
  tagName e ∈ ["H1"; "H2"; "H3"; "H4"; "H5"; "H6"].
Proof. unfold is_heading. by intros ?%bool_decide_eq_true. Qed.

Ltac heading_cases H :=
  apply is_heading_tag in H;
  repeat (apply elem_of_cons in H as [H|H]);
  [..|by apply elem_of_nil in H].

Lemma heading_level_truthy (e : Element) :
  is_heading e = true → truthy (level_of e) = true.
Proof.
  intros H. unfold level_of. heading_cases H; by rewrite H.
Qed.

Lemma heading_level_lt (e1 e2 : Element) :
  is_heading e1 = true → is_heading e2 = true →
  js_lt (level_of e1) (level_of e2) = (rank_of e1 <? rank_of e2).
Proof.
  intros H1 H2. unfold rank_of, level_of.
  heading_cases H1; heading_cases H2; rewrite H1, H2; reflexivity.
Qed.

Lemma keeps_is_heading (e e' : Element) :
  keeps e e' → is_heading e = true → is_heading e' = true.
Proof. intros (Ht & _) H. unfold is_heading in *. by rewrite Ht. Qed.

Lemma keeps_rank (e e' : Element) : keeps e e' → rank_of e' = rank_of e.
Proof. intros (Ht & _). unfold rank_of, level_of. by rewrite Ht. Qed.

Lemma evolves_ranks (d d' : Document) : evolves d d' → ranks d' = ranks d.
Proof.
  intros [_ H]. unfold ranks.
  induction H as [|e e' l l' Hk _ IH]; [done|].
  rewrite !fmap_cons, IH. f_equal. by apply keeps_rank.
Qed.

Lemma evolves_is_heading (d d' : Document) :
  evolves d d' →
  Forall (λ e, is_heading e = true) (headings d) →
  Forall (λ e, is_heading e = true) (headings d').
Proof.
  intros [_ H]. induction H as [|e e' l l' Hk _ IH]; [done|].
  intros [? ?]%Forall_cons. constructor; [by eapply keeps_is_heading|auto].
Qed.

Lemma rank_at_lookup (hs : list Element) (i : nat) (h : Element) :
  hs !! i = Some h → rank_at (rank_of <$> hs) i = rank_of h.
Proof. intros H. unfold rank_at. by rewrite list_lookup_fmap, H. Qed.

Lemma js_gt_rank (hs : list Element) (i : nat) (h : Element) :
  Forall (λ e, is_heading e = true) hs → is_heading h = true →
  js_gt (next_level hs (S i) (level_of h)) (level_of h) =
  bool_decide (S i < length hs ∧ rank_of h < rank_at (rank_of <$> hs) (S i)).
Proof.
  intros Hall Hh. unfold next_level.
  change (js_gt ?a ?b) with (js_lt b a).
  destruct (hs !! S i) as [e|] eqn:He.
  - assert (is_heading e = true) as Hhe.
    { eapply Forall_forall in Hall; [done|]. by eapply list_elem_of_lookup_2. }
    rewrite (heading_level_truthy e Hhe), (heading_level_lt _ _ Hh Hhe).
    rewrite (rank_at_lookup _ _ _ He). apply lookup_lt_Some in He.
    destruct (rank_of h <? rank_of e) eqn:Hlt.
    + apply Nat.ltb_lt in Hlt. by rewrite bool_decide_eq_true_2.
    + apply Nat.ltb_nlt in Hlt. rewrite bool_decide_eq_false_2; [done|lia].
  - apply lookup_ge_None in He.
    rewrite (heading_level_lt _ _ Hh Hh), Nat.ltb_irrefl.
    rewrite bool_decide_eq_false_2; [done|lia].
Qed.

Lemma js_lt_rank (hs : list Element) (i : nat) (h : Element) :
  Forall (λ e, is_heading e = true) hs → is_heading h = true →
  js_lt (next_level hs (S i) (level_of h)) (level_of h) =
  bool_decide (S i < length hs ∧ rank_at (rank_of <$> hs) (S i) < rank_of h).
Proof.
  intros Hall Hh. unfold next_level.
  destruct (hs !! S i) as [e|] eqn:He.
  - assert (is_heading e = true) as Hhe.
    { eapply Forall_forall in Hall; [done|]. by eapply list_elem_of_lookup_2. }
    rewrite (heading_level_truthy e Hhe), (heading_level_lt _ _ Hhe Hh).
    rewrite (rank_at_lookup _ _ _ He). apply lookup_lt_Some in He.
    destruct (rank_of e <? rank_of h) eqn:Hlt.
    + apply Nat.ltb_lt in Hlt. by rewrite bool_decide_eq_true_2.
    + apply Nat.ltb_nlt in Hlt. rewrite bool_decide_eq_false_2; [done|lia].
  - apply lookup_ge_None in He.
    rewrite (heading_level_lt _ _ Hh Hh), Nat.ltb_irrefl.
    rewrite bool_decide_eq_false_2; [done|lia].
Qed.

(** ** Nesting depths produced by a run *)

Lemma runs_past_end (cfg : Config) (isFirst : bool) (items : list Item) (s : St)
    (items' : list Item) (s' : St) :
  ¬ index s < length (headings (doc s)) →
  runs cfg isFirst items s items' s' → items' = items ∧ s' = s.
Proof. intros Hge H. by inversion H. Qed.

Lemma seq_fmap_split {A} (f : nat → A) (a b c : nat) :
  a ≤ b ≤ c →
  f <$> seq a (c - a) = (f <$> seq a (b - a)) ++ (f <$> seq b (c - b)).
Proof.
  intros ?. replace (c - a) with ((b - a) + (c - b)) by lia.
  rewrite seq_app, fmap_app. do 3 f_equal. lia.
Qed.

Lemma seq_fmap_cons {A} (f : nat → A) (a c : nat) :
  a < c → f <$> seq a (c - a) = f a :: (f <$> seq (S a) (c - S a)).
Proof.
  intros ?. replace (c - a) with (S (c - S a)) by lia. done.
Qed.

Lemma wrap_list_nested_depths (cfg : Config) (d : nat) (l : list Item) :
  markup_depths d (wrap_list cfg false l) = flat_map (item_depths d) l.
Proof. done. Qed.

Lemma runs_ranks (cfg : Config) (isFirst : bool) (items : list Item) (s : St)
    (items' : list Item) (s' : St) :
  runs cfg isFirst items s items' s' →
  Forall (λ e, is_heading e = true) (headings (doc s)) →
  ranks (doc s') = ranks (doc s) ∧
  Forall (λ e, is_heading e = true) (headings (doc s')).
Proof.
  intros (_ & Hev & _)%runs_frame ?. split.
  - by apply evolves_ranks.
  - by eapply evolves_is_heading.
Qed.

Ltac heading_facts Hset Hh Hall HR :=
  let Hev := fresh "Hev" in
  pose proof (setTextAsID_evolves _ _ _ _ Hset) as Hev;
  let HR1 := fresh "HR1" in
  pose proof (evolves_ranks _ _ Hev) as HR1; rewrite HR in HR1;
  let Hall1 := fresh "Hall1" in
  pose proof (evolves_is_heading _ _ Hev Hall) as Hall1;
  let Hhh := fresh "Hhh" in
  assert (is_heading _ = true) as Hhh
    by (eapply Forall_forall in Hall1; [done|]; by eapply list_elem_of_lookup_2);
  let Hrk := fresh "Hrk" in
  pose proof (rank_at_lookup _ _ _ Hh) as Hrk;
  match type of Hrk with context [rank_of <$> headings ?d] =>
    fold (ranks d) in Hrk end;
  rewrite HR1 in Hrk;
  let Hlen1 := fresh "Hlen1" in
  pose proof (f_equal length HR1) as Hlen1;
  unfold ranks in Hlen1; rewrite length_fmap in Hlen1.

Ltac rank_view H HR1 :=
  unfold opens_child, stops_here in H;
  rewrite ?Nat.add_1_r in H;
  rewrite ?js_lt_rank, ?js_gt_rank in H by done;
  match type of H with context [rank_of <$> headings ?d] =>
    fold (ranks d) in H end;
  rewrite ?HR1 in H.

Lemma runs_depths (cfg : Config) (R : list nat) (isFirst : bool)
    (items : list Item) (s : St) (items' : list Item) (s' : St) :
  nested cfg = true → returns_to_open_level R = true →
  runs cfg isFirst items s items' s' →
  ranks (doc s) = R →
  Forall (λ e, is_heading e = true) (headings (doc s)) →
  index s < length R →
  ∀ d,
    (if isFirst
     then d = 1 ∧ ∀ j, j < index s → rank_at R (index s) ≤ rank_at R j
     else depth_at R (index s) = d) →
    ∃ new, items' = items ++ new ∧
      flat_map (item_depths d) new =
      depth_at R <$> seq (index s) (S (index s') `min` length R - index s) ∧
      (isFirst = false →
       (∀ j, index s ≤ j < S (index s') `min` length R →
             rank_at R (index s) ≤ rank_at R j) ∧
       (S (index s') < length R →
        rank_at R (S (index s')) < rank_at R (index s))).
Proof.
  intros Hnested Hopens.
  induction 1 as
    [ isFirst items s Hge
    | isFirst items s fuel d1 h Hlt Hset Hh Hopen Hstop
    | isFirst items s fuel d1 h items' s' Hlt Hset Hh Hopen Hstop Hrest IH
    | isFirst items s fuel d1 h l s2 Hlt Hset Hh Hopen Hchild IHc Hstop
    | isFirst items s fuel d1 h l s2 items' s' Hlt Hset Hh Hopen Hchild IHc
        Hstop Hrest IH ]; intros HR Hall Hidx d Hpre.
  - exfalso. apply Hge. rewrite <- HR in Hidx. unfold ranks in Hidx.
    by rewrite length_fmap in Hidx.
  - (* no nested list, break *)
    heading_facts Hset Hh Hall HR.
    rank_view Hstop HR1. apply andb_prop in Hstop as [HF Hstop].
    destruct isFirst; [done|]. clear HF.
    apply bool_decide_eq_true in Hstop as [? ?].
    subst d. cbn [index doc]. eexists. split; [done|].
    replace (S (index s) `min` length R - index s) with 1 by lia.
    split; [done|]. intros _. split.
    + intros j ?. assert (j = index s) as -> by lia. done.
    + intros _. lia.
  - (* no nested list, next iteration *)
    heading_facts Hset Hh Hall HR.
    rank_view Hopen HR1. rewrite Hnested in Hopen. simpl in Hopen.
    apply bool_decide_eq_false in Hopen.
    rank_view Hstop HR1.
    assert (depth_at R (index s) = d) as Hd.
    { destruct isFirst; [|done]. destruct Hpre as [-> ?]. by apply depth_at_top. }
    destruct (decide (index s + 1 < length R)) as [Hnext|Hlast].
    + destruct (IH HR1 Hall1 Hnext d) as (new & -> & Hnew & Hpost).
      { cbn [index doc]. replace (index s + 1) with (S (index s)) by lia.
        destruct isFirst.
        - destruct Hpre as [-> Hmin]. split; [done|]. intros j Hj.
          destruct (decide (j = index s)) as [->|]; [lia|].
          etrans; [|apply Hmin; lia]. lia.
        - simpl in Hstop. apply bool_decide_eq_false in Hstop.
          rewrite <- Hd. apply depth_at_sibling; try lia. }
      apply runs_frame in Hrest as (Hle & _ & _). cbn [index doc] in *.
      eexists. split; [by rewrite <- app_assoc|]. split.
      * cbn [flat_map item_depths app]. rewrite Hnew, <- Hd.
        rewrite (seq_fmap_cons _ (index s)) by lia.
        by replace (index s + 1) with (S (index s)) by lia.
      * intros ->. destruct (Hpost eq_refl) as [Hrange Hbreak].
        simpl in Hstop. apply bool_decide_eq_false in Hstop.
        replace (index s + 1) with (S (index s)) in * by lia.
        assert (rank_at R (S (index s)) = rank_at R (index s)) as Heq by lia.
        rewrite Heq in *. split; [|done].
        intros j ?. destruct (decide (j = index s)) as [->|]; [done|].
        apply Hrange. lia.
    + apply runs_past_end in Hrest as [-> ->].
      2:{ cbn [index doc]. lia. }
      cbn [index doc]. eexists. split; [done|].
      replace (S (index s + 1) `min` length R - index s) with 1 by lia.
      split; [by rewrite <- Hd|]. intros _. split.
      * intros j ?. assert (j = index s) as -> by lia. done.
      * intros ?. lia.
  - (* nested list, break *)
    heading_facts Hset Hh Hall HR.
    rank_view Hopen HR1. rewrite Hnested in Hopen. simpl in Hopen.
    apply bool_decide_eq_true in Hopen as [Hnext Hdeeper].
    assert (depth_at R (index s) = d) as Hd.
    { destruct isFirst; [|done]. destruct Hpre as [-> ?]. by apply depth_at_top. }
    destruct (IHc HR1 Hall1 ltac:(cbn [index doc]; lia) (S d))
      as (newc & Hl & Hnewc & Hpostc).
    { cbn [index doc]. rewrite Nat.add_1_r, <- Hd. apply depth_at_deeper; lia. }
    simpl in Hl. subst l. destruct (Hpostc eq_refl) as [Hrangec Hbreakc].
    destruct (runs_ranks _ _ _ _ _ _ Hchild Hall1) as [HR2 Hall2].
    cbn [index doc] in *. rewrite HR1 in HR2.
    apply runs_frame in Hchild as (Hle & _ & _). cbn [index doc] in *.
    rank_view Hstop HR2. apply andb_prop in Hstop as [HF Hstop].
    destruct isFirst; [done|]. clear HF.
    apply bool_decide_eq_true in Hstop as [? ?].
    eexists. split; [done|]. split.
    + cbn [flat_map item_depths app].
      rewrite wrap_list_nested_depths, Hnewc, app_nil_r, <- Hd.
      rewrite (seq_fmap_cons _ (index s)) by lia.
      by rewrite Nat.add_1_r.
    + intros _. rewrite Nat.add_1_r in *. split; [|lia].
      intros j ?. destruct (decide (j = index s)) as [->|]; [done|].
      etrans; [|apply Hrangec; lia]. lia.
  - (* nested list, next iteration *)
    heading_facts Hset Hh Hall HR.
    rank_view Hopen HR1. rewrite Hnested in Hopen. simpl in Hopen.
    apply bool_decide_eq_true in Hopen as [Hnext Hdeeper].
    assert (depth_at R (index s) = d) as Hd.
    { destruct isFirst; [|done]. destruct Hpre as [-> ?]. by apply depth_at_top. }
    destruct (IHc HR1 Hall1 ltac:(cbn [index doc]; lia) (S d))
      as (newc & Hl & Hnewc & Hpostc).
    { cbn [index doc]. rewrite Nat.add_1_r, <- Hd. apply depth_at_deeper; lia. }
    simpl in Hl. subst l. destruct (Hpostc eq_refl) as [Hrangec Hbreakc].
    destruct (runs_ranks _ _ _ _ _ _ Hchild Hall1) as [HR2 Hall2].
    cbn [index doc] in *. rewrite HR1 in HR2.
    pose proof (f_equal length HR2) as Hlen2.
    unfold ranks in Hlen2. rewrite length_fmap in Hlen2.
    apply runs_frame in Hchild as (Hle & _ & _). cbn [index doc] in *.
    rank_view Hstop HR2. rewrite Nat.add_1_r in *.
    destruct (decide (S (index s2) < length R)) as [Hmore|Hend].
    + assert (rank_at R (S (index s2)) ≤ rank_at R (index s)) as Hback.
      { specialize (Hbreakc Hmore).
        destruct (decide (rank_at R (index s) ≤ rank_at R (S (index s2))));
          [|lia].
        rewrite (returns_to_open_level_sibling R (index s) (S (index s2)));
          try done; try lia.
        intros j ?. eapply Nat.lt_le_trans; [done|]. apply Hrangec. lia. }
      destruct (IH HR2 Hall2 ltac:(simpl; lia) d)
        as (new & -> & Hnew & Hpost).
      { cbn [index doc set_index]. destruct isFirst.
        - destruct Hpre as [-> Hmin]. split; [done|]. intros j Hj.
          destruct (decide (j < index s)); [etrans; [|by apply Hmin]; lia|].
          destruct (decide (j = index s)) as [->|]; [done|].
          etrans; [|apply Hrangec; lia]. lia.
        - simpl in Hstop. apply bool_decide_eq_false in Hstop.
          rewrite <- Hd. apply depth_at_sibling; try lia.
          intros j ?. etrans; [|apply Hrangec; lia]. lia. }
      apply runs_frame in Hrest as (Hle' & _ & _).
      cbn [index doc set_index] in *.
      eexists. split; [by rewrite <- app_assoc|]. split.
      * cbn [flat_map item_depths app].
        rewrite wrap_list_nested_depths, Hnewc, Hnew, <- Hd.
        rewrite (seq_fmap_cons _ (index s)) by lia. f_equal.
        replace (S (index s2) `min` length R) with (S (index s2)) by lia.
        by rewrite (seq_fmap_split _ (S (index s)) (S (index s2))
                      (S (index s') `min` length R)) by lia.
      * intros ->. destruct (Hpost eq_refl) as [Hrange Hbreak].
        simpl in Hstop. apply bool_decide_eq_false in Hstop.
        assert (rank_at R (S (index s2)) = rank_at R (index s)) as Heq by lia.
        rewrite Heq in *. split; [|done].
        intros j ?. destruct (decide (j = index s)) as [->|]; [done|].
        destruct (decide (j < S (index s2))).
        -- etrans; [|apply Hrangec; lia]. lia.
        -- apply Hrange. lia.
    + apply runs_past_end in Hrest as [-> ->].
      2:{ cbn [index doc set_index]. lia. }
      cbn [index doc set_index]. eexists. split; [done|]. split.
      * cbn [flat_map item_depths app].
        rewrite wrap_list_nested_depths, Hnewc, app_nil_r, <- Hd.
        rewrite (seq_fmap_cons _ (index s)) by lia.
        do 3 f_equal. lia.
      * intros _. split; [|lia].
        intros j ?. destruct (decide (j = index s)) as [->|]; [done|].
        etrans; [|apply Hrangec; lia]. lia.
Qed.

(** ** Flat mode, captions, settled headings *)

Lemma runs_flat (cfg : Config) (isFirst : bool) (items : list Item) (s : St)
    (items' : list Item) (s' : St) :
  nested cfg = false →
  runs cfg isFirst items s items' s' →
  Forall (λ it, has_sublist it = false) items →
  Forall (λ it, has_sublist it = false) items'.
Proof.
  intros Hflat.
  induction 1 as
    [ isFirst items s Hge
    | isFirst items s fuel d1 h Hlt Hset Hh Hopen Hstop
    | isFirst items s fuel d1 h items' s' Hlt Hset Hh Hopen Hstop Hrest IH
    | isFirst items s fuel d1 h l s2 Hlt Hset Hh Hopen Hchild IHc Hstop
    | isFirst items s fuel d1 h l s2 items' s' Hlt Hset Hh Hopen Hchild IHc
        Hstop Hrest IH ]; intros Hitems;
    try (unfold opens_child in Hopen; by rewrite Hflat in Hopen).
  - done.
  - apply Forall_app. split; [done|]. by repeat constructor.
  - apply IH, Forall_app. split; [done|]. by repeat constructor.
Qed.

Lemma flat_items_nesting (items : list Item) :
  Forall (λ it, has_sublist it = false) items →
  foldr (λ it acc, item_nesting it `max` acc) 0 items = 0.
Proof.
  induction 1 as [|it items Hit _ IH]; [done|]. simpl. rewrite IH.
  by destruct it as [? ? [?|]|].
Qed.

(** An item that is a generated entry whose nested lists hold no caption. *)
Lemma runs_captions (cfg : Config) (isFirst : bool) (items : list Item) (s : St)
    (items' : list Item) (s' : St) :
  runs cfg isFirst items s items' s' →
  ∃ new, items' = items ++ new ∧
    Forall (λ it, is_caption it = false ∧ item_nested_captions it = 0) new.
Proof.
  assert (∀ l, Forall (λ it, is_caption it = false ∧
                             item_nested_captions it = 0) l →
               markup_captions_here (wrap_list cfg false l) +
               markup_nested_captions (wrap_list cfg false l) = 0) as Hwrap.
  { intros l Hl. simpl. induction Hl as [|it l [Hc Hn] _ IH]; [done|].
    simpl. rewrite Hc, Hn. exact IH. }
  induction 1 as
    [ isFirst items s Hge
    | isFirst items s fuel d1 h Hlt Hset Hh Hopen Hstop
    | isFirst items s fuel d1 h items' s' Hlt Hset Hh Hopen Hstop Hrest IH
    | isFirst items s fuel d1 h l s2 Hlt Hset Hh Hopen Hchild IHc Hstop
    | isFirst items s fuel d1 h l s2 items' s' Hlt Hset Hh Hopen Hchild IHc
        Hstop Hrest IH ].
  - exists []. by rewrite app_nil_r.
  - eexists. split; [done|]. by repeat constructor.
  - destruct IH as (new & -> & Hnew). eexists.
    split; [by rewrite <- app_assoc|]. constructor; [done|]. exact Hnew.
  - destruct IHc as (newc & Hl & Hnewc). simpl in Hl. subst l.
    eexists. split; [done|]. constructor; [|done].
    split; [done|]. by apply Hwrap.
  - destruct IHc as (newc & Hl & Hnewc). simpl in Hl. subst l.
    destruct IH as (new & -> & Hnew). eexists.
    split; [by rewrite <- app_assoc|]. constructor; [|exact Hnew].
    split; [done|]. by apply Hwrap.
Qed.

Lemma evolves_settled (d d' : Document) (j : nat) (h h' : Element) :
  evolves d d' → headings d !! j = Some h → settled h = true →
  headings d' !! j = Some h' → settled h' = true.
Proof.
  intros Hev Hh Hs Hh'.
  destruct (evolves_lookup _ _ _ _ Hev Hh) as (e & He & Hk).
  assert (e = h') as -> by congruence. by eapply keeps_settled.
Qed.

(** Every heading a run has passed is settled. *)
Lemma runs_settles (cfg : Config) (isFirst : bool) (items : list Item) (s : St)
    (items' : list Item) (s' : St) :
  runs cfg isFirst items s items' s' →
  ∀ j h, index s ≤ j < S (index s') →
    headings (doc s') !! j = Some h → settled h = true.
Proof.
  induction 1 as
    [ isFirst items s Hge
    | isFirst items s fuel d1 h Hlt Hset Hh Hopen Hstop
    | isFirst items s fuel d1 h items' s' Hlt Hset Hh Hopen Hstop Hrest IH
    | isFirst items s fuel d1 h l s2 Hlt Hset Hh Hopen Hchild IHc Hstop
    | isFirst items s fuel d1 h l s2 items' s' Hlt Hset Hh Hopen Hchild IHc
        Hstop Hrest IH ]; intros j hj Hj Hlook; cbn [index doc set_index] in *.
  - apply lookup_lt_Some in Hlook. lia.
  - assert (j = index s) as -> by lia. by eapply setTextAsID_settles.
  - destruct (decide (j = index s)) as [->|].
    + apply runs_frame in Hrest as (_ & Hev & _).
      eapply (evolves_settled d1); [done..|by eapply setTextAsID_settles|done].
    + eapply IH; [|done]. lia.
  - destruct (decide (j = index s)) as [->|].
    + apply runs_frame in Hchild as (_ & Hev & _).
      eapply (evolves_settled d1); [done..|by eapply setTextAsID_settles|done].
    + eapply IHc; [|done]. lia.
  - pose proof (runs_frame _ _ _ _ _ _ Hchild) as (_ & Hev & _).
    pose proof (runs_frame _ _ _ _ _ _ Hrest) as (_ & Hev' & _).
    cbn [index doc set_index] in *.
    destruct (decide (j = index s)) as [->|].
    { eapply (evolves_settled d1);
        [by eapply evolves_trans|done|by eapply setTextAsID_settles|done]. }
    destruct (decide (j < S (index s2))).
    + destruct (lookup_lt_is_Some_2 (headings (doc s2)) j) as [h2 Hh2].
      { apply lookup_lt_Some in Hlook.
        rewrite <- (evolves_length _ _ Hev'). done. }
      eapply (evolves_settled (doc s2)); [done..| |done].
      eapply IHc; [|done]. lia.
    + eapply IH; [|done]. lia.
Qed.

(** On a document whose headings are all settled a run changes nothing. *)
Lemma runs_settled_noop (cfg : Config) (isFirst : bool) (items : list Item)
    (s : St) (items' : list Item) (s' : St) :
  runs cfg isFirst items s items' s' →
  Forall (λ e, settled e = true) (headings (doc s)) →
  doc s' = doc s.
Proof.
  assert (∀ fuel d i d1, Forall (λ e, settled e = true) (headings d) →
            i < length (headings d) →
            setTextAsID fuel d i = Some d1 → d1 = d) as Hnoop.
  { intros fuel d i d1 Hall Hi Hset.
    destruct (lookup_lt_is_Some_2 _ _ Hi) as [e He].
    rewrite (setTextAsID_settled fuel d i e) in Hset; [congruence|done|].
    eapply Forall_forall in Hall; [done|]. by eapply list_elem_of_lookup_2. }
  induction 1 as
    [ isFirst items s Hge
    | isFirst items s fuel d1 h Hlt Hset Hh Hopen Hstop
    | isFirst items s fuel d1 h items' s' Hlt Hset Hh Hopen Hstop Hrest IH
    | isFirst items s fuel d1 h l s2 Hlt Hset Hh Hopen Hchild IHc Hstop
    | isFirst items s fuel d1 h l s2 items' s' Hlt Hset Hh Hopen Hchild IHc
        Hstop Hrest IH ]; intros Hall;
    try (apply (Hnoop _ _ _ _ Hall Hlt) in Hset; subst d1);
    cbn [index doc set_index] in *.
  - done.
  - done.
  - by apply IH.
  - by apply IHc.
  - rewrite IH; [by apply IHc|]. by rewrite IHc.
Qed.

(** ** The string builder returns the serialised tree *)

Lemma str_app_assoc (a b c : string) : (a +:+ b) +:+ c = a +:+ (b +:+ c).
Proof.
  induction a as [|x a IH]; [done|].
  change (String x ((a +:+ b) +:+ c) = String x (a +:+ (b +:+ c))).
  by rewrite IH.
Qed.

Lemma str_app_nil_r (a : string) : a +:+ EmptyString = a.
Proof.
  induction a as [|x a IH]; [done|].
  change (String x (a +:+ EmptyString) = String x a). by rewrite IH.
Qed.

Lemma items_html_snoc (items : list Item) (it : Item) :
  items_html (items ++ [it]) = items_html items +:+ item_html it.
Proof.
  unfold items_html. induction items as [|x items IH]; cbn [app foldr].
  - by rewrite str_app_nil_r.
  - by rewrite IH, str_app_assoc.
Qed.

Lemma to_html_wrap (cfg : Config) (isFirst : bool) (items : list Item) :
  Forall (λ it, is_caption it = false) items →
  to_html (wrap_list cfg isFirst items) = wrap_html cfg isFirst (items_html items).
Proof.
  intros Hitems. unfold wrap_list, wrap_html, items_html.
  cbn [to_html]. unfold caption_html.
  assert (match items with
          | CaptionLi c :: tl =>
              ("<li><strong>" +:+ c +:+ "</strong></li>") +:+ nl_tabs 4 +:+
              foldr (λ it acc, item_html it +:+ acc) EmptyString tl
          | _ => nl_tabs 4 +:+
                 foldr (λ it acc, item_html it +:+ acc) EmptyString items
          end = nl_tabs 4 +:+
                foldr (λ it acc, item_html it +:+ acc) EmptyString items)
    as Hplain by (destruct Hitems as [|[| ] ? ? ?]; done).
  destruct (isFirst && truthy_opt (heading cfg)); cbn [andb];
    [destruct (bool_decide (headingType cfg = "li")); cbn [negb app]|cbn [app]];
    rewrite ?Hplain;
    (destruct (truthy_opt (listClass cfg)) eqn:Hclass;
     [destruct (listClass cfg); [|by cbn in Hclass]|]);
    by rewrite ?str_app_assoc.
Qed.

Lemma for_loop_html_tree (cfg : Config) (fuel : nat) (isFirst : bool)
    (items : list Item) (s : St) :
  for_loop_html cfg fuel isFirst (items_html items) s =
  (λ r, (items_html r.1, r.2)) <$> for_loop cfg fuel isFirst items s.
Proof.
  revert isFirst items s.
  induction fuel as [|fuel IH]; intros isFirst items s; [done|].
  cbn [for_loop for_loop_html].
  destruct (index s <? length (headings (doc s))); [|done].
  destruct (setTextAsID fuel (doc s) (index s)) as [d1|]; [|done].
  destruct (headings d1 !! index s) as [h|]; [|done].
  destruct (nested cfg && _).
  - change EmptyString with (items_html []). rewrite IH.
    destruct (for_loop cfg fuel false [] _) as [[l s2]|] eqn:Hchild; [|done].
    cbn [fmap option_fmap option_map fst snd].
    apply for_loop_runs, runs_captions in Hchild as (new & Hl & Hnew).
    cbn [app] in Hl. subst new.
    assert (Forall (λ it, is_caption it = false) l) as Hl
      by (eapply Forall_impl; [done|]; by intros ? [? _]).
    rewrite <- (to_html_wrap cfg false l Hl).
    match goal with
    | |- context [items_html items +:+ ?x] =>
        change x with
          (item_html (Li (id h) (textContent h) (Some (wrap_list cfg false l))))
    end.
    rewrite <- items_html_snoc.
    destruct (negb isFirst && _); [done|]. by rewrite IH.
  - cbn [fst snd].
    match goal with
    | |- context [items_html items +:+ ?x] =>
        change x with (item_html (Li (id h) (textContent h) None))
    end.
    rewrite <- items_html_snoc.
    destruct (negb isFirst && _); [done|]. by rewrite IH.
Qed.

(** [#createList], as written on strings, returns the serialisation of the
    tree returned by [createList], in the same final state. *)
Lemma createList_html_tree (cfg : Config) (fuel : nat) (isFirst : bool)
    (s : St) :
  createList_html cfg fuel isFirst s =
  (λ r, (to_html r.1, r.2)) <$> createList cfg fuel isFirst s.
Proof.
  unfold createList_html, createList.
  change EmptyString with (items_html []). rewrite for_loop_html_tree.
  destruct (for_loop cfg fuel isFirst [] _) as [[l s']|] eqn:Hloop; [|done].
  cbn [fmap option_fmap option_map fst snd].
  apply for_loop_runs, runs_captions in Hloop as (new & Hl & Hnew).
  cbn [app] in Hl. subst new.
  rewrite to_html_wrap; [done|].
  eapply Forall_impl; [done|]. by intros ? [? _].
Qed.

(** * The properties of the specification *)

Lemma createList_runs (cfg : Config) (fuel : nat) (isFirst : bool) (s : St)
    (m : Markup) (s' : St) :
  createList cfg fuel isFirst s = Some (m, s') →
  ∃ items, m = wrap_list cfg isFirst items ∧
    runs cfg isFirst []
      (set_index s (if isFirst then 0 else index s + 1)) items s'.
Proof.
  unfold createList.
  destruct (for_loop cfg fuel isFirst [] _) as [[items s1]|] eqn:Hloop; [|done].
  intros [= <- <-]. exists items. split; [done|]. by eapply for_loop_runs.
Qed.

Lemma wrap_list_entries (cfg : Config) (isFirst : bool) (items : list Item) :
  markup_entries (wrap_list cfg isFirst items) = flat_map item_entries items.
Proof.
  unfold wrap_list. cbn [markup_entries].
  by destruct (isFirst && truthy_opt (heading cfg) && _).
Qed.

Lemma wrap_list_depths (cfg : Config) (isFirst : bool) (d : nat)
    (items : list Item) :
  markup_depths d (wrap_list cfg isFirst items) = flat_map (item_depths d) items.
Proof.
  unfold wrap_list. cbn [markup_depths].
  by destruct (isFirst && truthy_opt (heading cfg) && _).
Qed.

(** The top-level call lists every heading of the final document, in
    order. *)
Lemma createList_first_entries (cfg : Config) (fuel : nat) (s : St)
    (m : Markup) (s' : St) :
  createList cfg fuel true s = Some (m, s') →
  markup_entries m = entry_of <$> headings (doc s') ∧
  evolves (doc s) (doc s').
Proof.
  intros (items & -> & Hruns)%createList_runs.
  pose proof (runs_first_exhausts _ _ _ _ _ Hruns) as Hend.
  destruct (runs_entries _ _ _ _ _ _ Hruns) as (new & Hnew & Hent).
  apply runs_frame in Hruns as (_ & Hev & _).
  cbn [index doc set_index app] in *. subst new.
  split; [|done]. rewrite wrap_list_entries, Hent.
  by rewrite drop_0, take_ge by lia.
Qed.

(** C1: for every non-empty sequence of matching headings, in nested and
    in flat mode alike (any settings), the builder returns a structure
    whose generated entries, read in document order, are exactly the
    headings of the sequence, position by position: entry [j] links to the
    identifier of heading [j] and shows its text, so no heading is
    duplicated and none is omitted; the headings themselves keep their tag
    and text.  [render] stores the serialised structure as the component's
    content. *)
Theorem C1_every_heading_exactly_once (cfg : Config) (t : Toc) (k : nat) :
  headings (toc_document t) ≠ [] →
  ∃ m s' t',
    createList cfg (enough_fuel (toc_document t) + k) true
      (mkSt (toc_document t) (toc_index t)) = Some (m, s') ∧
    render (enough_fuel (toc_document t) + k) cfg t = Some (true, t') ∧
    innerHTML t' = to_html m ∧ toc_document t' = doc s' ∧
    markup_entries m = entry_of <$> headings (doc s') ∧
    length (markup_entries m) = length (headings (toc_document t)) ∧
    Forall2 keeps (headings (toc_document t)) (headings (doc s')).
Proof.
  intros Hne.
  destruct (createList_total cfg true (mkSt (toc_document t) (toc_index t)) k)
    as [[m s'] Hcl]. simpl in Hcl.
  destruct (createList_first_entries _ _ _ _ _ Hcl) as [Hent Hev].
  exists m, s'. eexists. split; [done|]. unfold render.
  rewrite createList_html_tree, Hcl. cbn [fmap option_fmap option_map fst snd].
  destruct (headings (toc_document t)) eqn:Hhs; [done|]. rewrite <- Hhs.
  split; [done|]. simpl. do 3 (split; [done|]). split.
  - rewrite Hent, length_fmap. by apply evolves_length in Hev.
  - by destruct Hev.
Qed.

Lemma C1_witness :
  headings (toc_document (toc_of ∅ doc_23432)) ≠ [] ∧
  ∃ m s' t',
    createList cfg_nested (enough_fuel doc_23432 + 0) true
      (mkSt doc_23432 0) = Some (m, s') ∧
    render (enough_fuel doc_23432 + 0) cfg_nested (toc_of ∅ doc_23432)
      = Some (true, t') ∧
    innerHTML t' = to_html m ∧ toc_document t' = doc s' ∧
    markup_entries m = entry_of <$> headings (doc s') ∧
    length (markup_entries m) = length (headings doc_23432) ∧
    Forall2 keeps (headings doc_23432) (headings (doc s')).
Proof.
  split; [simpl; discriminate|].
  apply (C1_every_heading_exactly_once cfg_nested (toc_of ∅ doc_23432) 0).
  simpl. discriminate.
Defined.

(** C3: with nesting disabled, for every heading sequence and whatever the
    ranks, the builder returns a single list of nesting depth exactly 1:
    the test that guards the recursive call is false at every position, so
    no recursive call is made, and no item holds a child list. *)
Theorem C3_flat_mode_depth_one (cfg : Config) (d : Document) (i k : nat) :
  nested cfg = false →
  ∃ m s',
    createList cfg (enough_fuel d + k) true (mkSt d i) = Some (m, s') ∧
    nesting_depth m = 1 ∧
    Forall (λ it, has_sublist it = false) (items_of m) ∧
    markup_depths 1 m = replicate (length (headings d)) 1 ∧
    ∀ hs j currentLevel, opens_child cfg hs j currentLevel = false.
Proof.
  intros Hflat.
  destruct (createList_total cfg true (mkSt d i) k) as [[m s'] Hcl].
  simpl in Hcl. exists m, s'. split; [done|].
  destruct (createList_first_entries _ _ _ _ _ Hcl) as [Hent Hev].
  apply createList_runs in Hcl as (items & -> & Hruns).
  apply (runs_flat _ _ _ _ _ _ Hflat) in Hruns; [|done].
  assert (Forall (λ it, has_sublist it = false)
            (items_of (wrap_list cfg true items))) as Hall.
  { unfold wrap_list. cbn [items_of]. apply Forall_app. split; [|done].
    destruct (_ && _); by repeat constructor. }
  split; [|split; [done|split]].
  - unfold wrap_list in *. cbn [items_of nesting_depth] in *.
    by rewrite flat_items_nesting.
  - apply (f_equal length) in Hent.
    rewrite length_fmap, wrap_list_entries, (evolves_length _ _ Hev) in Hent.
    simpl in Hent. rewrite <- Hent, wrap_list_depths. clear -Hruns.
    induction Hruns as [|it items Hit _ IH]; [done|].
    destruct it as [? ? [?|]|]; try done; simpl in *; by rewrite IH.
  - intros hs j lvl. unfold opens_child. by rewrite Hflat.
Qed.

Lemma C3_witness :
  nested cfg_flat = false ∧
  ∃ m s',
    createList cfg_flat (enough_fuel doc_23432 + 0) true (mkSt doc_23432 0)
      = Some (m, s') ∧
    nesting_depth m = 1 ∧
    Forall (λ it, has_sublist it = false) (items_of m) ∧
    markup_depths 1 m = replicate (length (headings doc_23432)) 1 ∧
    ∀ hs j currentLevel, opens_child cfg_flat hs j currentLevel = false.
Proof.
  split; [reflexivity|].
  apply (C3_flat_mode_depth_one cfg_flat doc_23432 0 0). reflexivity.
Defined.

(** C10: the builder terminates on every finite heading sequence.  With
    the fuel of [enough_fuel], or any greater amount, the call returns a
    result, and that result does not depend on the extra fuel; the loop
    never moves the cursor back, and a recursive call returns with the
    cursor strictly after the position it was entered at. *)
Theorem C10_builder_terminates (cfg : Config) (isFirst : bool) (s : St)
    (k : nat) :
  ∃ m s',
    createList cfg (enough_fuel (doc s)) isFirst s = Some (m, s') ∧
    createList cfg (enough_fuel (doc s) + k) isFirst s = Some (m, s') ∧
    (if isFirst then 0 else index s + 1) ≤ index s' ∧
    (∀ fuel isFirst' items s1 items' s1',
        for_loop cfg fuel isFirst' items s1 = Some (items', s1') →
        index s1 ≤ index s1').
Proof.
  destruct (createList_total cfg isFirst s 0) as [[m s'] Hcl].
  rewrite Nat.add_0_r in Hcl. exists m, s'. split; [done|].
  assert (createList cfg (enough_fuel (doc s) + k) isFirst s = Some (m, s'))
    as Hk.
  { unfold createList in *.
    destruct (for_loop cfg (enough_fuel (doc s)) isFirst [] _)
      as [[l s1]|] eqn:Hloop; [|done].
    by rewrite (for_loop_more_fuel _ _ (enough_fuel (doc s) + k) _ _ _ _ Hloop)
      by lia. }
  split; [done|]. split.
  - apply createList_runs in Hcl as (items & _ & Hruns).
    apply runs_frame in Hruns as (Hle & _). by destruct isFirst.
  - intros fuel isFirst' items s1 items' s1' Hloop.
    by apply for_loop_runs, runs_frame in Hloop as (? & _).
Qed.

Lemma js_lt_irrefl (a : string) : js_lt a a = false.
Proof.
  unfold js_lt, String.ltb.
  pose proof (String.compare_antisym a a) as H.
  by destruct (String.compare a a).
Qed.

Lemma next_level_past_end (hs : list Element) (i : nat) (currentLevel : string) :
  length hs ≤ i → next_level hs i currentLevel = currentLevel.
Proof. intros H. unfold next_level. by rewrite lookup_ge_None_2. Qed.

(** C5: the last heading of the sequence closes every open nesting level.
    Its "next rank" is its own rank; so the loop, in either mode and in
    any frame, appends its item without a child list and returns with the
    cursor on the length of the sequence.  And a frame that is resumed
    with the cursor at or past the end of the sequence (an ancestor, after
    its recursive call returned) does not break, advances the cursor,
    fails the loop test and returns the items it had: it consumes nothing
    more. *)
Theorem C5_last_heading_closes (cfg : Config) (isFirst : bool)
    (items : list Item) (s : St) (k : nat) :
  index s + 1 = length (headings (doc s)) →
  ∃ d1 h,
    setTextAsID (enough_fuel (doc s) + k) (doc s) (index s) = Some d1 ∧
    headings d1 !! index s = Some h ∧
    next_level (headings d1) (index s + 1) (level_of h) = level_of h ∧
    opens_child cfg (headings d1) (index s) (level_of h) = false ∧
    for_loop cfg (enough_fuel (doc s) + k) isFirst items s =
      Some (items ++ [Li (id h) (textContent h) None],
            mkSt d1 (length (headings d1))) ∧
    ∀ fuel ancestorFirst ancestorItems ancestorLevel s2,
      length (headings (doc s2)) ≤ index s2 →
      stops_here ancestorFirst (headings (doc s2)) (index s2) ancestorLevel
        = false ∧
      for_loop cfg (S fuel) ancestorFirst ancestorItems
        (set_index s2 (index s2 + 1)) =
        Some (ancestorItems, set_index s2 (index s2 + 1)).
Proof.
  intros Hlast.
  destruct (setTextAsID_total (enough_fuel (doc s) + k) (doc s) (index s))
    as [d1 Hset]; [unfold enough_fuel; lia|].
  pose proof (evolves_length _ _ (setTextAsID_evolves _ _ _ _ Hset)) as Hlen.
  destruct (lookup_lt_is_Some_2 (headings d1) (index s)) as [h Hh]; [lia|].
  assert (next_level (headings d1) (index s + 1) (level_of h) = level_of h)
    as Hnext by (apply next_level_past_end; lia).
  exists d1, h. do 3 (split; [done|]).
  assert (opens_child cfg (headings d1) (index s) (level_of h) = false)
    as Hopen.
  { unfold opens_child, js_gt. rewrite Hnext.
    fold (js_lt (level_of h) (level_of h)).
    by rewrite js_lt_irrefl, andb_false_r. }
  split; [done|]. split.
  - assert (for_loop cfg (S (S (enough_fuel (doc s) + k))) isFirst items s =
            Some (items ++ [Li (id h) (textContent h) None],
                  mkSt d1 (length (headings d1)))) as Hloop.
    { cbn [for_loop].
      assert ((index s <? length (headings (doc s))) = true) as ->
        by (apply Nat.ltb_lt; lia).
      rewrite (setTextAsID_more_fuel _ (S (enough_fuel (doc s) + k)) _ _ _ Hset)
        by lia.
      rewrite Hh. fold (opens_child cfg (headings d1) (index s) (level_of h)).
      rewrite Hopen. cbn [doc index]. rewrite Hnext, js_lt_irrefl, andb_false_r.
      cbn [set_index doc index].
      assert ((index s + 1 <? length (headings d1)) = false) as ->
        by (apply Nat.ltb_nlt; lia).
      do 3 f_equal. lia. }
    destruct (for_loop_total cfg (enough_fuel (doc s) + k) isFirst items s)
      as [r Hr]; [unfold enough_fuel; lia|].
    rewrite Hr. rewrite <- Hloop. symmetry.
    eapply for_loop_more_fuel; [done|lia].
  - intros fuel aF aI aL s2 Hend. split.
    + unfold stops_here. rewrite next_level_past_end by lia.
      by rewrite js_lt_irrefl, andb_false_r.
    + cbn [for_loop set_index doc index].
      by assert ((index s2 + 1 <? length (headings (doc s2))) = false) as ->
        by (apply Nat.ltb_nlt; lia).
Qed.

Lemma C5_witness :
  index (mkSt doc_23432 4) + 1 = length (headings (doc (mkSt doc_23432 4))) ∧
  ∃ d1 h,
    setTextAsID (enough_fuel doc_23432 + 0) doc_23432 4 = Some d1 ∧
    headings d1 !! 4 = Some h ∧
    next_level (headings d1) (4 + 1) (level_of h) = level_of h ∧
    opens_child cfg_nested (headings d1) 4 (level_of h) = false ∧
    for_loop cfg_nested (enough_fuel doc_23432 + 0) false [] (mkSt doc_23432 4) =
      Some ([] ++ [Li (id h) (textContent h) None],
            mkSt d1 (length (headings d1))) ∧
    ∀ fuel ancestorFirst ancestorItems ancestorLevel s2,
      length (headings (doc s2)) ≤ index s2 →
      stops_here ancestorFirst (headings (doc s2)) (index s2) ancestorLevel
        = false ∧
      for_loop cfg_nested (S fuel) ancestorFirst ancestorItems
        (set_index s2 (index s2 + 1)) =
        Some (ancestorItems, set_index s2 (index s2 + 1)).
Proof.
  split; [reflexivity|].
  apply (C5_last_heading_closes cfg_nested false [] (mkSt doc_23432 4) 0).
  reflexivity.
Defined.

(** C7: when a caption is configured (a non-empty [heading] setting), the
    top-level call renders it as a list item, first in the same list as
    the generated entries, if the container tag is ['li']; with any other
    container tag it renders it as a standalone element of that tag, which
    the serialisation puts before the list element.  No nested list holds
    a caption, and a call that is not the top-level one renders none. *)
Theorem C7_caption_rendering (cfg : Config) (d : Document) (i k : nat)
    (caption : string) :
  heading cfg = Some caption → truthy caption = true →
  ∃ m s' entries,
    createList cfg (enough_fuel d + k) true (mkSt d i) = Some (m, s') ∧
    Forall (λ it, is_caption it = false) entries ∧
    markup_nested_captions m = 0 ∧
    (headingType cfg = "li" →
       m = MkMarkup None (list_tag_of m) (list_class_of m)
             (CaptionLi caption :: entries)) ∧
    (headingType cfg ≠ "li" →
       m = MkMarkup (Some (headingType cfg, caption)) (list_tag_of m)
             (list_class_of m) entries ∧
       ∃ rest, to_html m =
         nl_tabs 3 +:+
         ("<" +:+ headingType cfg +:+ ">" +:+ caption +:+ "</"
            +:+ headingType cfg +:+ ">") +:+
         nl_tabs 3 +:+ "<" +:+ listType cfg +:+ rest) ∧
    (∀ fuel s1 m1 s1',
        createList cfg fuel false s1 = Some (m1, s1') →
        markup_captions_here m1 = 0 ∧ markup_nested_captions m1 = 0).
Proof.
  intros Hcap Htruthy.
  assert (∀ l, Forall (λ it, is_caption it = false ∧
                             item_nested_captions it = 0) l →
            Forall (λ it, is_caption it = false) l ∧
            List.filter is_caption l = [] ∧
            foldr (λ it acc, item_nested_captions it + acc) 0 l = 0) as Hsum.
  { induction 1 as [|it l [Hc Hn] _ (IH1 & IH2 & IH3)]; [done|].
    simpl. rewrite Hc, Hn, IH3. split; [by constructor|done]. }
  destruct (createList_total cfg true (mkSt d i) k) as [[m s'] Hcl].
  simpl in Hcl.
  pose proof Hcl as (items & -> & Hruns)%createList_runs.
  destruct (runs_captions _ _ _ _ _ _ Hruns) as (new & Hnew & Hall).
  simpl in Hnew. subst new. destruct (Hsum _ Hall) as (Hnocap & _ & Hzero).
  exists (wrap_list cfg true items), s', items.
  split; [done|]. split; [done|].
  unfold wrap_list. rewrite Hcap. cbn [truthy_opt default andb].
  rewrite Htruthy. cbn [andb list_tag_of list_class_of].
  split; [|split; [|split]].
  - cbn [markup_nested_captions]. rewrite foldr_app, Hzero.
    by destruct (bool_decide _).
  - intros Hli. by rewrite bool_decide_eq_true_2.
  - intros Hli. rewrite bool_decide_eq_false_2 by done. cbn [negb app].
    split; [done|]. cbn [to_html]. eexists. reflexivity.
  - intros fuel s1 m1 s1' (l & -> & Hr)%createList_runs.
    destruct (runs_captions _ _ _ _ _ _ Hr) as (new & Hl & Hall').
    simpl in Hl. subst new. destruct (Hsum _ Hall') as (_ & Hfil & Hz).
    unfold wrap_list. cbn [andb app markup_captions_here markup_nested_captions].
    by rewrite Hfil, Hz.
Qed.

Lemma C7_witness :
  (heading cfg_caption_li = Some "On this page" ∧
   truthy "On this page" = true) ∧
  ∃ m s' entries,
    createList cfg_caption_li (enough_fuel doc_23432 + 0) true
      (mkSt doc_23432 0) = Some (m, s') ∧
    Forall (λ it, is_caption it = false) entries ∧
    markup_nested_captions m = 0 ∧
    (headingType cfg_caption_li = "li" →
       m = MkMarkup None (list_tag_of m) (list_class_of m)
             (CaptionLi "On this page" :: entries)) ∧
    (headingType cfg_caption_li ≠ "li" →
       m = MkMarkup (Some (headingType cfg_caption_li, "On this page"))
             (list_tag_of m) (list_class_of m) entries ∧
       ∃ rest, to_html m =
         nl_tabs 3 +:+
         ("<" +:+ headingType cfg_caption_li +:+ ">" +:+ "On this page" +:+
            "</" +:+ headingType cfg_caption_li +:+ ">") +:+
         nl_tabs 3 +:+ "<" +:+ listType cfg_caption_li +:+ rest) ∧
    (∀ fuel s1 m1 s1',
        createList cfg_caption_li fuel false s1 = Some (m1, s1') →
        markup_captions_here m1 = 0 ∧ markup_nested_captions m1 = 0).
Proof.
  split; [split; reflexivity|].
  apply (C7_caption_rendering cfg_caption_li doc_23432 0 0 "On this page");
    reflexivity.
Defined.

Lemma createList_first_settles (cfg : Config) (fuel : nat) (s : St)
    (m : Markup) (s' : St) :
  createList cfg fuel true s = Some (m, s') →
  Forall (λ e, settled e = true) (headings (doc s')).
Proof.
  intros (items & _ & Hruns)%createList_runs.
  pose proof (runs_first_exhausts _ _ _ _ _ Hruns) as Hend.
  apply Forall_forall. intros e [j Hj]%list_elem_of_lookup.
  eapply (runs_settles _ _ _ _ _ _ Hruns); [|done].
  apply lookup_lt_Some in Hj. simpl. lia.
Qed.

(** C8: identifier assignment is idempotent and collision-free.  On a
    heading of the document, with the fuel of one probe per identifier of
    the document (or more), [setTextAsID] returns, and: a heading that has
    an identifier is left as it is; a heading without one whose text gives
    an empty identifier string is left as it is; a heading without one
    whose text gives a non-empty string gets the identifier
    [kelp_<string>], or [kelp_<string>_<n>] for the least [n] whose
    candidate is free, which differs from every identifier present in the
    document.  Run on the document, the builder changes no identifier that
    was set (nor any tag or text), and run again on the result, with any
    settings, it leaves the document as it is. *)
Theorem C8_identifier_assignment (d : Document) (i : nat) (e : Element)
    (k : nat) :
  headings d !! i = Some e →
  (∃ d',
     setTextAsID (S (length (all_ids d)) + k) d i = Some d' ∧
     (truthy (id e) = true → d' = d) ∧
     (truthy (id e) = false → text_to_id (textContent e) = EmptyString →
      d' = d) ∧
     (truthy (id e) = false → text_to_id (textContent e) ≠ EmptyString →
      ∃ n, d' = set_headings d
                  (<[i := set_id e (candidate (text_to_id (textContent e)) n)]>
                     (headings d)) ∧
           (candidate (text_to_id (textContent e)) n ∉ all_ids d) ∧
           ∀ j, j < n → candidate (text_to_id (textContent e)) j ∈ all_ids d)) ∧
  (∀ cfg cfg2 j,
     ∃ m s1 m2 s2,
       createList cfg (enough_fuel d + k) true (mkSt d j) = Some (m, s1) ∧
       Forall2 keeps (headings d) (headings (doc s1)) ∧
       others (doc s1) = others d ∧
       createList cfg2 (enough_fuel d + k) true s1 = Some (m2, s2) ∧
       doc s2 = doc s1).
Proof.
  intros He. split.
  - unfold setTextAsID. rewrite He.
    destruct (truthy (id e)) eqn:Hid.
    { eexists. split; [done|]. by repeat split. }
    destruct (truthy (text_to_id (textContent e))) eqn:Ht; cbn [negb].
    2:{ eexists. split; [done|]. repeat split; try done.
        intros _ Hne. apply truthy_false in Ht. done. }
    destruct (probe_total (S (length (all_ids d)) + k) d
                (text_to_id (textContent e))) as [n Hn]; [lia|].
    rewrite Hn. destruct (probe_free _ _ _ _ _ Hn) as (_ & Hfree & Hused).
    eexists. split; [done|]. split; [done|]. split.
    + intros _ Hempty. by rewrite Hempty in Ht.
    + intros _ _. exists n. split; [done|]. split; [done|].
      intros j' ?. apply Hused. lia.
  - intros cfg cfg2 j.
    destruct (createList_total cfg true (mkSt d j) k) as [[m s1] Hcl].
    cbn [doc] in Hcl.
    destruct (createList_first_entries _ _ _ _ _ Hcl) as [_ Hev].
    cbn [doc] in Hev.
    destruct (createList_total cfg2 true s1 k) as [[m2 s2] Hcl2].
    assert (enough_fuel (doc s1) = enough_fuel d) as Hfuel.
    { unfold enough_fuel.
      by rewrite (evolves_length _ _ Hev), (evolves_ids_length _ _ Hev). }
    rewrite Hfuel in Hcl2.
    exists m, s1, m2, s2. split; [done|]. destruct Hev as [Hoth Hkeep].
    do 3 (split; [done|]).
    pose proof (createList_first_settles _ _ _ _ _ Hcl) as Hsettled.
    apply createList_runs in Hcl2 as (items & _ & Hruns).
    by apply runs_settled_noop in Hruns.
Qed.

Lemma C8_witness :
  headings doc_23432 !! 0 = Some (h_elem "H2" "Intro") ∧
  (∃ d',
     setTextAsID (S (length (all_ids doc_23432)) + 0) doc_23432 0 = Some d' ∧
     (truthy (id (h_elem "H2" "Intro")) = true → d' = doc_23432) ∧
     (truthy (id (h_elem "H2" "Intro")) = false →
      text_to_id (textContent (h_elem "H2" "Intro")) = EmptyString →
      d' = doc_23432) ∧
     (truthy (id (h_elem "H2" "Intro")) = false →
      text_to_id (textContent (h_elem "H2" "Intro")) ≠ EmptyString →
      ∃ n, d' = set_headings doc_23432
                  (<[0 := set_id (h_elem "H2" "Intro")
                            (candidate
                               (text_to_id (textContent (h_elem "H2" "Intro")))
                               n)]>
                     (headings doc_23432)) ∧
           (candidate (text_to_id (textContent (h_elem "H2" "Intro"))) n
              ∉ all_ids doc_23432) ∧
           ∀ j, j < n →
                candidate (text_to_id (textContent (h_elem "H2" "Intro"))) j
                  ∈ all_ids doc_23432)) ∧
  (∀ cfg cfg2 j,
     ∃ m s1 m2 s2,
       createList cfg (enough_fuel doc_23432 + 0) true (mkSt doc_23432 j)
         = Some (m, s1) ∧
       Forall2 keeps (headings doc_23432) (headings (doc s1)) ∧
       others (doc s1) = others doc_23432 ∧
       createList cfg2 (enough_fuel doc_23432 + 0) true s1 = Some (m2, s2) ∧
       doc s2 = doc s1).
Proof.
  split; [reflexivity|].
  apply (C8_identifier_assignment doc_23432 0 (h_elem "H2" "Intro") 0).
  reflexivity.
Defined.

(** C9: the ready flag prevents initialisation from running again.  On a
    component whose [is-ready] attribute is set, [init] of the table of
    contents and of the heading anchors changes nothing at all: no
    rendering, no content change, no notification.  [init] of the
    sub-navigation dispatches nothing and keeps the ready flag; when the
    paused flag is not set it changes nothing, and when it is set it only
    registers the click and keydown listeners again and clears the paused
    flag. *)
Theorem C9_ready_flag_guards_init {Content : Type}
    (anchors_render : string → string → bool → Content → option Content)
    (fuel : nat) (t : Toc) (a : Anchors Content) (n : Subnav) :
  hasAttribute (toc_attrs t) "is-ready" = true →
  hasAttribute (anc_attrs a) "is-ready" = true →
  hasAttribute (sub_attrs n) "is-ready" = true →
  toc_init fuel t = Some t ∧
  anchors_init anchors_render a = a ∧
  sub_events (subnav_init n) = sub_events n ∧
  has_details (subnav_init n) = has_details n ∧
  hasAttribute (sub_attrs (subnav_init n)) "is-ready" = true ∧
  subnav_init n =
    if hasAttribute (sub_attrs n) "is-paused"
    then {| sub_attrs := delete "is-paused" (sub_attrs n);
            has_details := has_details n;
            listening := {["click"]} ∪ ({["keydown"]} ∪ listening n);
            sub_events := sub_events n |}
    else n.
Proof.
  intros Ht Ha Hn. unfold toc_init, anchors_init, subnav_init, reinit.
  rewrite Ht, Ha, Hn. cbn [negb]. do 2 (split; [done|]).
  destruct (hasAttribute (sub_attrs n) "is-paused") eqn:Hp; cbn [negb].
  - cbn. do 2 (split; [done|]). split; [|done].
    unfold hasAttribute in *. apply bool_decide_eq_true in Hn.
    apply bool_decide_eq_true. by rewrite lookup_delete_ne.
  - done.
Qed.

Lemma C9_witness :
  (hasAttribute (toc_attrs (toc_of {["is-ready" := EmptyString]} doc_23432))
     "is-ready" = true ∧
   hasAttribute (anc_attrs (mkAnchors {["is-ready" := EmptyString]} tt None []))
     "is-ready" = true ∧
   hasAttribute (sub_attrs subnav_ready_paused) "is-ready" = true) ∧
  toc_init 0 (toc_of {["is-ready" := EmptyString]} doc_23432) =
    Some (toc_of {["is-ready" := EmptyString]} doc_23432) ∧
  anchors_init (λ _ _ _ _, None)
    (mkAnchors {["is-ready" := EmptyString]} tt None []) =
    mkAnchors {["is-ready" := EmptyString]} tt None [] ∧
  sub_events (subnav_init subnav_ready_paused) = sub_events subnav_ready_paused ∧
  has_details (subnav_init subnav_ready_paused) =
    has_details subnav_ready_paused ∧
  hasAttribute (sub_attrs (subnav_init subnav_ready_paused)) "is-ready" = true ∧
  subnav_init subnav_ready_paused =
    if hasAttribute (sub_attrs subnav_ready_paused) "is-paused"
    then {| sub_attrs := delete "is-paused" (sub_attrs subnav_ready_paused);
            has_details := has_details subnav_ready_paused;
            listening :=
              {["click"]} ∪ ({["keydown"]} ∪ listening subnav_ready_paused);
            sub_events := sub_events subnav_ready_paused |}
    else subnav_ready_paused.
Proof.
  split; [repeat split; vm_compute; reflexivity|].
  apply (C9_ready_flag_guards_init (λ _ _ _ _, None) 0
           (toc_of {["is-ready" := EmptyString]} doc_23432)
           (mkAnchors {["is-ready" := EmptyString]} tt None [])
           subnav_ready_paused); vm_compute; reflexivity.
Defined.

(** C6, as stated, fails on a component that is already marked ready: with
    no matching heading at all, [init] returns at its guard and dispatches
    no debug notification. *)
Lemma C6_counterexample :
  headings (toc_document (toc_of {["is-ready" := EmptyString]} doc_empty)) = [] ∧
  ¬ ∃ t',
      toc_init 0 (toc_of {["is-ready" := EmptyString]} doc_empty) = Some t' ∧
      toc_events t' =
        toc_events (toc_of {["is-ready" := EmptyString]} doc_empty) ++
        [debug_event "No matching headings were found"].
Proof.
  split; [reflexivity|]. intros (t' & Hinit & Hev).
  vm_compute in Hinit. injection Hinit as <-. discriminate Hev.
Qed.

(** C6, amended: if the component is not already marked ready and the
    sequence of matching headings is empty, [init] returns (whatever the
    fuel) having left the content, the attributes and the document as they
    were; it has dispatched exactly one event, the non-cancelable debug
    notification with the reason "No matching headings were found"; no
    ready notification is dispatched and the [is-ready] attribute is not
    set. *)
Theorem C6_empty_input_reports_debug (fuel : nat) (t : Toc) :
  hasAttribute (toc_attrs t) "is-ready" = false →
  headings (toc_document t) = [] →
  ∃ t',
    toc_init fuel t = Some t' ∧
    innerHTML t' = innerHTML t ∧
    toc_attrs t' = toc_attrs t ∧
    toc_document t' = toc_document t ∧
    toc_events t' =
      toc_events t ++ [debug_event "No matching headings were found"] ∧
    cancelable (debug_event "No matching headings were found") = false ∧
    debug_event "No matching headings were found" ≠ emit_event "toc" "ready" ∧
    hasAttribute (toc_attrs t') "is-ready" = false.
Proof.
  intros Hready Hempty. unfold toc_init, render. rewrite Hready.
  cbn [toc_document]. rewrite Hempty. eexists. split; [done|].
  cbn. by repeat split.
Qed.

Lemma C6_witness :
  (hasAttribute (toc_attrs (toc_of ∅ doc_empty)) "is-ready" = false ∧
   headings (toc_document (toc_of ∅ doc_empty)) = []) ∧
  ∃ t',
    toc_init 0 (toc_of ∅ doc_empty) = Some t' ∧
    innerHTML t' = innerHTML (toc_of ∅ doc_empty) ∧
    toc_attrs t' = toc_attrs (toc_of ∅ doc_empty) ∧
    toc_document t' = toc_document (toc_of ∅ doc_empty) ∧
    toc_events t' =
      toc_events (toc_of ∅ doc_empty) ++
      [debug_event "No matching headings were found"] ∧
    cancelable (debug_event "No matching headings were found") = false ∧
    debug_event "No matching headings were found" ≠ emit_event "toc" "ready" ∧
    hasAttribute (toc_attrs t') "is-ready" = false.
Proof.
  split; [split; reflexivity|].
  apply (C6_empty_input_reports_debug 0 (toc_of ∅ doc_empty)); reflexivity.
Defined.

Lemma createList_first_depths (cfg : Config) (fuel : nat) (s : St)
    (m : Markup) (s' : St) :
  nested cfg = true →
  headings (doc s) ≠ [] →
  Forall (λ e, is_heading e = true) (headings (doc s)) →
  returns_to_open_level (ranks (doc s)) = true →
  createList cfg fuel true s = Some (m, s') →
  markup_depths 1 m = outline_depths (ranks (doc s)).
Proof.
  intros Hnested Hne Hall Hopens (items & -> & Hruns)%createList_runs.
  pose proof (runs_first_exhausts _ _ _ _ _ Hruns) as Hend.
  pose proof (runs_frame _ _ _ _ _ _ Hruns) as (_ & Hev & _).
  apply evolves_length in Hev. cbn [set_index doc index] in *.
  assert (length (ranks (doc s)) = length (headings (doc s))) as Hlen
    by (unfold ranks; by rewrite length_fmap).
  destruct (runs_depths cfg (ranks (doc s)) _ _ _ _ _ Hnested Hopens Hruns)
    with (d := 1) as (new & Hnew & Hdepths & _); try done.
  - cbn [set_index index]. rewrite Hlen.
    destruct (headings (doc s)); [done|simpl; lia].
  - cbn [set_index index]. split; [done|]. intros; lia.
  - cbn [app set_index index] in *. subst new.
    rewrite wrap_list_depths, Hdepths, outline_depths_seq.
    do 2 f_equal. lia.
Qed.

Lemma createList_nested_outline (cfg : Config) (d : Document) (i k : nat) :
  nested cfg = true →
  headings d ≠ [] →
  Forall (λ e, is_heading e = true) (headings d) →
  returns_to_open_level (ranks d) = true →
  ∃ m s',
    createList cfg (enough_fuel d + k) true (mkSt d i) = Some (m, s') ∧
    markup_entries m = entry_of <$> headings (doc s') ∧
    ranks (doc s') = ranks d ∧
    markup_depths 1 m = outline_depths (ranks d).
Proof.
  intros Hnested Hne Hall Hskip.
  destruct (createList_total cfg true (mkSt d i) k) as [[m s'] Hcl].
  cbn [doc] in Hcl. exists m, s'. split; [done|].
  destruct (createList_first_entries _ _ _ _ _ Hcl) as [Hent Hev].
  split; [done|]. split; [by apply evolves_ranks in Hev|].
  by eapply (createList_first_depths cfg _ (mkSt d i)).
Qed.

(** On every rank sequence of up to five headings over the ranks 1 to 4,
    the builder's depths are the outline's exactly when every shallower
    heading returns to an open level. *)
Example open_level_condition_is_exact_on_small_sequences :
  forallb
    (λ rs, Bool.eqb (bool_decide (builder_depths rs = Some (outline_depths rs)))
             (returns_to_open_level rs))
    (rank_sequences 1 ++ rank_sequences 2 ++ rank_sequences 3 ++
     rank_sequences 4 ++ rank_sequences 5) = true.
Proof. vm_compute. reflexivity. Qed.

(** C2, as stated, fails on the ranks 2, 4, 3: the outline puts the third
    heading under the first (its nearest predecessor of smaller rank), at
    depth 2, and the builder puts it at depth 1, beside the first. *)
Lemma C2_counterexample :
  nested cfg_nested = true ∧ headings doc_243 ≠ [] ∧
  ∃ m s',
    createList cfg_nested (enough_fuel doc_243) true (mkSt doc_243 0)
      = Some (m, s') ∧
    markup_depths 1 m = [1; 2; 1] ∧
    outline_depths (ranks doc_243) = [1; 2; 2] ∧
    markup_depths 1 m ≠ outline_depths (ranks doc_243).
Proof.
  split; [reflexivity|]. split; [discriminate|].
  eexists _, _. split; [vm_compute; reflexivity|].
  split; [reflexivity|]. split; [reflexivity|]. discriminate.
Qed.

(** C2, amended: for every non-empty sequence of [h1]..[h6] headings in
    which every heading that is shallower than its predecessor returns to
    an open level (the nearest earlier heading that is not deeper than it,
    if there is one, has exactly its rank; so it is, by
    [no_skipped_level_returns], whenever ranks never rise by more than one
    level from a heading to the next), the nested builder returns a tree in
    which every heading appears exactly once, in document order, and at
    the depth the outline gives it: one level below its nearest
    predecessor of strictly smaller rank, and at depth 1 when it has
    none. *)
Theorem C2_nested_tree_follows_outline (cfg : Config) (d : Document)
    (i k : nat) :
  nested cfg = true →
  headings d ≠ [] →
  Forall (λ e, is_heading e = true) (headings d) →
  returns_to_open_level (ranks d) = true →
  ∃ m s',
    createList cfg (enough_fuel d + k) true (mkSt d i) = Some (m, s') ∧
    markup_entries m = entry_of <$> headings (doc s') ∧
    ranks (doc s') = ranks d ∧
    markup_depths 1 m = outline_depths (ranks d) ∧
    length (markup_depths 1 m) = length (headings d).
Proof.
  intros Hnested Hne Hall Hskip.
  destruct (createList_nested_outline cfg d i k Hnested Hne Hall Hskip)
    as (m & s' & Hcl & Hent & Hranks & Hd).
  exists m, s'. do 4 (split; [done|]).
  rewrite Hd, outline_depths_seq, length_fmap, length_seq.
  unfold ranks. by rewrite length_fmap.
Qed.

Lemma C2_witness :
  (nested cfg_nested = true ∧ headings doc_23432 ≠ [] ∧
   Forall (λ e, is_heading e = true) (headings doc_23432) ∧
   returns_to_open_level (ranks doc_23432) = true) ∧
  ∃ m s',
    createList cfg_nested (enough_fuel doc_23432 + 0) true (mkSt doc_23432 0)
      = Some (m, s') ∧
    markup_entries m = entry_of <$> headings (doc s') ∧
    ranks (doc s') = ranks doc_23432 ∧
    markup_depths 1 m = outline_depths (ranks doc_23432) ∧
    length (markup_depths 1 m) = length (headings doc_23432).
Proof.
  assert (Forall (λ e, is_heading e = true) (headings doc_23432)) as Hall
    by (repeat constructor).
  split; [repeat split; [discriminate|exact Hall]|].
  apply (C2_nested_tree_follows_outline cfg_nested doc_23432 0 0);
    [reflexivity|discriminate|exact Hall|reflexivity].
Defined.

(** C4: in nested mode, on headings of ranks 2, 3, 4, 3, 2 (whatever their
    texts and identifiers) the builder returns the five entries in order at
    depths 1, 2, 3, 2, 1: the first item holds the second, which holds the
    third; the fourth is back at depth 2 under the first item, and the
    fifth is a new top-level item.  On the sample document the tree is
    spelled out. *)
Theorem C4_trailing_shallower_rank (cfg : Config) (d : Document) (i k : nat) :
  nested cfg = true →
  tagName <$> headings d = ["H2"; "H3"; "H4"; "H3"; "H2"] →
  (∃ m s',
     createList cfg (enough_fuel d + k) true (mkSt d i) = Some (m, s') ∧
     markup_entries m = entry_of <$> headings (doc s') ∧
     markup_depths 1 m = [1; 2; 3; 2; 1]) ∧
  ∃ s',
    createList cfg_nested (enough_fuel doc_23432) true (mkSt doc_23432 0) =
    Some
      (MkMarkup None "ul" None
         [Li "kelp_Intro_1" "Intro"
            (Some (MkMarkup None "ul" None
                     [Li "kelp_Setup" "Setup"
                        (Some (MkMarkup None "ul" None
                                 [Li "kelp_Details" "Details" None]));
                      Li "kelp_Usage" "Usage" None]));
          Li "kelp_Notes" "Notes" None], s').
Proof.
  intros Hnested Htags. split; [|eexists; vm_compute; reflexivity].
  destruct (headings d) as [|e1 [|e2 [|e3 [|e4 [|e5 [|]]]]]] eqn:Hhs;
    try discriminate Htags.
  injection Htags as H1 H2 H3 H4 H5.
  assert (ranks d = [2; 3; 4; 3; 2]) as Hranks.
  { unfold ranks, rank_of, level_of. rewrite Hhs. cbn [fmap list_fmap].
    by rewrite H1, H2, H3, H4, H5. }
  destruct (createList_nested_outline cfg d i k Hnested)
    as (m & s' & Hcl & Hent & _ & Hdepths).
  - by rewrite Hhs.
  - rewrite Hhs.
    repeat (constructor;
            [unfold is_heading; by rewrite ?H1, ?H2, ?H3, ?H4, ?H5|]).
    constructor.
  - by rewrite Hranks.
  - exists m, s'. do 2 (split; [done|]). by rewrite Hdepths, Hranks.
Qed.

Lemma C4_witness :
  (nested cfg_nested = true ∧
   tagName <$> headings doc_23432 = ["H2"; "H3"; "H4"; "H3"; "H2"]) ∧
  (∃ m s',
     createList cfg_nested (enough_fuel doc_23432 + 0) true (mkSt doc_23432 0)
       = Some (m, s') ∧
     markup_entries m = entry_of <$> headings (doc s') ∧
     markup_depths 1 m = [1; 2; 3; 2; 1]) ∧
  ∃ s',
    createList cfg_nested (enough_fuel doc_23432) true (mkSt doc_23432 0) =
    Some
      (MkMarkup None "ul" None
         [Li "kelp_Intro_1" "Intro"
            (Some (MkMarkup None "ul" None
                     [Li "kelp_Setup" "Setup"
                        (Some (MkMarkup None "ul" None
                                 [Li "kelp_Details" "Details" None]));
                      Li "kelp_Usage" "Usage" None]));
          Li "kelp_Notes" "Notes" None], s').
Proof.
  split; [split; reflexivity|].
  apply (C4_trailing_shallower_rank cfg_nested doc_23432 0 0); reflexivity.
Defined.

(** * Further properties of the code *)

(** ** The identifier string derived from a text *)

Lemma replace_invalid_empty (s : string) :
  replace_invalid s = EmptyString ↔ s = EmptyString.
Proof. by destruct s. Qed.

Lemma collapse_runs_empty (s : string) :
  collapse_runs false s = EmptyString ↔ s = EmptyString.
Proof.
  destruct s as [|c tl]; [done|]. simpl. by destruct (is_space c || is_dash c).
Qed.

Lemma text_to_id_empty (s : string) :
  text_to_id s = EmptyString ↔ s = EmptyString.
Proof.
  unfold text_to_id. by rewrite collapse_runs_empty, replace_invalid_empty.
Qed.







(** ** Identifiers stay unique *)

Lemma all_ids_insert (d : Document) (i : nat) (e : Element) :
  i < length (headings d) →
  all_ids (set_headings d (<[i := e]> (headings d))) =
  <[i := id e]> (all_ids d).
Proof.
  intros Hi. unfold all_ids. cbn [headings others set_headings].
  rewrite !fmap_app, list_fmap_insert, insert_app_l; [done|].
  by rewrite length_fmap.
Qed.

Lemma NoDup_insert_fresh (l : list string) (i : nat) (x : string) :
  l !! i = Some EmptyString → x ∉ l →
  NoDup (filter (λ s, s ≠ EmptyString) l) →
  NoDup (filter (λ s, s ≠ EmptyString) (<[i := x]> l)).
Proof.
  intros Hi Hx. rewrite insert_take_drop by (by eapply lookup_lt_Some).
  rewrite <- (take_drop_middle l i EmptyString Hi) at 1.
  rewrite <- (take_drop_middle l i EmptyString Hi) in Hx.
  rewrite !filter_app, !filter_cons.
  destruct (decide (EmptyString ≠ EmptyString)); [done|].
  destruct (decide (x ≠ EmptyString)); [|done].
  rewrite !NoDup_app. intros (H1 & H12 & H2).
  apply not_elem_of_app in Hx as [Hx1 Hx2].
  apply not_elem_of_cons in Hx2 as [_ Hx2].
  split; [done|]. split.
  - intros y Hy [->|Hy2]%elem_of_cons.
    + by apply list_elem_of_filter in Hy as [_ ?].
    + by eapply H12.
  - constructor; [|done]. by intros [_ ?]%list_elem_of_filter.
Qed.

Lemma setTextAsID_unique (fuel : nat) (d d' : Document) (i : nat) :
  setTextAsID fuel d i = Some d' →
  NoDup (assigned_ids d) → NoDup (assigned_ids d').
Proof.
  intros [->|(e & k & He & Hid & _ & Hfree & ->)]%setTextAsID_cases; [done|].
  unfold assigned_ids. rewrite all_ids_insert by (by eapply lookup_lt_Some).
  apply NoDup_insert_fresh; [|done].
  unfold all_ids. rewrite fmap_app, lookup_app_l.
  - by rewrite list_lookup_fmap, He, <- Hid.
  - rewrite length_fmap. by eapply lookup_lt_Some.
Qed.

(** A property of the document that [setTextAsID] keeps is kept by every
    run of the loop. *)
Lemma runs_invariant (P : Document → Prop) (cfg : Config) (isFirst : bool)
    (items : list Item) (s : St) (items' : list Item) (s' : St) :
  (∀ fuel d i d', P d → setTextAsID fuel d i = Some d' → P d') →
  runs cfg isFirst items s items' s' → P (doc s) → P (doc s').
Proof.
  intros Hstep.
  induction 1 as
    [ isFirst items s Hge
    | isFirst items s fuel d1 h Hlt Hset Hh Hopen Hstop
    | isFirst items s fuel d1 h items' s' Hlt Hset Hh Hopen Hstop Hrest IH
    | isFirst items s fuel d1 h l s2 Hlt Hset Hh Hopen Hchild IHc Hstop
    | isFirst items s fuel d1 h l s2 items' s' Hlt Hset Hh Hopen Hchild IHc
        Hstop Hrest IH ]; intros HP; cbn [doc set_index] in *; eauto.
Qed.

Lemma gets_id_step (e0 e : Element) (k : nat) :
  gets_id e0 e → id e = EmptyString →
  text_to_id (textContent e) ≠ EmptyString →
  gets_id e0 (set_id e (candidate (text_to_id (textContent e)) k)).
Proof.
  intros [->|(_ & _ & k' & ->)] Hid Htext.
  - right. split; [done|]. split; [|by exists k].
    intros Hempty. apply Htext. by apply text_to_id_empty.
  - done.
Qed.

Lemma setTextAsID_gets_id (fuel : nat) (d d' : Document) (i : nat)
    (hs0 : list Element) :
  setTextAsID fuel d i = Some d' →
  Forall2 gets_id hs0 (headings d) → Forall2 gets_id hs0 (headings d').
Proof.
  intros [->|(e & k & He & Hid & Htext & _ & ->)]%setTextAsID_cases H;
    [done|].
  cbn [headings set_headings].
  destruct (Forall2_lookup_r _ _ _ _ _ H He) as (e0 & He0 & Hg).
  rewrite <- (list_insert_id hs0 i e0 He0).
  apply Forall2_insert; [done|]. by apply gets_id_step.
Qed.

(** [setTextAsID] returns, on any element of the node list; it touches
    nothing but the identifier of that element: the other headings, the
    other elements and the element's tag and text are as before; and the
    element is either left as it is or, having had no identifier and some
    text, carries a candidate identifier of its text. *)
Theorem setTextAsID_touches_one_identifier (d : Document) (i : nat)
    (e : Element) (k : nat) :
  headings d !! i = Some e →
  ∃ d' e',
    setTextAsID (S (length (all_ids d)) + k) d i = Some d' ∧
    headings d' !! i = Some e' ∧ gets_id e e' ∧
    tagName e' = tagName e ∧ textContent e' = textContent e ∧
    others d' = others d ∧
    length (headings d') = length (headings d) ∧
    ∀ j, j ≠ i → headings d' !! j = headings d !! j.
Proof.
  intros He.
  destruct (setTextAsID_total (S (length (all_ids d)) + k) d i) as [d' Hset];
    [lia|].
  pose proof (setTextAsID_evolves _ _ _ _ Hset) as Hev.
  destruct (evolves_lookup _ _ _ _ Hev He) as (e' & He' & Htag & Htext & _).
  exists d', e'. do 2 (split; [done|]). split.
  - assert (Forall2 gets_id (headings d) (headings d')) as Hg.
    { eapply setTextAsID_gets_id; [done|].
      apply Forall2_same_length_lookup. split; [done|].
      intros j x y ? ?. left. congruence. }
    destruct (Forall2_lookup_l _ _ _ _ _ Hg He) as (e2 & He2 & ?).
    congruence.
  - do 2 (split; [done|]). split; [by destruct Hev|].
    split; [by apply evolves_length|].
    intros j ?. by eapply setTextAsID_elsewhere.
Qed.

Lemma setTextAsID_touches_one_identifier_witness :
  headings doc_23432 !! 0 = Some (h_elem "H2" "Intro") ∧
  ∃ d' e',
    setTextAsID (S (length (all_ids doc_23432)) + 0) doc_23432 0 = Some d' ∧
    headings d' !! 0 = Some e' ∧ gets_id (h_elem "H2" "Intro") e' ∧
    tagName e' = tagName (h_elem "H2" "Intro") ∧
    textContent e' = textContent (h_elem "H2" "Intro") ∧
    others d' = others doc_23432 ∧
    length (headings d') = length (headings doc_23432) ∧
    ∀ j, j ≠ 0 → headings d' !! j = headings doc_23432 !! j.
Proof.
  split; [reflexivity|].
  apply (setTextAsID_touches_one_identifier doc_23432 0 (h_elem "H2" "Intro") 0).
  reflexivity.
Defined.

(** If the identifiers set in the document are pairwise distinct, they
    still are after [setTextAsID], and after any call of the builder,
    top-level or not. *)
Theorem identifiers_stay_unique (cfg : Config) (isFirst : bool) (s : St)
    (i k : nat) :
  NoDup (assigned_ids (doc s)) →
  (∃ d', setTextAsID (S (length (all_ids (doc s))) + k) (doc s) i = Some d' ∧
         NoDup (assigned_ids d')) ∧
  ∃ m s',
    createList cfg (enough_fuel (doc s) + k) isFirst s = Some (m, s') ∧
    NoDup (assigned_ids (doc s')).
Proof.
  intros Hnodup. split.
  - destruct (setTextAsID_total (S (length (all_ids (doc s))) + k) (doc s) i)
      as [d' Hset]; [lia|].
    exists d'. split; [done|]. by eapply setTextAsID_unique.
  - destruct (createList_total cfg isFirst s k) as [[m s'] Hcl].
    exists m, s'. split; [done|].
    apply createList_runs in Hcl as (items & _ & Hruns).
    eapply (runs_invariant (λ d, NoDup (assigned_ids d))) in Hruns; [done| |done].
    intros fuel d j d' ? ?. by eapply setTextAsID_unique.
Qed.

Lemma identifiers_stay_unique_witness :
  NoDup (assigned_ids (doc (mkSt doc_23432 0))) ∧
  (∃ d', setTextAsID (S (length (all_ids doc_23432)) + 0) doc_23432 0
           = Some d' ∧
         NoDup (assigned_ids d')) ∧
  ∃ m s',
    createList cfg_nested (enough_fuel doc_23432 + 0) true (mkSt doc_23432 0)
      = Some (m, s') ∧
    NoDup (assigned_ids (doc s')).
Proof.
  assert (NoDup (assigned_ids (doc (mkSt doc_23432 0)))) as H
    by (vm_compute; repeat constructor; set_solver).
  split; [exact H|].
  exact (identifiers_stay_unique cfg_nested true (mkSt doc_23432 0) 0 0 H).
Defined.

(** The top-level call of the builder leaves every heading as it is or,
    when the heading had no identifier and has some text, sets a
    candidate identifier of its text; afterwards the only headings without
    an identifier are those without text; the other elements are as
    before. *)
Theorem builder_assigns_missing_identifiers (cfg : Config) (d : Document)
    (i k : nat) :
  ∃ m s',
    createList cfg (enough_fuel d + k) true (mkSt d i) = Some (m, s') ∧
    Forall2 gets_id (headings d) (headings (doc s')) ∧
    Forall (λ e', id e' = EmptyString → textContent e' = EmptyString)
      (headings (doc s')) ∧
    others (doc s') = others d.
Proof.
  destruct (createList_total cfg true (mkSt d i) k) as [[m s'] Hcl].
  cbn [doc] in Hcl. exists m, s'. split; [done|].
  pose proof (createList_first_settles _ _ _ _ _ Hcl) as Hsettled.
  destruct (createList_first_entries _ _ _ _ _ Hcl) as [_ [Hoth _]].
  apply createList_runs in Hcl as (items & _ & Hruns).
  split; [|split; [|done]].
  - eapply (runs_invariant (λ d', Forall2 gets_id (headings d) (headings d')))
      in Hruns; [done| |].
    + intros fuel d1 j d2 ? ?. by eapply setTextAsID_gets_id.
    + cbn [doc set_index]. apply Forall2_same_length_lookup. split; [done|].
      intros j x y ? ?. left. congruence.
  - eapply Forall_impl; [done|]. intros e Hs Hid. unfold settled in Hs.
    rewrite Hid in Hs. cbn in Hs. apply negb_true_iff, truthy_false in Hs.
    by apply text_to_id_empty.
Qed.

(** ** Shape of the returned tree *)





Lemma flat_items_are_entries (items : list Item) (hs : list Element) :
  Forall (λ it, has_sublist it = false) items →
  Forall (λ it, is_caption it = false) items →
  flat_map item_entries items = entry_of <$> hs →
  items = (λ e, Li (id e) (textContent e) None) <$> hs.
Proof.
  intros Hflat. revert hs.
  induction Hflat as [|it items Hit _ IH]; intros hs Hcap Hent.
  - by destruct hs.
  - apply Forall_cons in Hcap as [Hc Hcap].
    destruct it as [href text [m|]|]; try done.
    destruct hs as [|e hs]; [done|]. cbn in Hent.
    injection Hent as -> -> Hent. cbn. f_equal. by apply IH.
Qed.

(** With nesting disabled the builder returns exactly one item per
    heading, in document order, each linking to the heading's identifier
    and showing its text, in a single list (after the caption item when
    one is rendered there). *)
Theorem flat_mode_output (cfg : Config) (d : Document) (i k : nat) :
  nested cfg = false →
  ∃ m s',
    createList cfg (enough_fuel d + k) true (mkSt d i) = Some (m, s') ∧
    m = wrap_list cfg true
          ((λ e, Li (id e) (textContent e) None) <$> headings (doc s')).
Proof.
  intros Hflat.
  destruct (createList_total cfg true (mkSt d i) k) as [[m s'] Hcl].
  cbn [doc] in Hcl. exists m, s'. split; [done|].
  destruct (createList_first_entries _ _ _ _ _ Hcl) as [Hent _].
  apply createList_runs in Hcl as (items & -> & Hruns).
  rewrite wrap_list_entries in Hent. f_equal.
  apply flat_items_are_entries; [|
    |done].
  - by apply (runs_flat _ _ _ _ _ _ Hflat) in Hruns.
  - destruct (runs_captions _ _ _ _ _ _ Hruns) as (new & Hnew & Hall).
    cbn [app] in Hnew. subst new.
    eapply Forall_impl; [done|]. by intros ? [? _].
Qed.

Lemma flat_mode_output_witness :
  nested cfg_flat = false ∧
  ∃ m s',
    createList cfg_flat (enough_fuel doc_23432 + 0) true (mkSt doc_23432 0)
      = Some (m, s') ∧
    m = wrap_list cfg_flat true
          ((λ e, Li (id e) (textContent e) None) <$> headings (doc s')).
Proof.
  split; [reflexivity|].
  apply (flat_mode_output cfg_flat doc_23432 0 0). reflexivity.
Defined.

(** ** The life of a table of contents *)

(** On a component that is not marked ready, with at least one matching
    heading, [init] reads the settings from the attributes, replaces the
    content by the serialised list, dispatches exactly one event, the
    ready notification, and sets [is-ready]; a further [init] then
    changes nothing. *)
Theorem toc_init_succeeds_once (t : Toc) (k : nat) :
  hasAttribute (toc_attrs t) "is-ready" = false →
  headings (toc_document t) ≠ [] →
  ∃ m s' t',
    createList (read_settings (toc_attrs t))
      (enough_fuel (toc_document t) + k) true (mkSt (toc_document t) 0)
      = Some (m, s') ∧
    toc_init (enough_fuel (toc_document t) + k) t = Some t' ∧
    innerHTML t' = to_html m ∧
    toc_document t' = doc s' ∧
    settings t' = Some (read_settings (toc_attrs t)) ∧
    toc_attrs t' = <["is-ready" := EmptyString]> (toc_attrs t) ∧
    toc_events t' = toc_events t ++ [emit_event "toc" "ready"] ∧
    ∀ fuel, toc_init fuel t' = Some t'.
Proof.
  intros Hready Hne.
  destruct (createList_total (read_settings (toc_attrs t)) true
              (mkSt (toc_document t) 0) k) as [[m s'] Hcl].
  cbn [doc] in Hcl. exists m, s'. eexists. split; [done|].
  unfold toc_init, render. rewrite Hready. cbn [toc_document toc_index].
  rewrite createList_html_tree, Hcl.
  cbn [fmap option_fmap option_map fst snd].
  destruct (headings (toc_document t)) as [|e hs] eqn:Hhs; [done|].
  split; [done|]. cbn. do 5 (split; [done|]).
  intros fuel. unfold hasAttribute. cbn.
  rewrite bool_decide_eq_true_2; [done|]. rewrite lookup_insert_eq. by eexists.
Qed.

Lemma toc_init_succeeds_once_witness :
  (hasAttribute (toc_attrs (toc_of ∅ doc_23432)) "is-ready" = false ∧
   headings (toc_document (toc_of ∅ doc_23432)) ≠ []) ∧
  ∃ m s' t',
    createList (read_settings (toc_attrs (toc_of ∅ doc_23432)))
      (enough_fuel (toc_document (toc_of ∅ doc_23432)) + 0) true
      (mkSt (toc_document (toc_of ∅ doc_23432)) 0) = Some (m, s') ∧
    toc_init (enough_fuel (toc_document (toc_of ∅ doc_23432)) + 0)
      (toc_of ∅ doc_23432) = Some t' ∧
    innerHTML t' = to_html m ∧
    toc_document t' = doc s' ∧
    settings t' = Some (read_settings (toc_attrs (toc_of ∅ doc_23432))) ∧
    toc_attrs t' =
      <["is-ready" := EmptyString]> (toc_attrs (toc_of ∅ doc_23432)) ∧
    toc_events t' =
      toc_events (toc_of ∅ doc_23432) ++ [emit_event "toc" "ready"] ∧
    ∀ fuel, toc_init fuel t' = Some t'.
Proof.
  split; [split; [reflexivity|discriminate]|].
  apply (toc_init_succeeds_once (toc_of ∅ doc_23432) 0);
    [reflexivity|discriminate].
Defined.

Lemma dispatched_app (name : string) (l1 l2 : list Event) :
  dispatched name (l1 ++ l2) = dispatched name l1 + dispatched name l2.
Proof. unfold dispatched. by rewrite filter_app, length_app. Qed.

Lemma toc_init_cases (fuel : nat) (t t' : Toc) :
  toc_init fuel t = Some t' →
  (hasAttribute (toc_attrs t) "is-ready" = true ∧ t' = t) ∨
  (hasAttribute (toc_attrs t) "is-ready" = false ∧
   toc_attrs t' = toc_attrs t ∧ innerHTML t' = innerHTML t ∧
   toc_events t' =
     toc_events t ++ [debug_event "No matching headings were found"]) ∨
  (hasAttribute (toc_attrs t) "is-ready" = false ∧
   toc_attrs t' = <["is-ready" := EmptyString]> (toc_attrs t) ∧
   toc_events t' = toc_events t ++ [emit_event "toc" "ready"]).
Proof.
  unfold toc_init, render.
  destruct (hasAttribute (toc_attrs t) "is-ready") eqn:Hready.
  { intros [= <-]. by left. }
  cbn [toc_document toc_index].
  destruct (headings (toc_document t)).
  { intros [= <-]. right. left. by repeat split. }
  destruct (createList_html _ _ _ _) as [[html s]|]; [|done].
  intros [= <-]. right. right. by repeat split.
Qed.

(** Over any life of a table of contents that starts not marked ready and
    without events (any number of connections, with any change of the
    document in between), the ready notification is dispatched at most
    once: once if [is-ready] is set, never otherwise. *)
Theorem toc_ready_at_most_once (t0 t : Toc) :
  hasAttribute (toc_attrs t0) "is-ready" = false →
  toc_events t0 = [] →
  rtc toc_step t0 t →
  dispatched "kelp-toc:ready" (toc_events t) =
  if hasAttribute (toc_attrs t) "is-ready" then 1 else 0.
Proof.
  intros Hready Hev. revert t.
  apply rtc_ind_r; [by rewrite Hready, Hev|].
  intros t1 t2 Hrtc Hstep IH.
  destruct Hstep as [fuel t1 t2 Hinit|t1 d]; [|done].
  apply toc_init_cases in Hinit
    as [[_ ->]|[(Hr & Ha & _ & He)|(Hr & Ha & He)]]; [done| |].
  - unfold hasAttribute in *. rewrite Ha, He, dispatched_app, IH, Hr. done.
  - rewrite He, dispatched_app, IH, Hr. unfold hasAttribute. rewrite Ha.
    rewrite bool_decide_eq_true_2; [done|]. rewrite lookup_insert_eq.
    by eexists.
Qed.

Lemma toc_ready_at_most_once_witness :
  (hasAttribute (toc_attrs (toc_of ∅ doc_empty)) "is-ready" = false ∧
   toc_events (toc_of ∅ doc_empty) = [] ∧
   rtc toc_step (toc_of ∅ doc_empty) toc_sample_life) ∧
  dispatched "kelp-toc:ready" (toc_events toc_sample_life) =
  if hasAttribute (toc_attrs toc_sample_life) "is-ready" then 1 else 0.
Proof.
  assert (rtc toc_step (toc_of ∅ doc_empty) toc_sample_life) as Hlife.
  { eapply rtc_l; [apply (toc_connected 1); vm_compute; reflexivity|].
    eapply rtc_l; [apply (toc_document_changed _ doc_23432)|].
    eapply rtc_l;
      [apply (toc_connected (enough_fuel doc_23432)); vm_compute; reflexivity|].
    apply rtc_once. apply (toc_connected 1). vm_compute. reflexivity. }
  split; [split; [reflexivity|split; [reflexivity|exact Hlife]]|].
  exact (toc_ready_at_most_once (toc_of ∅ doc_empty) toc_sample_life
           eq_refl eq_refl Hlife).
Defined.

Example toc_sample_life_events :
  ev_type <$> toc_events toc_sample_life = ["kelp:debug"; "kelp-toc:ready"].
Proof. vm_compute. reflexivity. Qed.

(** Once a table of contents is marked ready, nothing in its later life
    changes its content, its attributes or its events: no re-rendering
    and no further notification, whatever happens to the document. *)
Theorem toc_ready_is_final (t t' : Toc) :
  hasAttribute (toc_attrs t) "is-ready" = true →
  rtc toc_step t t' →
  innerHTML t' = innerHTML t ∧ toc_attrs t' = toc_attrs t ∧
  toc_events t' = toc_events t ∧ settings t' = settings t.
Proof.
  intros Hready. revert t'. apply rtc_ind_r; [done|].
  intros t1 t2 Hrtc Hstep (Hh & Ha & He & Hs).
  destruct Hstep as [fuel t1 t2 Hinit|t1 d]; [|done].
  unfold toc_init in Hinit. rewrite Ha, Hready in Hinit.
  by injection Hinit as <-.
Qed.

Lemma toc_ready_is_final_witness :
  (hasAttribute (toc_attrs toc_sample_ready) "is-ready" = true ∧
   rtc toc_step toc_sample_ready (toc_with_document toc_sample_ready doc_243)) ∧
  innerHTML (toc_with_document toc_sample_ready doc_243) =
    innerHTML toc_sample_ready ∧
  toc_attrs (toc_with_document toc_sample_ready doc_243) =
    toc_attrs toc_sample_ready ∧
  toc_events (toc_with_document toc_sample_ready doc_243) =
    toc_events toc_sample_ready ∧
  settings (toc_with_document toc_sample_ready doc_243) =
    settings toc_sample_ready.
Proof.
  assert (rtc toc_step toc_sample_ready
            (toc_with_document toc_sample_ready doc_243)) as Hlife.
  { eapply rtc_l; [apply (toc_document_changed _ doc_243)|].
    apply rtc_once. apply (toc_connected 1). vm_compute. reflexivity. }
  split; [split; [vm_compute; reflexivity|exact Hlife]|].
  apply (toc_ready_is_final toc_sample_ready
           (toc_with_document toc_sample_ready doc_243));
    [vm_compute; reflexivity|exact Hlife].
Defined.

(** ** The life of a sub-navigation *)

Local Set Warnings "-clear-no-such-hyp".

Lemma hasAttribute_true (attrs : gmap string string) (name : string) :
  hasAttribute attrs name = true ↔ is_Some (attrs !! name).
Proof. unfold hasAttribute. apply bool_decide_eq_true. Qed.

Lemma hasAttribute_false (attrs : gmap string string) (name : string) :
  hasAttribute attrs name = false ↔ attrs !! name = None.
Proof.
  unfold hasAttribute. rewrite bool_decide_eq_false, eq_None_not_Some. done.
Qed.

Lemma hasAttribute_insert (attrs : gmap string string) (k v : string) :
  hasAttribute (<[k := v]> attrs) k = true.
Proof. apply hasAttribute_true. rewrite lookup_insert_eq. by eexists. Qed.

Lemma hasAttribute_insert_ne (attrs : gmap string string) (k k' v : string) :
  k ≠ k' → hasAttribute (<[k := v]> attrs) k' = hasAttribute attrs k'.
Proof. intros. unfold hasAttribute. by rewrite lookup_insert_ne. Qed.

Lemma hasAttribute_delete_ne (attrs : gmap string string) (k k' : string) :
  k ≠ k' → hasAttribute (delete k attrs) k' = hasAttribute attrs k'.
Proof. intros. unfold hasAttribute. by rewrite lookup_delete_ne. Qed.

Ltac subnav_simpl :=
  cbn [sub_attrs sub_events listening has_details sub_set_attrs
       sub_set_listening sub_dispatch listen disconnectedCallback].

(** Over any life of a sub-navigation that starts not marked ready,
    without listeners and without events (connections, disconnections and
    changes of its content in any order): the ready notification is
    dispatched once if [is-ready] is set and never otherwise; the element
    listens to clicks exactly when it listens to key presses, and to
    nothing else; it listens only once it is ready; and when it is ready
    and not paused it does listen. *)
Theorem subnav_life_invariant (n0 n : Subnav) :
  hasAttribute (sub_attrs n0) "is-ready" = false →
  listening n0 = ∅ →
  sub_events n0 = [] →
  rtc subnav_step n0 n →
  dispatched "kelp-subnav:ready" (sub_events n) =
    (if hasAttribute (sub_attrs n) "is-ready" then 1 else 0) ∧
  ("click" ∈ listening n ↔ "keydown" ∈ listening n) ∧
  listening n ⊆ {["click"; "keydown"]} ∧
  ("click" ∈ listening n → hasAttribute (sub_attrs n) "is-ready" = true) ∧
  (hasAttribute (sub_attrs n) "is-ready" = true →
   hasAttribute (sub_attrs n) "is-paused" = false →
   "click" ∈ listening n).
Proof.
  intros Hready Hlisten Hev. revert n. apply rtc_ind_r.
  { rewrite Hready, Hlisten, Hev. repeat split; set_solver. }
  intros n1 n2 _ Hstep (Hcount & Hboth & Honly & Hlr & Hrl).
  destruct Hstep as [n1|n1|n1 b]; [| |done].
  - (* connected *)
    unfold subnav_init, reinit.
    destruct (hasAttribute (sub_attrs n1) "is-ready") eqn:Hr; cbn [negb].
    + destruct (hasAttribute (sub_attrs n1) "is-paused") eqn:Hp; cbn [negb].
      * subnav_simpl. rewrite hasAttribute_delete_ne, Hr by done.
        split; [done|]. set_solver.
      * rewrite Hr. tauto.
    + destruct (has_details n1); cbn [negb]; subnav_simpl.
      * rewrite dispatched_app, Hcount, hasAttribute_insert.
        split; [done|]. set_solver.
      * rewrite dispatched_app, Hcount, Hr. split; [done|].
        set_solver.
  - (* disconnected *)
    subnav_simpl. rewrite hasAttribute_insert_ne, hasAttribute_insert by done.
    split; [done|]. set_solver.
Qed.

Lemma subnav_life_invariant_witness :
  (hasAttribute (sub_attrs subnav_fresh) "is-ready" = false ∧
   listening subnav_fresh = ∅ ∧
   sub_events subnav_fresh = [] ∧
   rtc subnav_step subnav_fresh subnav_reconnected) ∧
  dispatched "kelp-subnav:ready" (sub_events subnav_reconnected) =
    (if hasAttribute (sub_attrs subnav_reconnected) "is-ready" then 1 else 0) ∧
  ("click" ∈ listening subnav_reconnected ↔
   "keydown" ∈ listening subnav_reconnected) ∧
  listening subnav_reconnected ⊆ {["click"; "keydown"]} ∧
  ("click" ∈ listening subnav_reconnected →
   hasAttribute (sub_attrs subnav_reconnected) "is-ready" = true) ∧
  (hasAttribute (sub_attrs subnav_reconnected) "is-ready" = true →
   hasAttribute (sub_attrs subnav_reconnected) "is-paused" = false →
   "click" ∈ listening subnav_reconnected).
Proof.
  assert (rtc subnav_step subnav_fresh subnav_reconnected) as Hlife.
  { eapply rtc_l; [apply subnav_connected|].
    eapply rtc_l; [apply subnav_disconnected|].
    apply rtc_once, subnav_connected. }
  split; [split; [reflexivity|split; [reflexivity|split; [reflexivity|exact Hlife]]]|].
  apply (subnav_life_invariant subnav_fresh subnav_reconnected);
    [reflexivity|reflexivity|reflexivity|exact Hlife].
Defined.

(** Disconnecting a sub-navigation removes both of its document
    listeners; connecting it again restores exactly the state it had: a
    ready, unpaused, listening sub-navigation survives a removal from and
    return to the document unchanged, and dispatches nothing. *)
Theorem subnav_reconnect_round_trip (n : Subnav) :
  hasAttribute (sub_attrs n) "is-ready" = true →
  hasAttribute (sub_attrs n) "is-paused" = false →
  "click" ∈ listening n → "keydown" ∈ listening n →
  ("click" ∉ listening (disconnectedCallback n)) ∧
  ("keydown" ∉ listening (disconnectedCallback n)) ∧
  hasAttribute (sub_attrs (disconnectedCallback n)) "is-paused" = true ∧
  subnav_init (disconnectedCallback n) = n.
Proof.
  intros Hr Hp Hc Hk. split; [cbn; set_solver|]. split; [cbn; set_solver|].
  assert (hasAttribute (sub_attrs (disconnectedCallback n)) "is-paused" = true)
    as Hp'.
  { apply hasAttribute_true. cbn. rewrite lookup_insert_eq. by eexists. }
  split; [done|].
  assert (hasAttribute (sub_attrs (disconnectedCallback n)) "is-ready" = true)
    as Hr'.
  { apply hasAttribute_true. cbn. rewrite lookup_insert_ne by done.
    by apply hasAttribute_true. }
  unfold subnav_init, reinit. rewrite Hr', Hp'. cbn [negb].
  destruct n as [attrs details ls evs]. cbn in *.
  apply hasAttribute_false in Hp.
  unfold sub_set_attrs, listen, sub_set_listening, disconnectedCallback.
  cbn. f_equal.
  - rewrite delete_insert_eq. by apply delete_id.
  - apply set_eq. intros x.
    destruct (decide (x = "click")) as [->|]; [set_solver|].
    destruct (decide (x = "keydown")) as [->|]; set_solver.
Qed.

Lemma subnav_reconnect_round_trip_witness :
  (hasAttribute (sub_attrs subnav_reconnected) "is-ready" = true ∧
   hasAttribute (sub_attrs subnav_reconnected) "is-paused" = false ∧
   "click" ∈ listening subnav_reconnected ∧
   "keydown" ∈ listening subnav_reconnected) ∧
  ("click" ∉ listening (disconnectedCallback subnav_reconnected)) ∧
  ("keydown" ∉ listening (disconnectedCallback subnav_reconnected)) ∧
  hasAttribute (sub_attrs (disconnectedCallback subnav_reconnected))
    "is-paused" = true ∧
  subnav_init (disconnectedCallback subnav_reconnected) = subnav_reconnected.
Proof.
  assert ("click" ∈ listening subnav_reconnected) as Hc by (vm_compute; set_solver).
  assert ("keydown" ∈ listening subnav_reconnected) as Hk by (vm_compute; set_solver).
  split; [split; [vm_compute; reflexivity|split;
                  [vm_compute; reflexivity|split; [exact Hc|exact Hk]]]|].
  apply (subnav_reconnect_round_trip subnav_reconnected);
    [vm_compute; reflexivity|vm_compute; reflexivity|exact Hc|exact Hk].
Defined.

(** ** Depths in nested mode, for every heading sequence *)

Lemma fmap_seq_ext {A} (f g : nat → A) (a n : nat) :
  (∀ j, a ≤ j < a + n → f j = g j) → f <$> seq a n = g <$> seq a n.
Proof.
  intros H. apply list_fmap_ext. intros i x [-> ?]%lookup_seq. apply H. lia.
Qed.

Lemma heading_rank_bounds (hs : list Element) (j : nat) :
  Forall (λ e, is_heading e = true) hs → j < length hs →
  1 ≤ rank_at (rank_of <$> hs) j ≤ 6.
Proof.
  intros Hall Hj. destruct (lookup_lt_is_Some_2 hs j Hj) as [e He].
  rewrite (rank_at_lookup _ _ _ He).
  assert (is_heading e = true) as Hh.
  { eapply Forall_forall in Hall; [done|]. by eapply list_elem_of_lookup_2. }
  unfold rank_of, level_of. heading_cases Hh; rewrite Hh; simpl; lia.
Qed.

Ltac split_le j i :=
  destruct (decide (j ≤ i));
  [ rewrite ?(bool_decide_eq_true_2 (j ≤ i)) by done
  | rewrite ?(bool_decide_eq_false_2 (j ≤ i)) by done ].

Lemma runs_local_depths (cfg : Config) (R : list nat) (isFirst : bool)
    (items : list Item) (s : St) (items' : list Item) (s' : St) :
  nested cfg = true →
  runs cfg isFirst items s items' s' →
  ranks (doc s) = R →
  Forall (λ e, is_heading e = true) (headings (doc s)) →
  index s < length R →
  ∀ d,
    (if isFirst then d = 1 else 1 ≤ d ≤ rank_at R (index s)) →
    ∃ new (Df : nat → nat), items' = items ++ new ∧
      flat_map (item_depths d) new =
      Df <$> seq (index s) (S (index s') `min` length R - index s) ∧
      Df (index s) = d ∧
      (∀ j, index s ≤ j < S (index s') `min` length R →
            d ≤ Df j ≤ rank_at R j) ∧
      (∀ j, index s ≤ j → S j < S (index s') `min` length R →
            depth_step (rank_at R j) (Df j) (rank_at R (S j)) (Df (S j))) ∧
      (isFirst = false → S (index s') < length R →
       rank_at R (S (index s')) < rank_at R (index s')).
Proof.
  intros Hnested.
  induction 1 as
    [ isFirst items s Hge
    | isFirst items s fuel d1 h Hlt Hset Hh Hopen Hstop
    | isFirst items s fuel d1 h items' s' Hlt Hset Hh Hopen Hstop Hrest IH
    | isFirst items s fuel d1 h l s2 Hlt Hset Hh Hopen Hchild IHc Hstop
    | isFirst items s fuel d1 h l s2 items' s' Hlt Hset Hh Hopen Hchild IHc
        Hstop Hrest IH ]; intros HR Hall Hidx d Hpre.
  - exfalso. apply Hge. rewrite <- HR in Hidx. unfold ranks in Hidx.
    by rewrite length_fmap in Hidx.
  - (* no nested list, break *)
    heading_facts Hset Hh Hall HR.
    rank_view Hstop HR1. apply andb_prop in Hstop as [HF Hstop].
    destruct isFirst; [done|]. clear HF.
    apply bool_decide_eq_true in Hstop as [? ?].
    cbn [index doc]. exists [Li (id h) (textContent h) None], (λ _, d).
    split; [done|].
    replace (S (index s) `min` length R - index s) with 1 by lia.
    split; [done|]. split; [done|]. split; [|split].
    + intros j ?. assert (j = index s) as -> by lia. lia.
    + intros j ? ?. lia.
    + intros _ _. lia.
  - (* no nested list, next iteration *)
    heading_facts Hset Hh Hall HR.
    rank_view Hopen HR1. rewrite Hnested in Hopen. simpl in Hopen.
    apply bool_decide_eq_false in Hopen.
    rank_view Hstop HR1.
    assert (1 ≤ d ≤ rank_at R (index s)) as Hd.
    { destruct isFirst; [|done]. subst d.
      pose proof (heading_rank_bounds _ (index s) Hall Hlt) as Hb.
      fold (ranks (doc s)) in Hb. rewrite HR in Hb. lia. }
    destruct (decide (index s + 1 < length R)) as [Hnext|Hlast].
    + destruct (IH HR1 Hall1 Hnext d)
        as (new & Df & -> & Hnew & Hd0 & Hbound & Hstep & Hpost).
      { cbn [index doc]. rewrite Nat.add_1_r. destruct isFirst; [done|].
        simpl in Hstop. apply bool_decide_eq_false in Hstop. lia. }
      apply runs_frame in Hrest as (Hle & _ & _). cbn [index doc] in *.
      rewrite Nat.add_1_r in *.
      eexists _, (λ j, if bool_decide (j ≤ index s) then d else Df j).
      split; [by rewrite <- app_assoc|]. split; [|split; [|split; [|split]]].
      * cbn [flat_map item_depths app]. rewrite Hnew.
        rewrite (seq_fmap_cons _ (index s)) by lia.
        rewrite bool_decide_eq_true_2 by lia. f_equal.
        apply fmap_seq_ext. intros j ?. by rewrite bool_decide_eq_false_2 by lia.
      * by rewrite bool_decide_eq_true_2 by lia.
      * intros j ?. split_le j (index s).
        -- assert (j = index s) as -> by lia. lia.
        -- apply Hbound. lia.
      * intros j ? ?. rewrite (bool_decide_eq_false_2 (S j ≤ index s)) by lia.
        split_le j (index s).
        -- assert (j = index s) as -> by lia. rewrite Hd0.
           destruct isFirst; simpl in Hstop;
             [|apply bool_decide_eq_false in Hstop];
             unfold depth_step; lia.
        -- apply Hstep; lia.
      * done.
    + apply runs_past_end in Hrest as [-> ->].
      2:{ cbn [index doc]. lia. }
      cbn [index doc]. exists [Li (id h) (textContent h) None], (λ _, d).
      split; [done|].
      replace (S (index s + 1) `min` length R - index s) with 1 by lia.
      split; [done|]. split; [done|]. split; [|split].
      * intros j ?. assert (j = index s) as -> by lia. lia.
      * intros j ? ?. lia.
      * intros _ ?. lia.
  - (* nested list, break *)
    heading_facts Hset Hh Hall HR.
    rank_view Hopen HR1. rewrite Hnested in Hopen. simpl in Hopen.
    apply bool_decide_eq_true in Hopen as [Hnext Hdeeper].
    assert (1 ≤ d ≤ rank_at R (index s)) as Hd.
    { destruct isFirst; [|done]. subst d.
      pose proof (heading_rank_bounds _ (index s) Hall Hlt) as Hb.
      fold (ranks (doc s)) in Hb. rewrite HR in Hb. lia. }
    destruct (IHc HR1 Hall1 ltac:(cbn [index doc]; lia) (S d))
      as (newc & Dfc & Hl & Hnewc & Hc0 & Hboundc & Hstepc & Hpostc).
    { cbn [index doc]. rewrite Nat.add_1_r. lia. }
    simpl in Hl. subst l. specialize (Hpostc eq_refl).
    destruct (runs_ranks _ _ _ _ _ _ Hchild Hall1) as [HR2 Hall2].
    cbn [index doc] in *. rewrite HR1 in HR2.
    apply runs_frame in Hchild as (Hle & _ & _). cbn [index doc] in *.
    rank_view Hstop HR2. apply andb_prop in Hstop as [HF Hstop].
    destruct isFirst; [done|]. clear HF.
    apply bool_decide_eq_true in Hstop as [? ?].
    rewrite Nat.add_1_r in *.
    eexists _, (λ j, if bool_decide (j ≤ index s) then d else Dfc j).
    split; [done|]. split; [|split; [|split; [|split]]].
    + cbn [flat_map item_depths app].
      rewrite wrap_list_nested_depths, Hnewc, app_nil_r.
      rewrite (seq_fmap_cons _ (index s)) by lia.
      rewrite bool_decide_eq_true_2 by lia. f_equal.
      apply fmap_seq_ext. intros j ?. by rewrite bool_decide_eq_false_2 by lia.
    + by rewrite bool_decide_eq_true_2 by lia.
    + intros j ?. split_le j (index s).
      * assert (j = index s) as -> by lia. lia.
      * specialize (Hboundc j ltac:(lia)). lia.
    + intros j ? ?. rewrite (bool_decide_eq_false_2 (S j ≤ index s)) by lia.
      split_le j (index s).
      * assert (j = index s) as -> by lia. rewrite Hc0.
        unfold depth_step; lia.
      * apply Hstepc; lia.
    + intros _ ?. by apply Hpostc.
  - (* nested list, next iteration *)
    heading_facts Hset Hh Hall HR.
    rank_view Hopen HR1. rewrite Hnested in Hopen. simpl in Hopen.
    apply bool_decide_eq_true in Hopen as [Hnext Hdeeper].
    assert (1 ≤ d ≤ rank_at R (index s)) as Hd.
    { destruct isFirst; [|done]. subst d.
      pose proof (heading_rank_bounds _ (index s) Hall Hlt) as Hb.
      fold (ranks (doc s)) in Hb. rewrite HR in Hb. lia. }
    destruct (IHc HR1 Hall1 ltac:(cbn [index doc]; lia) (S d))
      as (newc & Dfc & Hl & Hnewc & Hc0 & Hboundc & Hstepc & Hpostc).
    { cbn [index doc]. rewrite Nat.add_1_r. lia. }
    simpl in Hl. subst l. specialize (Hpostc eq_refl).
    destruct (runs_ranks _ _ _ _ _ _ Hchild Hall1) as [HR2 Hall2].
    cbn [index doc] in *. rewrite HR1 in HR2.
    pose proof (f_equal length HR2) as Hlen2.
    unfold ranks in Hlen2. rewrite length_fmap in Hlen2.
    apply runs_frame in Hchild as (Hle & _ & _). cbn [index doc] in *.
    rank_view Hstop HR2. rewrite Nat.add_1_r in *.
    destruct (decide (S (index s2) < length R)) as [Hmore|Hend].
    + specialize (Hpostc Hmore).
      destruct (IH HR2 Hall2 ltac:(simpl; lia) d)
        as (new & Df & -> & Hnew & Hd0 & Hbound & Hstep & Hpost).
      { cbn [index doc set_index]. destruct isFirst; [done|].
        simpl in Hstop. apply bool_decide_eq_false in Hstop. lia. }
      apply runs_frame in Hrest as (Hle' & _ & _).
      cbn [index doc set_index] in *.
      eexists _, (λ j, if bool_decide (j ≤ index s) then d
                       else if bool_decide (j ≤ index s2) then Dfc j else Df j).
      split; [by rewrite <- app_assoc|]. split; [|split; [|split; [|split]]].
      * cbn [flat_map item_depths app].
        rewrite wrap_list_nested_depths, Hnewc, Hnew.
        rewrite (seq_fmap_cons _ (index s)) by lia.
        rewrite bool_decide_eq_true_2 by lia. f_equal.
        replace (S (index s2) `min` length R) with (S (index s2)) by lia.
        rewrite (seq_fmap_split _ (S (index s)) (S (index s2))
                   (S (index s') `min` length R)) by lia.
        f_equal; apply fmap_seq_ext; intros j ?.
        -- rewrite bool_decide_eq_false_2 by lia.
           by rewrite bool_decide_eq_true_2 by lia.
        -- rewrite bool_decide_eq_false_2 by lia.
           by rewrite bool_decide_eq_false_2 by lia.
      * by rewrite bool_decide_eq_true_2 by lia.
      * intros j ?. split_le j (index s); [|split_le j (index s2)].
        -- assert (j = index s) as -> by lia. lia.
        -- specialize (Hboundc j ltac:(lia)). lia.
        -- apply Hbound. lia.
      * intros j ? ?. rewrite (bool_decide_eq_false_2 (S j ≤ index s)) by lia.
        destruct (decide (j = index s)) as [->|].
        { rewrite bool_decide_eq_true_2 by lia.
          rewrite bool_decide_eq_true_2 by lia. rewrite Hc0.
          unfold depth_step; lia. }
        rewrite bool_decide_eq_false_2 by lia.
        destruct (decide (j = index s2)) as [->|].
        { rewrite bool_decide_eq_true_2 by lia.
          rewrite bool_decide_eq_false_2 by lia. rewrite Hd0.
          specialize (Hboundc (index s2) ltac:(lia)).
          unfold depth_step; lia. }
        destruct (decide (j < index s2)).
        { rewrite !bool_decide_eq_true_2 by lia. apply Hstepc; lia. }
        rewrite !bool_decide_eq_false_2 by lia. apply Hstep; lia.
      * done.
    + apply runs_past_end in Hrest as [-> ->].
      2:{ cbn [index doc set_index]. lia. }
      cbn [index doc set_index].
      eexists _, (λ j, if bool_decide (j ≤ index s) then d else Dfc j).
      split; [done|]. split; [|split; [|split; [|split]]].
      * cbn [flat_map item_depths app].
        rewrite wrap_list_nested_depths, Hnewc, app_nil_r.
        rewrite (seq_fmap_cons _ (index s)) by lia.
        rewrite bool_decide_eq_true_2 by lia. f_equal.
        replace (S (S (index s2)) `min` length R)
          with (S (index s2) `min` length R) by lia.
        apply fmap_seq_ext. intros j ?. by rewrite bool_decide_eq_false_2 by lia.
      * by rewrite bool_decide_eq_true_2 by lia.
      * intros j ?. split_le j (index s).
        -- assert (j = index s) as -> by lia. lia.
        -- specialize (Hboundc j ltac:(lia)). lia.
      * intros j ? ?. rewrite (bool_decide_eq_false_2 (S j ≤ index s)) by lia.
        split_le j (index s).
        -- assert (j = index s) as -> by lia. rewrite Hc0.
           unfold depth_step; lia.
        -- apply Hstepc; lia.
      * intros _ ?. lia.
Qed.

Lemma createList_first_local (cfg : Config) (d : Document) (i k : nat) :
  nested cfg = true →
  Forall (λ e, is_heading e = true) (headings d) →
  ∃ m s' (Df : nat → nat),
    createList cfg (enough_fuel d + k) true (mkSt d i) = Some (m, s') ∧
    markup_depths 1 m = Df <$> seq 0 (length (headings d)) ∧
    Df 0 = 1 ∧
    (∀ j, j < length (headings d) → 1 ≤ Df j ≤ rank_at (ranks d) j) ∧
    (∀ j, S j < length (headings d) →
          depth_step (rank_at (ranks d) j) (Df j)
            (rank_at (ranks d) (S j)) (Df (S j))).
Proof.
  intros Hnested Hall.
  destruct (createList_total cfg true (mkSt d i) k) as [[m s'] Hcl].
  cbn [doc] in Hcl. exists m, s'.
  pose proof Hcl as (items & -> & Hruns)%createList_runs.
  pose proof (runs_first_exhausts _ _ _ _ _ Hruns) as Hend.
  pose proof (runs_frame _ _ _ _ _ _ Hruns) as (_ & Hev & _).
  apply evolves_length in Hev. cbn [set_index doc index] in *.
  assert (length (ranks d) = length (headings d)) as Hlen
    by (unfold ranks; by rewrite length_fmap).
  destruct (decide (0 < length (headings d))) as [Hne|Hempty].
  - destruct (runs_local_depths cfg (ranks d) _ _ _ _ _ Hnested Hruns)
      with (d := 1) as (new & Df & Hnew & Hdepths & Hd0 & Hbound & Hstep & _);
      try done.
    + cbn [set_index index]. lia.
    + cbn [app set_index index] in *. subst new.
      exists Df. split; [done|]. rewrite wrap_list_depths, Hdepths.
      replace (S (index s') `min` length (ranks d) - 0)
        with (length (headings d)) by lia.
      split; [done|]. split; [done|]. split.
      * intros j ?. apply Hbound. lia.
      * intros j ?. apply Hstep; lia.
  - apply runs_past_end in Hruns as [-> _].
    2:{ cbn [set_index doc index]. lia. }
    exists (λ _, 1). split; [done|]. rewrite wrap_list_depths.
    replace (length (headings d)) with 0 by lia.
    split; [done|]. split; [done|]. split; intros; lia.
Qed.

(** In nested mode, whatever the order of the ranks, the entry of an
    [h1]..[h6] heading of rank [r] lies at a depth between 1 and [r]: the
    tree of lists is never deeper than six levels, and never deeper than
    the greatest rank present. *)
Theorem nested_depth_at_most_rank (cfg : Config) (d : Document) (i k : nat) :
  nested cfg = true →
  Forall (λ e, is_heading e = true) (headings d) →
  ∃ m s',
    createList cfg (enough_fuel d + k) true (mkSt d i) = Some (m, s') ∧
    length (markup_depths 1 m) = length (headings d) ∧
    ∀ j dj, markup_depths 1 m !! j = Some dj →
            1 ≤ dj ≤ rank_at (ranks d) j ∧ rank_at (ranks d) j ≤ 6.
Proof.
  intros Hnested Hall.
  destruct (createList_first_local cfg d i k Hnested Hall)
    as (m & s' & Df & Hcl & HD & _ & Hbound & _).
  exists m, s'. split; [done|]. rewrite HD, length_fmap, length_seq.
  split; [done|]. intros j dj Hj.
  apply list_lookup_fmap_Some in Hj as (j' & -> & [-> ?]%lookup_seq).
  split; [apply Hbound; lia|].
  by apply heading_rank_bounds.
Qed.

Lemma nested_depth_at_most_rank_witness :
  (nested cfg_nested = true ∧
   Forall (λ e, is_heading e = true) (headings doc_243)) ∧
  ∃ m s',
    createList cfg_nested (enough_fuel doc_243 + 0) true (mkSt doc_243 0)
      = Some (m, s') ∧
    length (markup_depths 1 m) = length (headings doc_243) ∧
    ∀ j dj, markup_depths 1 m !! j = Some dj →
            1 ≤ dj ≤ rank_at (ranks doc_243) j ∧ rank_at (ranks doc_243) j ≤ 6.
Proof.
  assert (Forall (λ e, is_heading e = true) (headings doc_243)) as Hall
    by (repeat constructor).
  split; [split; [reflexivity|exact Hall]|].
  apply (nested_depth_at_most_rank cfg_nested doc_243 0 0);
    [reflexivity|exact Hall].
Defined.

(** In nested mode, for every sequence of [h1]..[h6] headings, the first
    entry lies at depth 1 and the depth of every other entry follows from
    the entry before it by comparing the two ranks: a heading of greater
    rank lies exactly one level deeper (also when the rank rises by more
    than one), a heading of the same rank lies at the same depth, and a
    heading of smaller rank lies no deeper. *)
Theorem nested_depth_follows_adjacent_ranks (cfg : Config) (d : Document)
    (i k : nat) :
  nested cfg = true →
  Forall (λ e, is_heading e = true) (headings d) →
  ∃ m s',
    createList cfg (enough_fuel d + k) true (mkSt d i) = Some (m, s') ∧
    (headings d ≠ [] → markup_depths 1 m !! 0 = Some 1) ∧
    ∀ j dj dj',
      markup_depths 1 m !! j = Some dj →
      markup_depths 1 m !! S j = Some dj' →
      depth_step (rank_at (ranks d) j) dj (rank_at (ranks d) (S j)) dj'.
Proof.
  intros Hnested Hall.
  destruct (createList_first_local cfg d i k Hnested Hall)
    as (m & s' & Df & Hcl & HD & Hd0 & _ & Hstep).
  exists m, s'. split; [done|]. rewrite HD. split.
  - intros Hne. destruct (headings d); [done|]. simpl. by rewrite Hd0.
  - intros j dj dj' Hj Hj'.
    apply list_lookup_fmap_Some in Hj as (? & -> & [-> ?]%lookup_seq).
    apply list_lookup_fmap_Some in Hj' as (? & -> & [-> ?]%lookup_seq).
    by apply Hstep.
Qed.

Lemma nested_depth_follows_adjacent_ranks_witness :
  (nested cfg_nested = true ∧
   Forall (λ e, is_heading e = true) (headings doc_243)) ∧
  ∃ m s',
    createList cfg_nested (enough_fuel doc_243 + 0) true (mkSt doc_243 0)
      = Some (m, s') ∧
    (headings doc_243 ≠ [] → markup_depths 1 m !! 0 = Some 1) ∧
    ∀ j dj dj',
      markup_depths 1 m !! j = Some dj →
      markup_depths 1 m !! S j = Some dj' →
      depth_step (rank_at (ranks doc_243) j) dj
        (rank_at (ranks doc_243) (S j)) dj'.
Proof.
  assert (Forall (λ e, is_heading e = true) (headings doc_243)) as Hall
    by (repeat constructor).
  split; [split; [reflexivity|exact Hall]|].
  apply (nested_depth_follows_adjacent_ranks cfg_nested doc_243 0 0);
    [reflexivity|exact Hall].
Defined.

(** ** Closing sub-navigations *)

Lemma elem_of_querySelectorAll (sel : nat → Details → bool) (dom : NavDom)
    (i : nat) :
  i ∈ querySelectorAll sel dom ↔
  ∃ dt, details dom !! i = Some dt ∧ sel i dt = true.
Proof.
  unfold querySelectorAll. rewrite list_elem_of_filter, elem_of_seq. split.
  - intros [Hsel _]. destruct (details dom !! i) as [dt|]; [|done].
    by exists dt.
  - intros (dt & Hdt & Hsel). rewrite Hdt. split; [done|].
    apply lookup_lt_Some in Hdt. lia.
Qed.

Lemma close_close (dt : Details) : close (close dt) = close dt.
Proof. done. Qed.

Lemma close_closed (dt : Details) : open dt = false → close dt = dt.
Proof. destruct dt as [o ?]. simpl. by intros ->. Qed.

(** The loop of [#onClick] closes the selected elements and nothing
    else. *)
Lemma foldl_removeAttribute_open (navs : list nat) (dom : NavDom) :
  focus (foldl removeAttribute_open dom navs) = focus dom ∧
  ∀ i, details (foldl removeAttribute_open dom navs) !! i =
       (if bool_decide (i ∈ navs) then close else λ dt, dt) <$> details dom !! i.
Proof.
  revert dom. induction navs as [|a navs IH]; intros dom.
  - split; [done|]. intros i. simpl. by destruct (details dom !! i).
  - cbn [foldl]. destruct (IH (removeAttribute_open dom a)) as [Hf Hd].
    split; [by rewrite Hf|]. intros i. rewrite Hd. cbn [removeAttribute_open details].
    destruct (decide (i = a)) as [->|Hne].
    + rewrite list_lookup_alter_eq, (bool_decide_eq_true_2 (a ∈ a :: navs))
        by set_solver.
      destruct (details dom !! a); [|done]. simpl.
      by destruct (bool_decide (a ∈ navs)).
    + rewrite list_lookup_alter_ne by done.
      destruct (decide (i ∈ navs)).
      * by rewrite !bool_decide_eq_true_2 by set_solver.
      * by rewrite !bool_decide_eq_false_2 by set_solver.
Qed.

Lemma onClick_spec (dom : NavDom) :
  onClick dom =
  {| details := imap (λ i dt, if focus_within (focus dom) i then dt
                             else close dt) (details dom);
     focus := focus dom |}.
Proof.
  unfold onClick.
  destruct (foldl_removeAttribute_open
              (querySelectorAll
                 (λ i dt, open dt && negb (focus_within (focus dom) i)) dom)
              dom) as [Hf Hd].
  destruct (foldl _ _ _) as [ds f]. simpl in *. subst f. f_equal.
  apply list_eq. intros i. rewrite Hd, list_lookup_imap.
  destruct (details dom !! i) as [dt|] eqn:Hdt; [|done]. simpl. f_equal.
  case_bool_decide as Hsel.
  - apply elem_of_querySelectorAll in Hsel as (dt' & Hdt' & Hsel).
    rewrite Hdt in Hdt'. injection Hdt' as <-.
    apply andb_prop in Hsel as [_ Hsel].
    by destruct (focus_within (focus dom) i).
  - destruct (focus_within (focus dom) i) eqn:Hfw; [done|].
    destruct (open dt) eqn:Hopen; [|by rewrite close_closed].
    exfalso. apply Hsel, elem_of_querySelectorAll. exists dt.
    by rewrite Hopen, Hfw.
Qed.

(** The loop of [#onKeydown] closes the selected elements and moves the
    focus to the summary of the selected element that holds it. *)
Lemma foldl_close_and_refocus (navs : list nat) (dom : NavDom) :
  (∀ i, details (foldl close_and_refocus dom navs) !! i =
        (if bool_decide (i ∈ navs) then close else λ dt, dt) <$> details dom !! i) ∧
  focus (foldl close_and_refocus dom navs) =
  match focus dom with
  | focus_summary i | focus_inside i =>
      if bool_decide (i ∈ navs) &&
         from_option has_summary false (details dom !! i)
      then focus_summary i else focus dom
  | f => f
  end.
Proof.
  revert dom. induction navs as [|a navs IH]; intros dom.
  - split.
    + intros i. simpl. by destruct (details dom !! i).
    + simpl. by destruct (focus dom).
  - cbn [foldl]. destruct (IH (close_and_refocus dom a)) as [Hd Hf].
    assert (details (close_and_refocus dom a) = alter close a (details dom))
      as Hda.
    { unfold close_and_refocus. destruct (has_focus _ _); [|done].
      destruct (_ !! a) as [dt|]; [|done]. by destruct (has_summary dt). }
    assert (∀ i, from_option has_summary false
                   (details (close_and_refocus dom a) !! i) =
                 from_option has_summary false (details dom !! i)) as Hsum.
    { intros i. rewrite Hda. destruct (decide (i = a)) as [->|].
      - rewrite list_lookup_alter_eq. by destruct (details dom !! a).
      - by rewrite list_lookup_alter_ne. }
    split.
    + intros i. rewrite Hd, Hda.
      destruct (decide (i = a)) as [->|Hne].
      * rewrite list_lookup_alter_eq, (bool_decide_eq_true_2 (a ∈ a :: navs))
          by set_solver.
        destruct (details dom !! a); [|done]. simpl.
        by destruct (bool_decide (a ∈ navs)).
      * rewrite list_lookup_alter_ne by done.
        destruct (decide (i ∈ navs)).
        -- by rewrite !bool_decide_eq_true_2 by set_solver.
        -- by rewrite !bool_decide_eq_false_2 by set_solver.
    + rewrite Hf. clear Hf Hd.
      assert (focus (close_and_refocus dom a) =
              if has_focus (focus dom) a &&
                 from_option has_summary false (details dom !! a)
              then focus_summary a else focus dom) as ->.
      { unfold close_and_refocus. destruct (has_focus _ _); [|done].
        cbn [removeAttribute_open details focus andb].
        rewrite list_lookup_alter_eq. destruct (details dom !! a) as [dt|]; [|done].
        simpl. by destruct (has_summary dt). }
      destruct (focus dom) as [|k|k|k] eqn:Hfoc; cbn [has_focus andb]; try done.
      * destruct (decide (k = a)) as [->|Hne].
        -- rewrite (bool_decide_eq_true_2 (a = a)) by done. cbn [andb].
           rewrite (bool_decide_eq_true_2 (a ∈ a :: navs)) by set_solver.
           cbn [andb].
           destruct (from_option has_summary false (details dom !! a)) eqn:Hs.
           ++ rewrite Hsum, Hs. by destruct (bool_decide _).
           ++ rewrite Hsum, Hs. by rewrite andb_false_r.
        -- rewrite (bool_decide_eq_false_2 (k = a)) by done. cbn [andb].
           rewrite Hsum.
           destruct (decide (k ∈ navs)).
           ++ by rewrite !bool_decide_eq_true_2 by set_solver.
           ++ by rewrite !bool_decide_eq_false_2 by set_solver.
      * destruct (decide (k = a)) as [->|Hne].
        -- rewrite (bool_decide_eq_true_2 (a = a)) by done. cbn [andb].
           rewrite (bool_decide_eq_true_2 (a ∈ a :: navs)) by set_solver.
           cbn [andb].
           destruct (from_option has_summary false (details dom !! a)) eqn:Hs.
           ++ rewrite Hsum, Hs. by destruct (bool_decide _).
           ++ rewrite Hsum, Hs. by rewrite andb_false_r.
        -- rewrite (bool_decide_eq_false_2 (k = a)) by done. cbn [andb].
           rewrite Hsum.
           destruct (decide (k ∈ navs)).
           ++ by rewrite !bool_decide_eq_true_2 by set_solver.
           ++ by rewrite !bool_decide_eq_false_2 by set_solver.
Qed.

Lemma escape_spec (type : string) (dom : NavDom) :
  onKeydown (KeyboardEvent type "Escape") dom =
  {| details := close <$> details dom; focus := focus_after_escape dom |}.
Proof.
  unfold onKeydown. rewrite bool_decide_eq_false_2 by (by intros []).
  destruct (foldl_close_and_refocus
              (querySelectorAll (λ _ dt, open dt) dom) dom) as [Hd Hf].
  destruct (foldl _ _ _) as [ds f]. simpl in *. f_equal.
  - apply list_eq. intros i. rewrite Hd, list_lookup_fmap.
    destruct (details dom !! i) as [dt|] eqn:Hdt; [|done]. simpl. f_equal.
    case_bool_decide as Hsel; [done|].
    destruct (open dt) eqn:Hopen; [|by rewrite close_closed].
    exfalso. apply Hsel, elem_of_querySelectorAll. by exists dt.
  - rewrite Hf. unfold focus_after_escape.
    assert (∀ k, bool_decide (k ∈ querySelectorAll (λ _ dt, open dt) dom) &&
                 from_option has_summary false (details dom !! k) =
                 match details dom !! k with
                 | Some dt => open dt && has_summary dt
                 | None => false
                 end) as Hk.
    { intros k. destruct (details dom !! k) as [dt|] eqn:Hdt.
      - simpl. destruct (open dt) eqn:Hopen.
        + rewrite bool_decide_eq_true_2; [done|].
          apply elem_of_querySelectorAll. by exists dt.
        + rewrite bool_decide_eq_false_2; [done|].
          intros (dt' & Hdt' & Hsel)%elem_of_querySelectorAll. congruence.
      - by rewrite andb_false_r. }
    destruct (focus dom) as [|k|k|k]; try done; rewrite Hk;
      by destruct (details dom !! k).
Qed.

Lemma handleEvent_click (e : DomEvent) (dom : NavDom) :
  event_type e = "click" → handleEvent e dom = onClick dom.
Proof. intros He. unfold handleEvent. by rewrite bool_decide_eq_true_2. Qed.

Lemma handleEvent_escape (type : string) (dom : NavDom) :
  type ≠ "click" →
  handleEvent (KeyboardEvent type "Escape") dom =
  onKeydown (KeyboardEvent type "Escape") dom.
Proof. intros Hty. unfold handleEvent. by rewrite bool_decide_eq_false_2. Qed.

Lemma handleEvent_cases (e : DomEvent) (dom : NavDom) :
  handleEvent e dom = dom ∨
  (event_type e = "click" ∧ handleEvent e dom = onClick dom) ∨
  (∃ type, type ≠ "click" ∧ e = KeyboardEvent type "Escape").
Proof.
  unfold handleEvent. case_bool_decide as Hty; [by right; left|].
  destruct e as [type key|type]; [|by left]. simpl.
  destruct (decide (key = "Escape")) as [->|Hkey].
  - right; right. by exists type.
  - left. by rewrite bool_decide_eq_true_2.
Qed.

Lemma onClick_idempotent (dom : NavDom) : onClick (onClick dom) = onClick dom.
Proof.
  rewrite !onClick_spec. cbn [details focus]. f_equal.
  apply list_eq. intros i. rewrite !list_lookup_imap.
  destruct (details dom !! i) as [dt|]; [|done]. simpl.
  by destruct (focus_within (focus dom) i).
Qed.

Lemma escape_idempotent (type : string) (dom : NavDom) :
  onKeydown (KeyboardEvent type "Escape")
    (onKeydown (KeyboardEvent type "Escape") dom) =
  onKeydown (KeyboardEvent type "Escape") dom.
Proof.
  rewrite !escape_spec. cbn [details focus]. f_equal.
  - rewrite <- list_fmap_compose. by apply list_fmap_ext.
  - unfold focus_after_escape at 1. cbn [details focus].
    destruct (focus_after_escape dom) as [|k|k|k]; try done;
      rewrite list_lookup_fmap; by destruct (details dom !! k).
Qed.

Lemma focus_within_after_escape (dom : NavDom) (i : nat) :
  focus_within (focus_after_escape dom) i = focus_within (focus dom) i.
Proof.
  unfold focus_after_escape.
  destruct (focus dom) as [|k|k|k]; try done;
    destruct (details dom !! k) as [dt|]; try done;
    by destruct (open dt && has_summary dt).
Qed.

(** Whatever the event, [handleEvent] only closes: every [details]
    element that is open afterwards was open before and is unchanged, none
    is added or removed, and the focus stays within the element that held
    it; handling the same event a second time changes nothing more. *)
Theorem handleEvent_only_closes (e : DomEvent) (dom : NavDom) :
  Forall2 (λ dt dt', has_summary dt' = has_summary dt ∧
                     (open dt' = true → dt' = dt))
    (details dom) (details (handleEvent e dom)) ∧
  (∀ i, focus_within (focus (handleEvent e dom)) i =
        focus_within (focus dom) i) ∧
  handleEvent e (handleEvent e dom) = handleEvent e dom.
Proof.
  destruct (handleEvent_cases e dom)
    as [Hsame|[[Hty Hclick]|(type & Hty & ->)]].
  - rewrite !Hsame. split; [|done].
    apply Forall2_same_length_lookup. split; [done|].
    intros i dt dt' H1 H2. rewrite H1 in H2. by injection H2 as <-.
  - split; [|split].
    + rewrite Hclick, onClick_spec. cbn [details].
      apply Forall2_same_length_lookup. split; [by rewrite length_imap|].
      intros i dt dt' H1 H2. rewrite list_lookup_imap, H1 in H2.
      injection H2 as <-. by destruct (focus_within (focus dom) i).
    + intros i. by rewrite Hclick, onClick_spec.
    + rewrite (handleEvent_click e (handleEvent e dom) Hty), Hclick.
      apply onClick_idempotent.
  - rewrite !(handleEvent_escape type) by done. split; [|split].
    + rewrite escape_spec. cbn [details].
      apply Forall2_same_length_lookup. split; [by rewrite length_fmap|].
      intros i dt dt' H1 H2. rewrite list_lookup_fmap, H1 in H2.
      by injection H2 as <-.
    + intros i. rewrite escape_spec. apply focus_within_after_escape.
    + apply escape_idempotent.
Qed.

(** A click closes every open [details] element of the sub-navigation
    except the one that holds the focus, which is left as it is; the focus
    does not move. *)
Theorem click_closes_what_is_not_focused (e : DomEvent) (dom : NavDom) :
  event_type e = "click" →
  focus (handleEvent e dom) = focus dom ∧
  length (details (handleEvent e dom)) = length (details dom) ∧
  ∀ i dt, details dom !! i = Some dt →
    details (handleEvent e dom) !! i =
    Some (if focus_within (focus dom) i then dt else close dt).
Proof.
  intros Hty. rewrite (handleEvent_click e dom Hty), onClick_spec.
  cbn [details focus]. split; [done|]. split; [by rewrite length_imap|].
  intros i dt Hdt. by rewrite list_lookup_imap, Hdt.
Qed.

Lemma click_closes_what_is_not_focused_witness :
  event_type (OtherEvent "click") = "click" ∧
  focus (handleEvent (OtherEvent "click") nav_sample) = focus nav_sample ∧
  length (details (handleEvent (OtherEvent "click") nav_sample)) =
    length (details nav_sample) ∧
  ∀ i dt, details nav_sample !! i = Some dt →
    details (handleEvent (OtherEvent "click") nav_sample) !! i =
    Some (if focus_within (focus nav_sample) i then dt else close dt).
Proof.
  split; [reflexivity|].
  apply (click_closes_what_is_not_focused (OtherEvent "click") nav_sample).
  reflexivity.
Defined.

(** A key event that is not of type [click]: the Escape key closes every
    [details] element of the sub-navigation, and when the focus was inside
    an open one that holds a summary, it moves to that summary, else it
    stays where it was; any other key changes nothing, and neither does an
    event that is not a keyboard event. *)
Theorem escape_closes_every_subnav (type : string) (dom : NavDom) :
  type ≠ "click" →
  details (handleEvent (KeyboardEvent type "Escape") dom) =
    close <$> details dom ∧
  focus (handleEvent (KeyboardEvent type "Escape") dom) =
    focus_after_escape dom ∧
  (∀ key, key ≠ "Escape" → handleEvent (KeyboardEvent type key) dom = dom) ∧
  handleEvent (OtherEvent type) dom = dom.
Proof.
  intros Hty. rewrite (handleEvent_escape type dom Hty), escape_spec.
  split; [done|]. split; [done|]. unfold handleEvent. cbn [event_type].
  rewrite bool_decide_eq_false_2 by done. split; [|done].
  intros key Hkey. simpl. by rewrite bool_decide_eq_true_2.
Qed.

Lemma escape_closes_every_subnav_witness :
  "keydown" ≠ "click" ∧
  details (handleEvent (KeyboardEvent "keydown" "Escape") nav_sample) =
    close <$> details nav_sample ∧
  focus (handleEvent (KeyboardEvent "keydown" "Escape") nav_sample) =
    focus_after_escape nav_sample ∧
  (∀ key, key ≠ "Escape" →
          handleEvent (KeyboardEvent "keydown" key) nav_sample = nav_sample) ∧
  handleEvent (OtherEvent "keydown") nav_sample = nav_sample.
Proof.
  split; [discriminate|].
  apply (escape_closes_every_subnav "keydown" nav_sample). discriminate.
Defined.

Example escape_on_sample :
  handleEvent (KeyboardEvent "keydown" "Escape") nav_sample =
  {| details := [mkDetails false true; mkDetails false true;
                 mkDetails false true];
     focus := focus_summary 1 |} ∧
  handleEvent (OtherEvent "click") nav_sample =
  {| details := [mkDetails false true; mkDetails true true;
                 mkDetails false true];
     focus := focus_inside 1 |}.
Proof. split; reflexivity. Qed.

(** ** Where the links lead *)

Lemma assigned_ids_split (d : Document) :
  Forall (λ h, id h ≠ EmptyString) (headings d) →
  assigned_ids d =
  (id <$> headings d) ++ filter (λ s, s ≠ EmptyString) (id <$> others d).
Proof.
  intros Hall. unfold assigned_ids, all_ids.
  change (map id ?l) with (id <$> l). rewrite fmap_app, filter_app. f_equal.
  induction Hall as [|h hs Hh _ IH]; [done|].
  rewrite fmap_cons, filter_cons_True by done. by rewrite IH.
Qed.

(** When the identifiers set in the document are pairwise distinct and
    every matching heading has an identifier or some text, the links of
    the table of contents lead where they should: in the document the
    builder leaves behind, every heading has an identifier, the entries
    link to these identifiers in order, the links are pairwise distinct,
    and no other element of the document carries an identifier that a link
    uses. *)
Theorem links_lead_to_their_headings (cfg : Config) (d : Document)
    (i k : nat) :
  NoDup (assigned_ids d) →
  Forall (λ h, id h ≠ EmptyString ∨ textContent h ≠ EmptyString)
    (headings d) →
  ∃ m s',
    createList cfg (enough_fuel d + k) true (mkSt d i) = Some (m, s') ∧
    (markup_entries m).*1 = id <$> headings (doc s') ∧
    Forall (λ href, href ≠ EmptyString) (markup_entries m).*1 ∧
    NoDup (markup_entries m).*1 ∧
    others (doc s') = others d ∧
    ∀ href o, href ∈ (markup_entries m).*1 → o ∈ others d → id o ≠ href.
Proof.
  intros Hnodup Hnamed.
  destruct (createList_total cfg true (mkSt d i) k) as [[m s'] Hcl].
  cbn [doc] in Hcl. exists m, s'. split; [done|].
  pose proof (createList_first_settles _ _ _ _ _ Hcl) as Hsettled.
  destruct (createList_first_entries _ _ _ _ _ Hcl) as [Hent Hev].
  cbn [doc] in Hev.
  assert (NoDup (assigned_ids (doc s'))) as Hnodup'.
  { apply createList_runs in Hcl as (items & _ & Hruns).
    eapply (runs_invariant (λ d, NoDup (assigned_ids d))) in Hruns;
      [done| |done].
    intros fuel d1 j d2 ? ?. by eapply setTextAsID_unique. }
  assert (Forall (λ h, id h ≠ EmptyString) (headings (doc s'))) as Hids.
  { apply Forall_forall. intros h' [j Hj]%list_elem_of_lookup.
    destruct Hev as [_ Hkeeps].
    destruct (Forall2_lookup_r _ _ _ _ _ Hkeeps Hj) as (h & Hh & _ & Htext & Hid).
    assert (id h ≠ EmptyString ∨ textContent h ≠ EmptyString) as [Hi|Ht].
    { eapply Forall_forall in Hnamed; [done|]. by eapply list_elem_of_lookup_2. }
    - rewrite (Hid Hi). done.
    - intros Hempty.
      assert (settled h' = true) as Hs.
      { eapply Forall_forall in Hsettled; [done|].
        by eapply list_elem_of_lookup_2. }
      unfold settled in Hs. rewrite Hempty in Hs. cbn in Hs.
      apply negb_true_iff in Hs. apply truthy_false in Hs.
      apply (proj1 (text_to_id_empty _)) in Hs. congruence. }
  assert ((markup_entries m).*1 = id <$> headings (doc s')) as Hhrefs.
  { rewrite Hent, <- list_fmap_compose. done. }
  rewrite Hhrefs. split; [done|].
  rewrite (assigned_ids_split _ Hids) in Hnodup'.
  apply NoDup_app in Hnodup' as (Hnd & Hdisj & _).
  destruct Hev as [Hoth _]. split; [|split; [done|split; [done|]]].
  - apply Forall_fmap. eapply Forall_impl; [done|]. done.
  - intros href o Hhref Ho Heq. apply (Hdisj href Hhref).
    apply list_elem_of_filter. split.
    + apply list_elem_of_fmap in Hhref as (h & -> & Hh).
      eapply Forall_forall in Hids; done.
    + rewrite <- Heq, Hoth. by apply list_elem_of_fmap_2.
Qed.

Lemma links_lead_to_their_headings_witness :
  (NoDup (assigned_ids doc_23432) ∧
   Forall (λ h, id h ≠ EmptyString ∨ textContent h ≠ EmptyString)
     (headings doc_23432)) ∧
  ∃ m s',
    createList cfg_nested (enough_fuel doc_23432 + 0) true (mkSt doc_23432 0)
      = Some (m, s') ∧
    (markup_entries m).*1 = id <$> headings (doc s') ∧
    Forall (λ href, href ≠ EmptyString) (markup_entries m).*1 ∧
    NoDup (markup_entries m).*1 ∧
    others (doc s') = others doc_23432 ∧
    ∀ href o, href ∈ (markup_entries m).*1 → o ∈ others doc_23432 →
              id o ≠ href.
Proof.
  assert (NoDup (assigned_ids doc_23432)) as Hnodup
    by (vm_compute; repeat constructor; set_solver).
  assert (Forall (λ h, id h ≠ EmptyString ∨ textContent h ≠ EmptyString)
            (headings doc_23432)) as Hnamed
    by (unfold doc_23432; cbn [headings];
        repeat (apply Forall_cons_2; [by right|]); apply Forall_nil_2).
  split; [by split|].
  exact (links_lead_to_their_headings cfg_nested doc_23432 0 0 Hnodup Hnamed).
Defined.

(** ** Empty attribute values *)






(** ** Running the builder again *)

Lemma fixes_refl (d : Document) : fixes d d.
Proof.
  apply Forall2_same_length_lookup. split; [done|].
  intros j x y ? ?. assert (y = x) as -> by congruence. done.
Qed.

Lemma fixes_trans (d1 d2 d3 : Document) :
  fixes d1 d2 → fixes d2 d3 → fixes d1 d3.
Proof.
  unfold fixes. intros H12 H23.
  apply Forall2_same_length_lookup. split.
  { apply Forall2_length in H12, H23. congruence. }
  intros j x z Hx Hz.
  destruct (Forall2_lookup_l _ _ _ _ _ H12 Hx) as (y & Hy & Ht & Hs).
  destruct (Forall2_lookup_l _ _ _ _ _ H23 Hy) as (z' & Hz' & Ht' & Hs').
  assert (z' = z) as -> by congruence. split; [congruence|].
  intros Hset. specialize (Hs Hset). subst y. by apply Hs'.
Qed.

Lemma setTextAsID_fixes (fuel : nat) (d d' : Document) (i : nat) :
  setTextAsID fuel d i = Some d' → fixes d d'.
Proof.
  intros [->|(e & k & He & Hid & Hslug & _ & ->)]%setTextAsID_cases;
    [apply fixes_refl|].
  unfold fixes. cbn [headings set_headings].
  rewrite <- (list_insert_id (headings d) i e He) at 1.
  apply Forall2_insert.
  - apply (fixes_refl d).
  - split; [done|]. unfold settled. rewrite Hid. cbn.
    intros Hs%negb_true_iff. by apply truthy_false in Hs.
Qed.

Lemma runs_fixes (cfg : Config) (isFirst : bool) (items : list Item) (s : St)
    (items' : list Item) (s' : St) :
  runs cfg isFirst items s items' s' → fixes (doc s) (doc s').
Proof.
  intros Hruns.
  eapply (runs_invariant (λ d', fixes (doc s) d')) in Hruns;
    [done| |apply fixes_refl].
  intros fuel d i d' ? ?. eapply fixes_trans; [done|].
  by eapply setTextAsID_fixes.
Qed.

Lemma fixes_next_level (d d' : Document) (j : nat) (currentLevel : string) :
  fixes d d' →
  next_level (headings d') j currentLevel =
  next_level (headings d) j currentLevel.
Proof.
  intros H. unfold next_level, level_of.
  destruct (headings d !! j) as [e|] eqn:He.
  - destruct (Forall2_lookup_l _ _ _ _ _ H He) as (e' & -> & -> & _). done.
  - apply lookup_ge_None in He. rewrite (Forall2_length _ _ _ H) in He.
    apply lookup_ge_None in He. by rewrite He.
Qed.

(** On a document in which every heading is settled and which the final
    document of a run fixes, the loop returns the same items and stops at
    the same position, and leaves that document as it is. *)
Lemma for_loop_replay (cfg : Config) (D : Document) (fuel : nat)
    (isFirst : bool) (items : list Item) (s : St) (items' : list Item)
    (s' : St) :
  Forall (λ e, settled e = true) (headings D) →
  for_loop cfg fuel isFirst items s = Some (items', s') →
  fixes (doc s') D →
  for_loop cfg fuel isFirst items (mkSt D (index s)) =
  Some (items', mkSt D (index s')).
Proof.
  intros HD. revert isFirst items s items' s'.
  induction fuel as [|fuel IH]; intros isFirst items s items' s'; [done|].
  intros Hloop Hfix. pose proof (for_loop_runs _ _ _ _ _ _ _ Hloop) as Hruns.
  pose proof (runs_fixes _ _ _ _ _ _ Hruns) as Hfix0.
  pose proof (fixes_trans _ _ _ Hfix0 Hfix) as HsD.
  cbn [for_loop] in *. cbn [doc index].
  rewrite <- (Forall2_length _ _ _ HsD).
  destruct (index s <? length (headings (doc s))) eqn:Hlt.
  2:{ by injection Hloop as <- <-. }
  destruct (setTextAsID fuel (doc s) (index s)) as [d1|] eqn:Hset; [|done].
  destruct (headings d1 !! index s) as [h|] eqn:Hh; [|done].
  cbv zeta in Hloop.
  assert (fixes d1 (doc s') → headings D !! index s = Some h) as HhD.
  { intros Hfix1. pose proof (fixes_trans _ _ _ Hfix1 Hfix) as H1D.
    destruct (Forall2_lookup_l _ _ _ _ _ H1D Hh) as (h' & Hh' & _ & Hsame).
    rewrite Hh'. f_equal. apply Hsame. by eapply setTextAsID_settles. }
  assert (fixes d1 (doc s') →
          setTextAsID fuel D (index s) = Some D) as HsetD.
  { intros Hfix1. eapply setTextAsID_settled; [by apply HhD|].
    by eapply setTextAsID_settles. }
  destruct (nested cfg &&
            js_gt (next_level (headings d1) (index s + 1) (level_of h))
              (level_of h)) eqn:Hopen.
  - destruct (for_loop cfg fuel false [] _) as [[l s2]|] eqn:Hchild; [|done].
    pose proof (runs_fixes _ _ _ _ _ _ (for_loop_runs _ _ _ _ _ _ _ Hchild))
      as Hfixc. cbn [doc set_index] in Hfixc.
    destruct (negb isFirst &&
              js_lt (next_level (headings (doc s2)) (index s2 + 1) (level_of h))
                (level_of h)) eqn:Hstop.
    + injection Hloop as <- <-.
      rewrite (HsetD Hfixc), (HhD Hfixc). cbv zeta.
      rewrite (fixes_next_level d1 D) by (by eapply fixes_trans).
      rewrite Hopen.
      pose proof (IH _ _ _ _ _ Hchild Hfix) as IHc.
      unfold set_index in IHc |- *. cbn [doc index] in IHc |- *.
      rewrite IHc. cbn [doc index].
      rewrite (fixes_next_level (doc s2) D) by done.
      by rewrite Hstop.
    + pose proof (runs_fixes _ _ _ _ _ _ (for_loop_runs _ _ _ _ _ _ _ Hloop))
        as Hfixr. cbn [doc set_index] in Hfixr.
      pose proof (fixes_trans _ _ _ Hfixc Hfixr) as Hfix1.
      rewrite (HsetD Hfix1), (HhD Hfix1). cbv zeta.
      rewrite (fixes_next_level d1 D)
        by (eapply fixes_trans; [exact Hfix1|done]).
      rewrite Hopen.
      pose proof (IH _ _ _ _ _ Hchild (fixes_trans _ _ _ Hfixr Hfix)) as IHc.
      unfold set_index in IHc |- *. cbn [doc index] in IHc |- *.
      rewrite IHc. cbn [doc index].
      rewrite (fixes_next_level (doc s2) D) by (by eapply fixes_trans).
      rewrite Hstop. by apply (IH _ _ _ _ _ Hloop).
  - cbn [doc index] in Hloop.
    destruct (negb isFirst &&
              js_lt (next_level (headings d1) (index s + 1) (level_of h))
                (level_of h)) eqn:Hstop.
    + injection Hloop as <- <-. cbn [doc index] in *.
      rewrite (HsetD (fixes_refl _)), (HhD (fixes_refl _)). cbv zeta.
      cbn [doc index]. rewrite (fixes_next_level d1 D) by done.
      rewrite Hopen. cbn [doc index].
      rewrite (fixes_next_level d1 D) by done. by rewrite Hstop.
    + pose proof (runs_fixes _ _ _ _ _ _ (for_loop_runs _ _ _ _ _ _ _ Hloop))
        as Hfix1. cbn [doc set_index] in Hfix1.
      rewrite (HsetD Hfix1), (HhD Hfix1). cbv zeta. cbn [doc index].
      rewrite (fixes_next_level d1 D)
        by (eapply fixes_trans; [exact Hfix1|done]).
      rewrite Hopen. cbn [doc index].
      rewrite (fixes_next_level d1 D)
        by (eapply fixes_trans; [exact Hfix1|done]).
      rewrite Hstop.
      by apply (IH _ _ _ _ _ Hloop).
Qed.

(** Running the builder again on the document it leaves behind, with the
    same settings, returns the same list (hence the same HTML string) and
    leaves that document as it is: the result of the top-level call is a
    fixed point. *)
Theorem rendering_again_gives_the_same_list (cfg : Config) (d : Document)
    (i j k : nat) :
  ∃ m s',
    createList cfg (enough_fuel d + k) true (mkSt d i) = Some (m, s') ∧
    createList cfg (enough_fuel d + k) true (mkSt (doc s') j) = Some (m, s') ∧
    createList_html cfg (enough_fuel d + k) true (mkSt (doc s') j) =
      Some (to_html m, s').
Proof.
  destruct (createList_total cfg true (mkSt d i) k) as [[m s'] Hcl].
  cbn [doc] in Hcl. exists m, s'. split; [done|].
  pose proof (createList_first_settles _ _ _ _ _ Hcl) as Hsettled.
  assert (createList cfg (enough_fuel d + k) true (mkSt (doc s') j) =
          Some (m, s')) as Hagain.
  { unfold createList in Hcl |- *. unfold set_index in Hcl |- *.
    cbn [doc index] in Hcl |- *.
    destruct (for_loop cfg (enough_fuel d + k) true [] (mkSt d 0))
      as [[items s1]|] eqn:Hloop; [|done].
    injection Hcl as <- <-.
    pose proof (for_loop_replay cfg (doc s1) _ _ _ _ _ _ Hsettled Hloop
                  (fixes_refl _)) as Hrun.
    cbn [index] in Hrun. rewrite Hrun. by destruct s1. }
  split; [done|]. by rewrite createList_html_tree, Hagain.
Qed.
